(** * whitecottagefloral: path resolver, template compiler and publish pipeline

    A shallow embedding of [getValue], [setValue] and [buildHTML]
    (editor/server.js, mirrored by the top-level script build.js) and of the
    [POST /api/publish] route, with the properties the specification states
    about them.  The other routes of the editor (data, preview, photos,
    Google reviews), the build script and the Place ID search are embedded
    as well, with properties read off the code.

    Scope of the model.
    - A JavaScript string is a [string] whose characters stand for UTF-16 code
      units below 256.
    - A content tree is what [JSON.parse] returns, plus [undefined]; numbers
      are integers.
    - [get_prop] reads the own properties of a value: the keys of a mapping,
      the indices and the [length] of a sequence or a string.  JavaScript
      also finds the members a value inherits from the prototype objects of
      the host ([constructor], [toString], [__proto__], ...).  [own_read]
      and [own_path] tell when a reading meets none of these, so that
      [get_prop] and [getValue] give what JavaScript gives; the theorems
      about arbitrary keys take them as hypotheses.  [setValue] is partial:
      it has no result where a write would go through an inherited member.
    - [to_string] gives the string form of a value; [printable] tells when
      it is the one JavaScript gives: a number that is printed in decimal
      and no mapping with a [toString] key of its own, on which the
      conversion throws.
    - A regular expression is run by a backtracking matcher with the priorities
      of the ECMAScript one: leftmost start, greedy or lazy repetition,
      first successful continuation.
    - A loop that need not end takes a number of turns, its fuel, and gives
      no result when they do not suffice. *)

From Stdlib Require Import String Ascii List ZArith NArith Bool Lia.
From Stdlib Require Import DecimalString DecimalN.
Import ListNotations.
Local Open Scope list_scope.
Local Open Scope string_scope.

Set Implicit Arguments.

(* ================================================================== *)
(** * Part I. Definitions *)
(* ================================================================== *)

(** ** Results of fallible code *)

Inductive exn : Type :=
| TypeError
| RangeError
| Error (message : string).

Inductive result (A : Type) : Type :=
| Ok (a : A)
| Throw (e : exn).

Arguments Ok {A} a.
Arguments Throw {A} e.

Definition bind {A B : Type} (r : result A) (k : A -> result B) : result B :=
  match r with
  | Ok a => k a
  | Throw e => Throw e
  end.

Notation "x <- e ;; k" := (bind e (fun x => k))
  (at level 61, e at next level, right associativity).

(** A computation that may also give no answer: a loop that has not finished
    within its fuel, or a step the model does not cover. *)
Definition bind_opt {A B : Type} (r : option (result A))
  (k : A -> option (result B)) : option (result B) :=
  match r with
  | Some (Ok a) => k a
  | Some (Throw e) => Some (Throw e)
  | None => None
  end.

Notation "x <~ e ;; k" := (bind_opt e (fun x => k))
  (at level 61, e at next level, right associativity).

(** ** Strings *)

Module Str.

Fixpoint take (n : nat) (s : string) : string :=
  match n, s with
  | S n', String c s' => String c (take n' s')
  | _, _ => ""
  end.

Fixpoint drop (n : nat) (s : string) : string :=
  match n, s with
  | S n', String _ s' => drop n' s'
  | _, _ => s
  end.

(** WhiteSpace and LineTerminator code units below 256: TAB, LF, VT, FF,
    CR, SP and NBSP.  This is the set [String.prototype.trim] strips and the
    class [\s] matches. *)
Definition is_space (c : ascii) : bool :=
  let n := nat_of_ascii c in
  ((9 <=? n)%nat && (n <=? 13)%nat) || (n =? 32)%nat || (n =? 160)%nat.

(** LineTerminator code units below 256: LF and CR. *)
Definition is_newline (c : ascii) : bool :=
  let n := nat_of_ascii c in (n =? 10)%nat || (n =? 13)%nat.

Fixpoint trim_start (s : string) : string :=
  match s with
  | String c s' => if is_space c then trim_start s' else s
  | "" => ""
  end.

Fixpoint trim_end (s : string) : string :=
  match s with
  | "" => ""
  | String c s' =>
      match trim_end s' with
      | "" => if is_space c then "" else String c ""
      | t => String c t
      end
  end.

(** [s.trim()] *)
Definition trim (s : string) : string := trim_end (trim_start s).

(** [s.split('.')] *)
Fixpoint split_dot (s : string) : list string :=
  match s with
  | "" => [""]
  | String c s' =>
      if Ascii.eqb c "." then "" :: split_dot s'
      else match split_dot s' with
           | h :: t => String c h :: t
           | [] => [String c ""]
           end
  end.

(** [strip_prefix p s] is the rest of [s] after its prefix [p]. *)
Fixpoint strip_prefix (p s : string) : option string :=
  match p, s with
  | "", _ => Some s
  | String a p', String b s' => if Ascii.eqb a b then strip_prefix p' s' else None
  | String _ _, "" => None
  end.

(** First occurrence of [p] in [s]: the text before it and the text after. *)
Fixpoint find (p s : string) : option (string * string) :=
  match strip_prefix p s with
  | Some rest => Some ("", rest)
  | None =>
      match s with
      | "" => None
      | String c s' =>
          match find p s' with
          | Some (before, after) => Some (String c before, after)
          | None => None
          end
      end
  end.

(** GetSubstitution for a replacement string used with a string pattern
    (no capture groups): [$$], [$&], [$`] and [$'] are expanded, any other
    character, a [$] followed by something else included, stands for itself. *)
Fixpoint substitution (matched before after repl : string) : string :=
  match repl with
  | "" => ""
  | String c r =>
      if Ascii.eqb c "$" then
        match r with
        | String d r' =>
            if Ascii.eqb d "$" then String "$" (substitution matched before after r')
            else if Ascii.eqb d "&" then matched ++ substitution matched before after r'
            else if Ascii.eqb d "`" then before ++ substitution matched before after r'
            else if Ascii.eqb d "'" then after ++ substitution matched before after r'
            else String c (substitution matched before after r)
        | "" => String c ""
        end
      else String c (substitution matched before after r)
  end.

(** [s.replace(p, repl)] with a string pattern [p] and a replacement string:
    only the first occurrence is replaced. *)
Definition replace_first (s p repl : string) : string :=
  match find p s with
  | Some (before, after) => before ++ substitution p before after repl ++ after
  | None => s
  end.

Fixpoint all (p : ascii -> bool) (s : string) : bool :=
  match s with
  | "" => true
  | String c s' => p c && all p s'
  end.

(** A path segment: no dot in it. *)
Definition dot_free (s : string) : bool :=
  all (fun c => negb (Ascii.eqb c ".")) s.

Definition is_digit (c : ascii) : bool :=
  let n := nat_of_ascii c in (48 <=? n)%nat && (n <=? 57)%nat.

Definition dquote : ascii := "034"%char.

(** A literal written with apostrophes for its double quotes. *)
Fixpoint quoted (s : string) : string :=
  match s with
  | "" => ""
  | String c s' => String (if Ascii.eqb c "'" then dquote else c) (quoted s')
  end.

(** A text without the character [x]. *)
Definition lacks (x : ascii) (s : string) : bool :=
  all (fun c => negb (Ascii.eqb c x)) s.

(** A replacement string none of whose patterns names the match or the
    text around it: [$$] may occur, [$&], [$`] and [$'] do not. *)
Fixpoint static (repl : string) : bool :=
  match repl with
  | "" => true
  | String c r =>
      if Ascii.eqb c "$" then
        match r with
        | String d r' =>
            if Ascii.eqb d "$" then static r'
            else if Ascii.eqb d "&" then false
            else if Ascii.eqb d "`" then false
            else if Ascii.eqb d "'" then false
            else static r
        | "" => true
        end
      else static r
  end.

(** What such a replacement string stands for, whatever the match. *)
Definition expanded (repl : string) : string := substitution "" "" "" repl.

(** No text twice in the list. *)
Fixpoint distinct (l : list string) : bool :=
  match l with
  | [] => true
  | x :: rest => negb (existsb (String.eqb x) rest) && distinct rest
  end.

End Str.

(** ** Content trees *)

#[warnings="-register-all"]
Inductive value : Type :=
| VUndefined
| VNull
| VBool (b : bool)
| VNumber (n : Z)
| VString (s : string)
| VArray (items : list value)
| VObject (fields : list (string * value)).

Module Value.

(** ToBoolean *)
Definition truthy (v : value) : bool :=
  match v with
  | VUndefined | VNull => false
  | VBool b => b
  | VNumber n => negb (n =? 0)%Z
  | VString s => negb (s =? "")
  | VArray _ | VObject _ => true
  end.


Definition number_text (n : Z) : string := NilEmpty.string_of_int (Z.to_int n).

(** ToString, for the values [printable] below accepts.  A sequence is
    joined with commas, [null] and [undefined] elements giving the empty
    string ([Array.prototype.join]). *)
Fixpoint to_string (v : value) : string :=
  match v with
  | VUndefined => "undefined"
  | VNull => "null"
  | VBool true => "true"
  | VBool false => "false"
  | VNumber n => number_text n
  | VString s => s
  | VArray items =>
      String.concat ","
        (map (fun x => match x with
                       | VUndefined | VNull => ""
                       | _ => to_string x
                       end) items)
  | VObject _ => "[object Object]"
  end.

(** The scalars that count as false: [null], [false], [0] and the empty
    string. *)
Definition falsy_scalar (v : value) : bool :=
  match v with
  | VNull => true
  | VBool b => negb b
  | VNumber n => (n =? 0)%Z
  | VString s => s =? ""
  | _ => false
  end.

(** The scalars that count as true. *)
Definition truthy_scalar (v : value) : bool :=
  match v with
  | VBool b => b
  | VNumber n => negb (n =? 0)%Z
  | VString s => negb (s =? "")
  | _ => false
  end.

Fixpoint lookup (k : string) (fields : list (string * value)) : option value :=
  match fields with
  | [] => None
  | (k', v) :: rest => if k' =? k then Some v else lookup k rest
  end.

(** An array index is a canonical numeric string: the decimal numeral of a
    number, printing back to the very same string. *)
Definition array_index (k : string) : option N :=
  match NilEmpty.uint_of_string k with
  | Some d =>
      let n := N.of_uint d in
      if NilEmpty.string_of_uint (N.to_uint n) =? k then Some n else None
  | None => None
  end.

Definition index_text (n : nat) : string :=
  NilEmpty.string_of_uint (N.to_uint (N.of_nat n)).

Definition char_at (i : nat) (s : string) : value :=
  match String.get i s with
  | Some c => VString (String c "")
  | None => VUndefined
  end.

(** [v[k]]: reading a property that [v] has of its own, or a name that
    neither [v] nor the prototype objects have, which reads as [undefined].
    Reading from [null] or [undefined] throws.  For the name of an inherited
    member that is no own property JavaScript reads that member; [own_read]
    below tells when [k] is no such name. *)
Definition get_prop (v : value) (k : string) : result value :=
  match v with
  | VUndefined | VNull => Throw TypeError
  | VBool _ | VNumber _ => Ok VUndefined
  | VString s =>
      match array_index k with
      | Some i =>
          if (i <? N.of_nat (String.length s))%N then Ok (char_at (N.to_nat i) s)
          else Ok VUndefined
      | None =>
          if k =? "length" then Ok (VNumber (Z.of_nat (String.length s)))
          else Ok VUndefined
      end
  | VArray items =>
      match array_index k with
      | Some i =>
          if (i <? N.of_nat (List.length items))%N
          then Ok (nth (N.to_nat i) items VUndefined)
          else Ok VUndefined
      | None =>
          if k =? "length" then Ok (VNumber (Z.of_nat (List.length items)))
          else Ok VUndefined
      end
  | VObject fields =>
      match lookup k fields with
      | Some x => Ok x
      | None => Ok VUndefined
      end
  end.

(** The names of the members that values inherit from the prototype objects
    of the host: those of [Object.prototype], [Array.prototype],
    [String.prototype], [Number.prototype] and [Boolean.prototype], the
    members of Annex B included.  A name that is none of these and no own
    property reads as [undefined]. *)
Definition inherited_names : list string :=
  [ (* Object.prototype *)
    "constructor"; "hasOwnProperty"; "isPrototypeOf"; "propertyIsEnumerable";
    "toLocaleString"; "toString"; "valueOf"; "__proto__";
    "__defineGetter__"; "__defineSetter__"; "__lookupGetter__";
    "__lookupSetter__";
    (* Array.prototype *)
    "at"; "concat"; "copyWithin"; "entries"; "every"; "fill"; "filter";
    "find"; "findIndex"; "findLast"; "findLastIndex"; "flat"; "flatMap";
    "forEach"; "group"; "groupBy"; "groupToMap"; "includes"; "indexOf";
    "join"; "keys"; "lastIndexOf"; "map"; "pop"; "push"; "reduce";
    "reduceRight"; "reverse"; "shift"; "slice"; "some"; "sort"; "splice";
    "toReversed"; "toSorted"; "toSpliced"; "unshift"; "values"; "with";
    (* String.prototype *)
    "anchor"; "big"; "blink"; "bold"; "charAt"; "charCodeAt"; "codePointAt";
    "endsWith"; "fixed"; "fontcolor"; "fontsize"; "isWellFormed"; "italics";
    "link"; "localeCompare"; "match"; "matchAll"; "normalize"; "padEnd";
    "padStart"; "repeat"; "replace"; "replaceAll"; "search"; "small";
    "split"; "startsWith"; "strike"; "sub"; "substr"; "substring"; "sup";
    "toLocaleLowerCase"; "toLocaleUpperCase"; "toLowerCase"; "toUpperCase";
    "toWellFormed"; "trim"; "trimEnd"; "trimLeft"; "trimRight"; "trimStart";
    (* Number.prototype *)
    "toExponential"; "toFixed"; "toPrecision" ].

Definition inherited (k : string) : bool :=
  existsb (String.eqb k) inherited_names.

(** Whether [get_prop v k] is what JavaScript reads as [v[k]]: [k] is an own
    property of [v], or no inherited member has that name. *)
Definition own_read (v : value) (k : string) : bool :=
  match v with
  | VUndefined | VNull => true
  | VBool _ | VNumber _ => negb (inherited k)
  | VString _ | VArray _ =>
      match array_index k with
      | Some _ => true
      | None => (k =? "length") || negb (inherited k)
      end
  | VObject fields =>
      match lookup k fields with
      | Some _ => true
      | None => negb (inherited k)
      end
  end.

(** A sequence or a mapping. *)
Definition container (v : value) : bool :=
  match v with
  | VArray _ | VObject _ => true
  | _ => false
  end.

(** [v[k]] where the model has it.  [None]: the name is that of an
    inherited member, and what is read is no value of a content tree. *)
Definition read (v : value) (k : string) : option (result value) :=
  if own_read v k then Some (get_prop v k) else None.

(** Whether [to_string v] is what JavaScript gives as the string of [v]: a
    number is an integer that is held exactly and printed in decimal
    ([Number.isSafeInteger]), a mapping has no key [toString] of its own (with
    one, the conversion throws a [TypeError]), and so for the elements of a
    sequence. *)
Fixpoint printable (v : value) : bool :=
  match v with
  | VNumber n => (Z.abs n <=? 9007199254740991)%Z
  | VArray items =>
      forallb (fun x => match x with
                        | VUndefined | VNull => true
                        | _ => printable x
                        end) items
  | VObject fields =>
      match lookup "toString" fields with
      | Some _ => false
      | None => true
      end
  | _ => true
  end.

End Value.

(** ** Path resolver: [getValue] and [setValue] *)

Module Path.
Import Value.

(** The reducer [(current, prop) => current && current[prop]]. *)
Definition step (acc : result value) (prop : string) : result value :=
  current <- acc ;;
  if truthy current then get_prop current prop else Ok current.

(** [path.split('.').reduce((current, prop) => current && current[prop], obj)] *)
Definition getValue (obj : value) (path : string) : result value :=
  fold_left step (Str.split_dot path) (Ok obj).

Fixpoint update (k : string) (x : value) (fields : list (string * value))
  : list (string * value) :=
  match fields with
  | [] => [(k, x)]
  | (k', y) :: rest =>
      if k' =? k then (k', x) :: rest else (k', y) :: update k x rest
  end.

(** Writing index [i] of a sequence; past the end the sequence is extended,
    the skipped positions reading as [undefined]. *)
Fixpoint write_at (i : nat) (x : value) (items : list value) : list value :=
  match i, items with
  | O, [] => [x]
  | O, _ :: rest => x :: rest
  | S i', [] => VUndefined :: write_at i' x []
  | S i', y :: rest => y :: write_at i' x rest
  end.

(** Whether resolving the segments [keys] from [obj] reads own properties
    only, or names that no inherited member has: then [getValue] below is
    what JavaScript computes. *)
Fixpoint own_walk (obj : value) (keys : list string) : bool :=
  match keys with
  | [] => true
  | k :: rest =>
      if truthy obj then
        own_read obj k
        && match get_prop obj k with
           | Ok child => own_walk child rest
           | Throw _ => true
           end
      else true
  end.

Definition own_path (obj : value) (path : string) : bool :=
  own_walk obj (Str.split_dot path).

(** [v[k] = x] in strict-mode code (server.js is an ES module): the
    container after the write.  A write to a primitive throws.  [None]: the
    write is outside the model: a sequence given a named property or a new
    [length], or the name [__proto__] where it is no own property (the
    setter that [Object.prototype] has for it is run). *)
Definition set_prop (v : value) (k : string) (x : value) : option (result value) :=
  match v with
  | VUndefined | VNull => Some (Throw TypeError)
  | VBool _ | VNumber _ | VString _ =>
      if k =? "__proto__" then None else Some (Throw TypeError)
  | VObject fields =>
      match lookup k fields with
      | Some _ => Some (Ok (VObject (update k x fields)))
      | None =>
          if k =? "__proto__" then None
          else Some (Ok (VObject (update k x fields)))
      end
  | VArray items =>
      match array_index k with
      | Some i =>
          if (i <? 4294967295)%N
          then Some (Ok (VArray (write_at (N.to_nat i) x items)))
          else None
      | None => None
      end
  end.

(** The container [v] once the value it holds at [k] has become [child]:
    the program updates the tree in place, and what was written below [v[k]]
    shows in [v]. *)
Definition put (v : value) (k : string) (child : value) : value :=
  match v with
  | VObject fields => VObject (update k child fields)
  | VArray items =>
      match array_index k with
      | Some i => VArray (write_at (N.to_nat i) child items)
      | None => v
      end
  | _ => v
  end.

(** The [reduce] of [setValue] followed by the final write: the result is
    [current] once the write is done.
    [if (!current[key]) current[key] = {}; return current[key];] *)
Fixpoint set_path (keys : list string) (lastKey : string) (x : value)
  (current : value) : option (result value) :=
  match keys with
  | [] => set_prop current lastKey x
  | key :: rest =>
      child <~ read current key ;;
      if truthy child then
        child' <~ set_path rest lastKey x child ;;
        Some (Ok (put current key child'))
      else
        current' <~ set_prop current key (VObject []) ;;
        child' <~ set_path rest lastKey x (VObject []) ;;
        Some (Ok (put current' key child'))
  end.

(** The chain of mappings a write creates below a missing segment. *)
Fixpoint nest (keys : list string) (lastKey : string) (x : value) : value :=
  match keys with
  | [] => VObject [(lastKey, x)]
  | key :: rest => VObject [(key, nest rest lastKey x)]
  end.

(** [const keys = path.split('.'); const lastKey = keys.pop(); ...] *)
Definition setValue (obj : value) (path : string) (x : value)
  : option (result value) :=
  let keys := Str.split_dot path in
  set_path (removelast keys) (last keys "") x obj.

End Path.

(** ** Regular expressions *)

Module Regex.

(** The fragment of the pattern language the program uses: every repetition
    is over a character class, and capture groups are not nested. *)
Inductive regex : Type :=
| Eps
| Chr (p : ascii -> bool)
| Cat (r1 r2 : regex)
| Star (greedy : bool) (p : ascii -> bool)
| Group (r : regex).

(** [p+] and [p+?] *)
Definition Plus (greedy : bool) (p : ascii -> bool) : regex :=
  Cat (Chr p) (Star greedy p).

(** Canonicalize of a case-insensitive match: the upper-case form. *)
Definition canonicalize (c : ascii) : ascii :=
  let n := nat_of_ascii c in
  if ((97 <=? n)%nat && (n <=? 122)%nat)
     || ((224 <=? n)%nat && (n <=? 254)%nat && negb (n =? 247)%nat)
  then ascii_of_nat (n - 32) else c.

Definition chr_eq (ignoreCase : bool) (a c : ascii) : bool :=
  if ignoreCase then Ascii.eqb (canonicalize a) (canonicalize c)
  else Ascii.eqb a c.

(** A literal run of characters. *)
Fixpoint lit (ignoreCase : bool) (s : string) : regex :=
  match s with
  | "" => Eps
  | String a s' => Cat (Chr (chr_eq ignoreCase a)) (lit ignoreCase s')
  end.

(** Character classes of the patterns. *)
Definition any : ascii -> bool := fun _ => true.                (* [\s\S] *)
Definition dot : ascii -> bool := fun c => negb (Str.is_newline c). (* . *)
Definition space : ascii -> bool := Str.is_space.               (* \s *)
Definition none_of (cs : string) : ascii -> bool :=             (* [^...] *)
  fun c => negb (existsb (Ascii.eqb c) (list_ascii_of_string cs)).

Section Matcher.
Variable R : Type.

(** [p*?]: the continuation is tried first, then one more character. *)
Fixpoint star_lazy (p : ascii -> bool) (s : string)
  (k : string -> option R) : option R :=
  match k s with
  | Some r => Some r
  | None =>
      match s with
      | String c s' => if p c then star_lazy p s' k else None
      | "" => None
      end
  end.

(** [p*]: one more character is tried first, then the continuation. *)
Fixpoint star_greedy (p : ascii -> bool) (s : string)
  (k : string -> option R) : option R :=
  match s with
  | String c s' =>
      if p c then
        match star_greedy p s' k with
        | Some r => Some r
        | None => k s
        end
      else k s
  | "" => k s
  end.

(** The backtracking matcher, in continuation-passing style: [s] is the
    input still to read, [caps] the captures closed so far. *)
Fixpoint run (r : regex) (s : string) (caps : list string)
  (k : string -> list string -> option R) : option R :=
  match r with
  | Eps => k s caps
  | Chr p =>
      match s with
      | String c s' => if p c then k s' caps else None
      | "" => None
      end
  | Cat r1 r2 => run r1 s caps (fun s' caps' => run r2 s' caps' k)
  | Star true p => star_greedy p s (fun s' => k s' caps)
  | Star false p => star_lazy p s (fun s' => k s' caps)
  | Group r' =>
      run r' s caps
        (fun s' caps' =>
           k s' (caps' ++ [Str.take (String.length s - String.length s') s])%list)
  end.
End Matcher.

(** A match: the matched text ([match[0]]), the captures, the input after. *)
Record found : Type := Found
  { matched : string; captures : list string; after : string }.

Definition capture (n : nat) (m : found) : string :=
  nth (n - 1) (captures m) "".

(** A match starting at the head of [s]. *)
Definition match_at (r : regex) (s : string) : option found :=
  run r s []
    (fun s' caps =>
       Some (Found (Str.take (String.length s - String.length s') s) caps s')).

(** The leftmost match in [s]: the text before it and the match. *)
Fixpoint search (r : regex) (s : string) : option (string * found) :=
  match match_at r s with
  | Some m => Some ("", m)
  | None =>
      match s with
      | "" => None
      | String c s' =>
          match search r s' with
          | Some (before, m) => Some (String c before, m)
          | None => None
          end
      end
  end.

(** [regex.exec(s)] for a global expression whose [lastIndex] is given: the
    index of the match and the match.  No match past the end of [s]. *)
Definition exec (r : regex) (s : string) (lastIndex : nat)
  : option (nat * found) :=
  if (String.length s <? lastIndex)%nat then None
  else match search r (Str.drop lastIndex s) with
       | Some (before, m) => Some (lastIndex + String.length before, m)
       | None => None
       end.

(** The pieces a global [replace] cuts [s] into: characters kept and
    matches, from left to right.  [skip] characters of [s] belong to the
    match found last. *)
Inductive piece : Type :=
| Keep (c : ascii)
| Hit (m : found).

Fixpoint pieces (r : regex) (skip : nat) (s : string) : list piece :=
  match skip with
  | S n =>
      match s with
      | String _ s' => pieces r n s'
      | "" => []
      end
  | O =>
      match match_at r s with
      | Some m =>
          Hit m ::
          match s with
          | String c s' =>
              match matched m with
              | "" => Keep c :: pieces r 0 s'
              | String _ t => pieces r (String.length t) s'
              end
          | "" => []
          end
      | None =>
          match s with
          | String c s' => Keep c :: pieces r 0 s'
          | "" => []
          end
      end
  end.

(** [s.replace(r, f)] for a global [r] and a replacer function [f]. *)
Fixpoint assemble (f : found -> result string) (ps : list piece) : result string :=
  match ps with
  | [] => Ok ""
  | Keep c :: rest => out <- assemble f rest ;; Ok (String c out)
  | Hit m :: rest =>
      text <- f m ;;
      out <- assemble f rest ;;
      Ok (text ++ out)
  end.

Definition replace_all (r : regex) (f : found -> result string) (s : string)
  : result string :=
  assemble f (pieces r 0 s).

(** [s.replace(r, f)] for a non-global [r]: the first match only. *)
Definition replace_one (r : regex) (f : found -> result string) (s : string)
  : result string :=
  match search r s with
  | Some (before, m) => text <- f m ;; Ok (before ++ text ++ after m)
  | None => Ok s
  end.

(** *** Readings of an expression, to state and prove properties *)

(** The declarative reading of an expression: [matches r t caps caps']
    when the text [t] is in the language of [r], the groups closed on the
    way being added to [caps]. *)
Inductive matches : regex -> string -> list string -> list string -> Prop :=
| M_Eps : forall caps, matches Eps "" caps caps
| M_Chr : forall p c caps, p c = true -> matches (Chr p) (String c "") caps caps
| M_Cat : forall r1 r2 t1 t2 caps caps' caps'',
    matches r1 t1 caps caps' -> matches r2 t2 caps' caps'' ->
    matches (Cat r1 r2) (t1 ++ t2) caps caps''
| M_Star : forall greedy p t caps,
    Str.all p t = true -> matches (Star greedy p) t caps caps
| M_Group : forall r t caps caps',
    matches r t caps caps' -> matches (Group r) t caps (caps' ++ [t])%list.


(** Whether [s] starts with the literal [l]. *)
Fixpoint starts (ignoreCase : bool) (l s : string) : bool :=
  match l, s with
  | "", _ => true
  | String a l', String c s' => chr_eq ignoreCase a c && starts ignoreCase l' s'
  | String _ _, "" => false
  end.

(** No position of [t] starts the literal [l], the text going on with
    [rest]. *)
Fixpoint clear_of (ignoreCase : bool) (l t rest : string) : bool :=
  match t with
  | "" => true
  | String _ t' =>
      negb (starts ignoreCase l (t ++ rest)) && clear_of ignoreCase l t' rest
  end.

(** The inputs a repetition can leave, in the order the matcher tries them. *)
Fixpoint star_greedy_all (p : ascii -> bool) (s : string) : list string :=
  match s with
  | String c s' => if p c then (star_greedy_all p s' ++ [s])%list else [s]
  | "" => [s]
  end.

Fixpoint star_lazy_all (p : ascii -> bool) (s : string) : list string :=
  s :: match s with
       | String c s' => if p c then star_lazy_all p s' else []
       | "" => []
       end.

(** All the ways [r] reads a prefix of [s], in the order the matcher tries
    them: the input left and the captures. *)
Fixpoint parses (r : regex) (s : string) (caps : list string)
  : list (string * list string) :=
  match r with
  | Eps => [(s, caps)]
  | Chr p =>
      match s with
      | String c s' => if p c then [(s', caps)] else []
      | "" => []
      end
  | Cat r1 r2 => flat_map (fun x => parses r2 (fst x) (snd x)) (parses r1 s caps)
  | Star true p => map (fun s' => (s', caps)) (star_greedy_all p s)
  | Star false p => map (fun s' => (s', caps)) (star_lazy_all p s)
  | Group r' =>
      map (fun x =>
             (fst x,
              (snd x ++ [Str.take (String.length s - String.length (fst x)) s])%list))
        (parses r' s caps)
  end.

(** No position of [t] lets [r] read a prefix of the text [t ++ rest]. *)
Fixpoint unread (r : regex) (t rest : string) : bool :=
  match t with
  | "" => true
  | String _ t' =>
      match parses r (t ++ rest) [] with
      | [] => unread r t' rest
      | _ :: _ => false
      end
  end.

(** The first success of a continuation over a list of attempts. *)
Fixpoint first_some {A R : Type} (k : A -> option R) (l : list A) : option R :=
  match l with
  | [] => None
  | a :: l' =>
      match k a with
      | Some r => Some r
      | None => first_some k l'
      end
  end.

(** Whether an expression has no capture group. *)
Fixpoint groupless (r : regex) : bool :=
  match r with
  | Eps | Chr _ | Star _ _ => true
  | Cat r1 r2 => groupless r1 && groupless r2
  | Group _ => false
  end.

End Regex.

(** ** Template compiler: [buildHTML] *)

Module Template.
Import Value Path Regex.

(** [/\{\{([^#\/].*?)\}\}/g] *)
Definition placeholderRegex : regex :=
  Cat (lit false "{{")
    (Cat (Group (Cat (Chr (none_of "#/")) (Star false dot)))
       (lit false "}}")).

(** A key the expression above captures whole when it stands between
    [{{] and [}}]: it does not start with [#] or [/], and after its first
    character has neither a line terminator nor a closing brace. *)
Definition key_char (c : ascii) : bool :=
  negb (Str.is_newline c) && negb (Ascii.eqb c "}").

Definition placeholder_key (k : string) : bool :=
  match k with
  | "" => false
  | String c k' => none_of "#/" c && Str.all key_char k'
  end.

(** [(match, key) => { const value = getValue(data, key.trim());
                      return value !== undefined ? value : match; }],
    the returned value converted to a string by [replace]. *)
Definition substitute (data : value) (m : found) : result string :=
  v <- getValue data (Str.trim (capture 1 m)) ;;
  match v with
  | VUndefined => Ok (matched m)
  | _ => Ok (to_string v)
  end.

(** Replace simple placeholders like [{{site.title}}]. *)
Definition scalar_pass (data : value) (html : string) : result string :=
  replace_all placeholderRegex (substitute data) html.

(** [/\{\{#each\s+([^}]+)\}\}([\s\S]*?)\{\{\/each\}\}/g] *)
Definition eachRegex : regex :=
  Cat (lit false "{{#each")
    (Cat (Plus true space)
       (Cat (Group (Plus true (none_of "}")))
          (Cat (lit false "}}")
             (Cat (Group (Star false any))
                (lit false "{{/each}}"))))).

(** [/\{\{this\.([^}]+)\}\}/g] *)
Definition thisPropRegex : regex :=
  Cat (lit false "{{this.")
    (Cat (Group (Plus true (none_of "}"))) (lit false "}}")).

(** [/\{\{this\}\}/g] *)
Definition thisRegex : regex := lit false "{{this}}".

(** The body of [array.map(item => ...)]. *)
Definition render_item (blockTemplate : string) (item : value) : result string :=
  itemBlock <-
    replace_all thisPropRegex
      (fun m =>
         v <- get_prop item (Str.trim (capture 1 m)) ;;
         Ok (if truthy v then to_string v else ""))
      blockTemplate ;;
  replace_all thisRegex
    (fun _ => Ok (match item with VString s => s | _ => "" end))
    itemBlock.

(** [array.map(...).join('')] *)
Fixpoint render_items (blockTemplate : string) (items : list value)
  : result string :=
  match items with
  | [] => Ok ""
  | item :: rest =>
      first <- render_item blockTemplate item ;;
      others <- render_items blockTemplate rest ;;
      Ok (first ++ others)
  end.

(** One turn of [while ((match = eachRegex.exec(html)) !== null) { ... }].
    The state of the loop is the document and the [lastIndex] of
    [eachRegex]; [Ok None] when [exec] returns [null]. *)
Definition each_step (data : value) (html : string) (lastIndex : nat)
  : result (option (string * nat)) :=
  match exec eachRegex html lastIndex with
  | None => Ok None
  | Some (index, m) =>
      let lastIndex' := index + String.length (matched m) in
      let arrayPath := Str.trim (capture 1 m) in
      let blockTemplate := capture 2 m in
      array <- getValue data arrayPath ;;
      match array with
      | VArray items =>
          rendered <- render_items blockTemplate items ;;
          Ok (Some (Str.replace_first html (matched m) rendered, lastIndex'))
      | _ => Ok (Some (html, lastIndex'))
      end
  end.

(** The loop; [None] when it has not come to its end within [fuel] turns. *)
Fixpoint each_loop (fuel : nat) (data : value) (html : string)
  (lastIndex : nat) : option (result string) :=
  match fuel with
  | O => None
  | S fuel' =>
      match each_step data html lastIndex with
      | Throw e => Some (Throw e)
      | Ok None => Some (Ok html)
      | Ok (Some (html', lastIndex')) => each_loop fuel' data html' lastIndex'
      end
  end.

Definition each_pass (fuel : nat) (data : value) (html : string)
  : option (result string) :=
  each_loop fuel data html 0.

Record section : Type := Section_
  { id : option string; class : option string; path : string }.

Definition sectionMap : list section :=
  [ Section_ (Some "home") (Some "hero") "hero";
    Section_ None (Some "experience-section") "experience";
    Section_ None (Some "testimonial-section") "testimonial";
    Section_ (Some "about") (Some "about-section") "about";
    Section_ (Some "services") (Some "services-section") "services";
    Section_ (Some "portfolio") (Some "portfolio-section") "portfolio";
    Section_ None (Some "standards-section") "standards";
    Section_ None (Some "location-section") "location";
    Section_ (Some "contact") (Some "contact-section") "contact" ].

(** [id="ID"[^>]*], for a section that has an id. *)
Definition idPattern (sec : section) : regex :=
  match id sec with
  | Some i =>
      Cat (lit true (Str.quoted "id='" ++ i ++ Str.quoted "'"))
        (Star true (none_of ">"))
  | None => Eps
  end.

(** [class="[^"]*CLASS[^"]*"[^>]*], for a section that has a class. *)
Definition classPattern (sec : section) : regex :=
  match class sec with
  | Some c =>
      Cat (lit true (Str.quoted "class='"))
        (Cat (Star true (none_of (Str.quoted "'")))
           (Cat (lit true c)
              (Cat (Star true (none_of (Str.quoted "'")))
                 (Cat (lit true (Str.quoted "'"))
                    (Star true (none_of ">"))))))
  | None => Eps
  end.

(** The expression built for a section, flag [i]: [<section[^>]*], then the
    id part, then the class part, then [>([\s\S]*?)</section>].  The ids and
    classes of [sectionMap] are non-empty runs of letters and hyphens, which
    stand for themselves in a pattern. *)
Definition sectionRegex (sec : section) : regex :=
  Cat (lit true "<section")
    (Cat (Star true (none_of ">"))
       (Cat (idPattern sec)
          (Cat (classPattern sec)
             (Cat (lit true ">")
                (Cat (Group (Star false any))
                   (lit true "</section>")))))).

(** The expression of a section in two parts: what reads the opening tag,
    and [([\s\S]*?)</section>]. *)
Definition openingRegex (sec : section) : regex :=
  Cat (lit true "<section")
    (Cat (Star true (none_of ">"))
       (Cat (idPattern sec)
          (Cat (classPattern sec)
             (lit true ">")))).

Definition closingRegex : regex :=
  Cat (Group (Star false any)) (lit true "</section>").

(** The opening tag of the element of a section, written with the id
    before the class: [a1], [a2] and [a3] are further attributes, [c1] and
    [c2] further classes. *)
Definition opening_tag (sec : section) (a1 a2 a3 c1 c2 : string) : string :=
  "<section" ++ a1
  ++ match id sec with
     | Some i => (Str.quoted "id='" ++ i ++ Str.quoted "'") ++ a2
     | None => ""
     end
  ++ match class sec with
     | Some c =>
         Str.quoted "class='" ++ c1 ++ c ++ c2 ++ Str.quoted "'" ++ a3
     | None => ""
     end
  ++ ">".

(** The console, to which [buildHTML] writes a line per section replaced;
    the check mark that opens each line is left out. *)
Definition console : Type := list string.

(** The body of [sectionMap.forEach(section => ...)]. *)
Definition apply_section (data : value) (st : string * console) (sec : section)
  : result (string * console) :=
  let (html, out) := st in
  customHtml <- getValue data (path sec ++ ".customHtml") ;;
  if truthy customHtml then
    match search (sectionRegex sec) html with
    | Some _ =>
        html' <-
          replace_one (sectionRegex sec)
            (fun m =>
               Ok (Str.replace_first (matched m) (capture 1 m)
                     (to_string customHtml)))
            html ;;
        let line := "Using custom HTML for " ++ path sec ++ " section" in
        Ok (html', (out ++ [line])%list)
    | None => Ok (html, out)
    end
  else Ok (html, out).

Fixpoint section_loop (data : value) (secs : list section)
  (st : string * console) : result (string * console) :=
  match secs with
  | [] => Ok st
  | sec :: rest =>
      st' <- apply_section data st sec ;;
      section_loop data rest st'
  end.

Definition section_pass (data : value) (st : string * console)
  : result (string * console) :=
  section_loop data sectionMap st.

(** [buildHTML(template, data)]: the document returned and the console
    after the call. *)
Definition buildHTML (fuel : nat) (template : string) (data : value)
  (out : console) : option (result (string * console)) :=
  html1 <~ Some (scalar_pass data template) ;;
  html2 <~ each_pass fuel data html1 ;;
  Some (section_pass data (html2, out)).

(** Whether the tree gives the section a custom HTML that counts as true. *)
Definition overrides (data : value) (sec : section) : bool :=
  match getValue data (path sec ++ ".customHtml") with
  | Ok v => truthy v
  | Throw _ => false
  end.

Definition about : section :=
  Section_ (Some "about") (Some "about-section") "about".

(** The opening tag of a section written plainly: the id, when there is
    one, then the class, and nothing else:
    [<section id="about" class="about-section">]. *)
Definition section_tag (sec : section) : string :=
  opening_tag sec " " " " "" "" "".

Definition about_tag : string := section_tag about.

(** The document of a finished call, or what it threw. *)
Definition document (r : result (string * console)) : result string :=
  match r with
  | Ok (html, _) => Ok html
  | Throw e => Throw e
  end.

End Template.

(** ** Publish pipeline: [POST /api/publish] *)

Module Publish.

Inductive file : Type :=
| PreviewJson        (* data-preview.json *)
| ProductionJson     (* data.json *)
| IndexHtml.         (* index.html *)

(** The files the route touches, the storage container, and the calls of
    [upload] made so far (blob names, oldest first). *)
Record world : Type := World
  { preview : option string;
    production : option string;
    index_html : option string;
    container : list (string * string);
    upload_calls : list string }.

(** What the collaborators do during one run: whether [data.json] can be
    written, whether the upload of a blob succeeds, and what [node build.js]
    does with the production data: the [index.html] it writes, or [None]
    when the process exits with an error. *)
Record env : Type := Env
  { write_ok : bool;
    upload_ok : string -> bool;
    build : string -> option string }.

Inductive response : Type :=
| Success (message : string)                    (* res.json({ success: true, ... }) *)
| Failure (status : nat) (details : string).    (* res.status(500).json(...) *)

(** Code with effects on the world that may throw; the effects made before
    a throw stay. *)
Definition M (A : Type) : Type := world -> result A * world.

Definition ret {A : Type} (a : A) : M A := fun w => (Ok a, w).

Definition throw {A : Type} (e : exn) : M A := fun w => (Throw e, w).

Definition bindM {A B : Type} (m : M A) (k : A -> M B) : M B :=
  fun w =>
    match m w with
    | (Ok a, w') => k a w'
    | (Throw e, w') => (Throw e, w')
    end.

Definition try_catch {A : Type} (m : M A) (handler : exn -> M A) : M A :=
  fun w =>
    match m w with
    | (Ok a, w') => (Ok a, w')
    | (Throw e, w') => handler e w'
    end.

Notation "x <<- m ;; k" := (bindM m (fun x => k))
  (at level 61, m at next level, right associativity).
Notation "m ;;; k" := (bindM m (fun _ => k))
  (at level 61, right associativity).

Definition message (e : exn) : string :=
  match e with
  | TypeError => "TypeError"
  | RangeError => "RangeError"
  | Error msg => msg
  end.

Definition readFileSync (f : file) : M string :=
  fun w =>
    match (match f with
           | PreviewJson => preview w
           | ProductionJson => production w
           | IndexHtml => index_html w
           end) with
    | Some s => (Ok s, w)
    | None => (Throw (Error "ENOENT: no such file or directory"), w)
    end.

Definition writeProduction (e : env) (s : string) : M unit :=
  fun w =>
    if write_ok e
    then (Ok tt, World (preview w) (Some s) (index_html w)
                   (container w) (upload_calls w))
    else (Throw (Error "EACCES: permission denied"), w).

(** [containerClient.getBlockBlobClient(name).upload(...)] with
    [overwrite: true]. *)
Definition upload (e : env) (name content : string) : M unit :=
  fun w =>
    let calls := (upload_calls w ++ [name])%list in
    if upload_ok e name
    then (Ok tt, World (preview w) (production w) (index_html w)
                   ((name, content) :: container w) calls)
    else (Throw (Error "upload failed"),
          World (preview w) (production w) (index_html w) (container w) calls).

(** [await execAsync(`node "${buildScriptPath}"`)]: the script reads
    data.json and writes index.html; a failing process rejects. *)
Definition runBuild (e : env) : M unit :=
  fun w =>
    match production w with
    | Some d =>
        match build e d with
        | Some html =>
            (Ok tt, World (preview w) (production w) (Some html)
                      (container w) (upload_calls w))
        | None => (Throw (Error "Command failed: node build.js"), w)
        end
    | None => (Throw (Error "Command failed: node build.js"), w)
    end.

(** The route handler.  Console output is left out. *)
Definition publish (e : env) : M response :=
  try_catch
    ((* Step 1: Copy data-preview.json to data.json *)
     dataString <<-
       try_catch
         (s <<- readFileSync PreviewJson ;;
          writeProduction e s ;;;
          ret s)
         (fun error =>
            throw (Error ("Failed to copy preview data to production: "
                          ++ message error))) ;;
     (* Step 2: Upload data.json; on failure, continue anyway *)
     try_catch (upload e "data.json" dataString) (fun _ => ret tt) ;;;
     (* Step 3: Run build.js *)
     runBuild e ;;;
     (* Step 4: Read the generated index.html *)
     htmlContent <<- readFileSync IndexHtml ;;
     (* Step 5: Upload index.html *)
     try_catch (upload e "index.html" htmlContent)
       (fun uploadError =>
          throw (Error ("Failed to upload index.html: "
                        ++ message uploadError))) ;;;
     ret (Success "Site published successfully"))
    (fun error => ret (Failure 500 (message error))).

End Publish.

(** ** Readings of a template, to state what the passes do *)

Module Page.
Import Value Path Regex Template.

Definition head_is (c : ascii) (s : string) : bool :=
  match s with
  | String d _ => Ascii.eqb d c
  | "" => false
  end.

(** No [{{] anywhere in the text. *)
Fixpoint no_open (s : string) : bool :=
  match s with
  | "" => true
  | String c s' => negb (Ascii.eqb c "{" && head_is "{" s') && no_open s'
  end.

(** Plain text: no [{{] in it and no [{] at its end, so that no [{{] comes
    about whatever follows it. *)
Definition plain (t : string) : bool := no_open (t ++ "{").

(** A template cut into plain texts, placeholders [{{key}}] and markers:
    the [{{#] and the [{{/] that open [{{#each ...}}] and [{{/each}}], which
    the placeholder expression does not read. *)
Inductive part : Type :=
| Text (t : string)
| Placeholder (key : string)
| Mark (c : ascii).

Definition part_source (p : part) : string :=
  match p with
  | Text t => t
  | Placeholder key => "{{" ++ key ++ "}}"
  | Mark c => "{{" ++ String c ""
  end.

Definition part_ok (p : part) : bool :=
  match p with
  | Text t => plain t
  | Placeholder key => placeholder_key key
  | Mark c => negb (none_of "#/" c)
  end.

(** What stands for a part in the compiled document: the text of the value
    its trimmed key resolves to, or the placeholder as written when the key
    resolves to [undefined]. *)
Definition fill (data : value) (p : part) : string :=
  match p with
  | Placeholder key =>
      match getValue data (Str.trim key) with
      | Ok VUndefined | Throw _ => part_source p
      | Ok v => to_string v
      end
  | _ => part_source p
  end.

(** Whether the value a placeholder resolves to is read and printed as in
    JavaScript: the path reads own properties, or names no inherited member
    has, and the value has the string the model prints. *)
Definition part_reads (data : value) (p : part) : bool :=
  match p with
  | Placeholder key =>
      own_path data (Str.trim key)
      && match getValue data (Str.trim key) with
         | Ok v => printable v
         | Throw _ => false
         end
  | _ => true
  end.

Definition flatten (l : list string) : string := String.concat "" l.

Definition source_of (parts : list part) : string :=
  flatten (map part_source parts).

(** The block of an iteration cut into plain texts, placeholders
    [{{this.name}}] and placeholders [{{this}}]. *)
Inductive block_part : Type :=
| BText (t : string)
| BField (name : string)
| BThis.

Definition block_part_source (p : block_part) : string :=
  match p with
  | BText t => t
  | BField name => "{{this." ++ name ++ "}}"
  | BThis => "{{this}}"
  end.

Definition block_source (parts : list block_part) : string :=
  flatten (map block_part_source parts).

(** What stands for a part of the block in the text rendered for [item]. *)
Definition fill_item (item : value) (p : block_part) : string :=
  match p with
  | BText t => t
  | BField name =>
      match get_prop item (Str.trim name) with
      | Ok v => if truthy v then to_string v else ""
      | Throw _ => ""
      end
  | BThis => match item with VString s => s | _ => "" end
  end.

(** What the first [replace] of the body leaves of a part. *)
Definition after_fields (item : value) (p : block_part) : string :=
  match p with
  | BThis => "{{this}}"
  | _ => fill_item item p
  end.

(** A name [[^}]+] captures whole. *)
Definition field_name (name : string) : bool :=
  negb (name =? "") && Str.all (none_of "}") name.

Definition block_part_ok (item : value) (p : block_part) : bool :=
  match p with
  | BText t => plain t
  | BField name => field_name name && plain (fill_item item p)
  | BThis => true
  end.

(** Whether the property a part of the block reads from [item] is read and
    printed as in JavaScript. *)
Definition block_part_reads (item : value) (p : block_part) : bool :=
  match p with
  | BField name =>
      own_read item (Str.trim name)
      && match get_prop item (Str.trim name) with
         | Ok v => printable v
         | Throw _ => false
         end
  | _ => true
  end.

Definition nullish (v : value) : bool :=
  match v with
  | VUndefined | VNull => true
  | _ => false
  end.

(** The text of an iteration block: [{{#each], white space, the path,
    [}}], the block, [{{/each}}]. *)
Definition each_block (ws arrayPath blockTemplate : string) : string :=
  "{{#each" ++ ws ++ arrayPath ++ "}}" ++ blockTemplate ++ "{{/each}}".

(** A path [\s+([^}]+)] captures whole after the white space [ws]. *)
Definition each_path (ws arrayPath : string) : bool :=
  negb (ws =? "") && Str.all space ws
  && match arrayPath with
     | String c _ => negb (space c) && Str.all (none_of "}") arrayPath
     | "" => false
     end.












(** [n] copies of a text, one after the other. *)
Fixpoint copies (n : nat) (t : string) : string :=
  match n with
  | O => ""
  | S n' => t ++ copies n' t
  end.

(** Every [class=] with its opening double quote in the text, whatever
    attribute it stands in, is followed by a later double quote. *)
Fixpoint attr_closed (s : string) : bool :=
  match s with
  | "" => true
  | String _ s' =>
      (if starts true (Str.quoted "class='") s
       then negb (Str.lacks Str.dquote (Str.drop 7 s))
       else true)
      && attr_closed s'
  end.

(** *** Documents of section elements *)

(** A section element of a document, with the text that stands before it:
    the section whose id and class the opening tag carries, the further
    attributes and classes of the tag, and the content, up to the closing
    tag. *)
Record element : Type := Element
  { before : string;
    owner : section;
    attrs1 : string;
    attrs2 : string;
    attrs3 : string;
    classes1 : string;
    classes2 : string;
    content : string }.

Definition element_tag (e : element) : string :=
  opening_tag (owner e) (attrs1 e) (attrs2 e) (attrs3 e) (classes1 e) (classes2 e).

Definition element_source (e : element) : string :=
  before e ++ element_tag e ++ content e ++ "</section>".

(** The document: the elements one after the other, then the rest of it. *)
Definition page (es : list element) (tail : string) : string :=
  flatten (map element_source es) ++ tail.

(** The custom HTML the tree gives a section, and its text. *)
Definition customHtml (data : value) (sec : section) : value :=
  match getValue data (path sec ++ ".customHtml") with
  | Ok v => v
  | Throw _ => VUndefined
  end.

Definition custom_text (data : value) (sec : section) : string :=
  to_string (customHtml data sec).

(** The element with the custom HTML of its section for content. *)
Definition override (data : value) (e : element) : element :=
  Element (before e) (owner e) (attrs1 e) (attrs2 e) (attrs3 e)
    (classes1 e) (classes2 e) (Str.expanded (custom_text data (owner e))).

(** The further attributes and classes of the tag have no [>], the classes
    no double quote, and every class attribute opened in the tag is closed
    in it. *)
Definition tag_ok (e : element) : bool :=
  Str.all (none_of ">")
    (attrs1 e ++ attrs2 e ++ attrs3 e ++ classes1 e ++ classes2 e)
  && Str.all (none_of (Str.quoted "'")) (classes1 e ++ classes2 e)
  && attr_closed (element_tag e).

(** An element the pass rewrites as meant: its section is overridden by the
    tree; the content has no closing tag, and is what the custom HTML stands
    for already or occurs in the element first as its content; the custom
    HTML has the text the model prints, names neither the match nor the
    text around it, and what it stands for has no closing tag. *)
Definition sound (data : value) (e : element) : Prop :=
  In (owner e) sectionMap
  /\ overrides data (owner e) = true
  /\ tag_ok e = true
  /\ clear_of true "</section>" (content e) "</section>" = true
  /\ (content e = Str.expanded (custom_text data (owner e))
      \/ Str.find (content e) (element_tag e ++ content e ++ "</section>")
         = Some (element_tag e, "</section>"))
  /\ printable (customHtml data (owner e)) = true
  /\ Str.static (custom_text data (owner e)) = true
  /\ clear_of true "</section>" (Str.expanded (custom_text data (owner e)))
       "</section>" = true.

(** A text no position of which lets the expression of the section read an
    opening tag, when [next] follows the text. *)
Definition quiet (sec : section) (t next : string) : Prop :=
  forall rest : string, unread (openingRegex sec) t (next ++ rest) = true.

(** The expression of the section reads no opening tag before the element
    of the section: not in the texts before the elements, not in the
    elements of the other sections, with the content they have or with
    their custom HTML; and nowhere in the document when the section has no
    element. *)
Fixpoint calm (data : value) (sec : section) (es : list element)
  (tail : string) : Prop :=
  match es with
  | [] => unread (openingRegex sec) tail "" = true
  | e :: rest =>
      quiet sec (before e) (element_tag e)
      /\ (if path (owner e) =? path sec then True
          else quiet sec (element_tag e) ""
               /\ quiet sec (content e) "</section>"
               /\ quiet sec (content (override data e)) "</section>"
               /\ calm data sec rest tail)
  end.

(** The element after the override of one section. *)
Definition touch (data : value) (sec : section) (e : element) : element :=
  if path (owner e) =? path sec then override data e else e.

(** A rewriting of elements that leaves each one as it is or gives it its
    custom HTML. *)
Definition mixing (data : value) (f : element -> element) : Prop :=
  forall e : element, f e = e \/ f e = override data e.

Definition owned (sec : section) (es : list element) : bool :=
  existsb (fun e => path (owner e) =? path sec) es.

(** The lines the pass writes to the console: one for each section that is
    overridden and has its element in the document, in the order of the
    section map. *)
Definition logged (data : value) (es : list element) : list string :=
  map (fun sec => "Using custom HTML for " ++ path sec ++ " section")
    (filter (fun sec => overrides data sec && owned sec es) sectionMap).

End Page.

(** ** Editor routes: data files, preview, and the build script *)

Module Editor.
Import Publish.

(** What the host does for the routes: [JSON.parse] ([None] for a text
    that is no JSON), [JSON.stringify(data, null, 2)], whether
    data-preview.json can be written, and whether the storage account
    answers a download.  The messages of the errors the host raises stand
    for texts that differ from host to host. *)
Record host : Type := Host
  { parse : string -> option value;
    stringify : value -> string;
    preview_writable : bool;
    download_ok : bool }.

(** The blob stored last under a name. *)
Fixpoint blob (name : string) (blobs : list (string * string)) : option string :=
  match blobs with
  | [] => None
  | (n, content) :: rest => if n =? name then Some content else blob name rest
  end.

Inductive reply : Type :=
| Json (data : value)                              (* res.json(data) *)
| Done (message : string)                          (* res.json({ success: true, message }) *)
| Page (html : string)                             (* res.send(html) *)
| Failed (status : nat) (error details : string).  (* res.status(500).json({ error, details }) *)

Definition parseJSON (h : host) (s : string) : M value :=
  fun w =>
    match parse h s with
    | Some v => (Ok v, w)
    | None => (Throw (Error "Unexpected token in JSON"), w)
    end.

Definition writePreview (h : host) (s : string) : M unit :=
  fun w =>
    if preview_writable h
    then (Ok tt, World (Some s) (production w) (index_html w)
                   (container w) (upload_calls w))
    else (Throw (Error "EACCES: permission denied"), w).

(** [containerClient.getBlobClient(name).download()] followed by
    [streamToString]. *)
Definition download (h : host) (name : string) : M string :=
  fun w =>
    if download_ok h then
      match blob name (container w) with
      | Some s => (Ok s, w)
      | None => (Throw (Error "The specified blob does not exist."), w)
      end
    else (Throw (Error "download failed"), w).

(** [GET /api/data/original] *)
Definition getOriginal (h : host) : M reply :=
  try_catch
    (data <<-
       try_catch
         (dataString <<- readFileSync ProductionJson ;;
          parseJSON h dataString)
         (fun _ =>
            dataString <<- download h "data.json" ;;
            parseJSON h dataString) ;;
     ret (Json data))
    (fun error =>
       ret (Failed 500 "Failed to fetch original data" (message error))).

(** The data a page is built from: data-preview.json, or, when that cannot
    be read or parsed, data.json, local or from storage, of which
    data-preview.json is then made a copy. *)
Definition loadPreview (h : host) : M value :=
  try_catch
    (dataString <<- readFileSync PreviewJson ;;
     parseJSON h dataString)
    (fun _ =>
       try_catch
         (dataString <<- readFileSync ProductionJson ;;
          data <<- parseJSON h dataString ;;
          writePreview h dataString ;;;
          ret data)
         (fun _ =>
            dataString <<- download h "data.json" ;;
            data <<- parseJSON h dataString ;;
            writePreview h dataString ;;;
            ret data)).

(** [GET /api/data] *)
Definition getData (h : host) : M reply :=
  try_catch
    (data <<- loadPreview h ;;
     ret (Json data))
    (fun error => ret (Failed 500 "Failed to fetch data" (message error))).

(** [PUT /api/data] *)
Definition putData (h : host) (body : value) : M reply :=
  try_catch
    (writePreview h (stringify h body) ;;;
     ret (Done "Data saved to data-preview.json"))
    (fun error =>
       ret (Failed 500 "Failed to save data-preview.json" (message error))).

(** [POST /api/data/reset] *)
Definition resetData (h : host) : M reply :=
  try_catch
    (dataString <<-
       try_catch (readFileSync ProductionJson)
         (fun _ => download h "data.json") ;;
     writePreview h dataString ;;;
     ret (Done "Preview reset to match production"))
    (fun error => ret (Failed 500 "Failed to reset preview" (message error))).

(** The requests of an editing session, served one after the other. *)
Inductive request : Type :=
| GetOriginal
| GetData
| PutData (body : value)
| ResetData.

Definition serve (h : host) (r : request) : M reply :=
  match r with
  | GetOriginal => getOriginal h
  | GetData => getData h
  | PutData body => putData h body
  | ResetData => resetData h
  end.

Fixpoint session (h : host) (requests : list request) (w : world)
  : list (result reply) * world :=
  match requests with
  | [] => ([], w)
  | r :: rest =>
      let (answer, w') := serve h r w in
      let (answers, w'') := session h rest w' in
      (answer :: answers, w'')
  end.

(** [s.split(c)] for a separator of one character. *)
Fixpoint split_on (c : ascii) (s : string) : list string :=
  match s with
  | "" => [""]
  | String d s' =>
      if Ascii.eqb d c then "" :: split_on c s'
      else match split_on c s' with
           | h :: t => String d h :: t
           | [] => [String d ""]
           end
  end.

(** The script that scrolls the previewed page to the fragment of the
    request. *)
Definition scrollScript (hash : string) : string :=
  "
        <script>
          (function() {
            // Scroll to hash on page load
            window.addEventListener('load', () => {
              const hash = '" ++ hash ++ "';
              const section = document.getElementById(hash) || document.querySelector('.' + hash + '-section');
              if (section) {
                // Scroll immediately without animation
                section.scrollIntoView({ behavior: 'auto', block: 'start' });
              }
            });
            
            // Also try immediately if DOM is already loaded
            if (document.readyState === 'complete') {
              const hash = '" ++ hash ++ "';
              const section = document.getElementById(hash) || document.querySelector('.' + hash + '-section');
              if (section) {
                section.scrollIntoView({ behavior: 'auto', block: 'start' });
              }
            }
          })();
        </script>
      ".

(** [html.replace(marker, script + marker)] *)
Definition inject (script marker html : string) : string :=
  Str.replace_first html marker (script ++ marker).

(** [GET /api/preview].  The text of the edit-mode script the route adds to
    every page, some hundreds of lines for the browser, is the parameter
    [editScript].  [None]: the loop of the compiler has not ended within the
    fuel. *)
Definition getPreview (h : host) (fuel : nat) (template : option string)
  (editScript url : string) (w : world) : option (reply * world) :=
  match loadPreview h w with
  | (Throw error, w') =>
      Some (Failed 500 "Failed to generate preview" (message error), w')
  | (Ok data, w') =>
      match template with
      | None =>
          Some (Failed 500 "Failed to generate preview"
                  "ENOENT: no such file or directory", w')
      | Some t =>
          match Template.buildHTML fuel t data [] with
          | None => None
          | Some (Throw error) =>
              Some (Failed 500 "Failed to generate preview" (message error), w')
          | Some (Ok (html, _)) =>
              let html1 :=
                match nth_error (split_on "#" url) 1 with
                | Some hash =>
                    if hash =? "" then html
                    else inject (scrollScript hash) "</head>" html
                | None => html
                end in
              Some (Page (inject editScript "</body>" html1), w')
          end
      end
  end.

(** A replacement string in which every [$] stands for itself: none is
    followed by [$], [&], a backquote or an apostrophe. *)
Fixpoint no_pattern (s : string) : bool :=
  match s with
  | "" => true
  | String c s' =>
      negb (Ascii.eqb c "$"
            && match s' with
               | String d _ =>
                   Ascii.eqb d "$" || Ascii.eqb d "&" || Ascii.eqb d "`"
                   || Ascii.eqb d "'"
               | "" => false
               end)
      && no_pattern s'
  end.

(** What [node build.js] does with the text of data.json: the text it
    writes to index.html.  [None]: the loop of the compiler has not ended
    within the fuel. *)
Definition build_js (h : host) (fuel : nat) (template : option string)
  (dataString : string) : option (result string) :=
  match parse h dataString with
  | None => Some (Throw (Error "Unexpected token in JSON"))
  | Some data =>
      match template with
      | None => Some (Throw (Error "ENOENT: no such file or directory"))
      | Some t =>
          r <~ Template.buildHTML fuel t data [] ;;
          Some (Ok (fst r))
      end
  end.

(** The build step of the publish route when the process run is build.js:
    the process fails when the script throws.  A run that has not ended
    within the fuel is no answer of the process; it is given as a failure
    here and the properties stated take fuel enough. *)
Definition node_build (h : host) (fuel : nat) (template : option string)
  : string -> option string :=
  fun dataString =>
    match build_js h fuel template dataString with
    | Some (Ok html) => Some html
    | Some (Throw _) | None => None
    end.

End Editor.

(** ** Photo routes *)

Module Photos.
Import Value.

(** [toLowerCase] on a code unit below 256: the letters A to Z and the
    Latin-1 capitals, the multiplication sign between them left out. *)
Definition lower (c : ascii) : ascii :=
  let n := nat_of_ascii c in
  if ((65 <=? n)%nat && (n <=? 90)%nat)
     || ((192 <=? n)%nat && (n <=? 222)%nat && negb (n =? 215)%nat)
  then ascii_of_nat (n + 32) else c.

Fixpoint toLowerCase (s : string) : string :=
  match s with
  | "" => ""
  | String c s' => String (lower c) (toLowerCase s')
  end.

(** [s.includes(c)] for a text of one character. *)
Fixpoint includes (c : ascii) (s : string) : bool :=
  match s with
  | "" => false
  | String d s' => Ascii.eqb d c || includes c s'
  end.

Fixpoint ends_with (suffix s : string) : bool :=
  (s =? suffix)
  || match s with
     | String _ s' => ends_with suffix s'
     | "" => false
     end.

Definition contentTypes : list (string * string) :=
  [ ("jpg", "image/jpeg");
    ("jpeg", "image/jpeg");
    ("png", "image/png");
    ("gif", "image/gif");
    ("webp", "image/webp");
    ("svg", "image/svg+xml") ].

Fixpoint assoc (k : string) (table : list (string * string)) : option string :=
  match table with
  | [] => None
  | (k', v) :: rest => if k' =? k then Some v else assoc k rest
  end.

(** [filename.toLowerCase().split('.').pop()] *)
Definition extension (filename : string) : string :=
  last (Str.split_dot (toLowerCase filename)) "".

(** [contentTypes[ext] || 'application/octet-stream'].  [None]: the
    extension names a member every object inherits ([constructor],
    [__proto__]; the other inherited names have capitals), and what is read
    is no string. *)
Definition contentType (filename : string) : option string :=
  let ext := extension filename in
  if (ext =? "constructor") || (ext =? "__proto__") then None
  else match assoc ext contentTypes with
       | Some t => Some t
       | None => Some "application/octet-stream"
       end.

(** [name.match(/\.(jpg|jpeg|png|gif|webp|svg)$/)] on the lower-case name
    of a blob: the test by which [GET /api/photos] keeps a blob. *)
Definition isImage (blobName : string) : bool :=
  existsb (fun ext => ends_with ("." ++ ext) (toLowerCase blobName))
    ["jpg"; "jpeg"; "png"; "gif"; "webp"; "svg"].

(** A content type that is one of the table. *)
Definition imageType (t : option string) : bool :=
  match t with
  | Some t => negb (t =? "application/octet-stream")
  | None => false
  end.

Record photo : Type := Photo { photo_type : string; bytes : string }.

(** The photos container: the blobs uploaded, newest first. *)
Definition store : Type := list (string * photo).

Fixpoint stored (name : string) (s : store) : option photo :=
  match s with
  | [] => None
  | (n, p) :: rest => if n =? name then Some p else stored name rest
  end.

(** What the host does: [Buffer.from(text, 'base64')], and whether the
    upload succeeds. *)
Record host : Type := Host
  { decode : string -> string;
    upload_ok : bool }.

Inductive reply : Type :=
| Uploaded (name : string)              (* res.json({ success: true, ..., name }) *)
| Rejected (status : nat) (error : string)            (* res.status(400).json({ error }) *)
| Failed (status : nat) (error details : string).     (* res.status(500).json({ error, details }) *)

(** Remove data URL prefix if present:
    [file.includes(',') ? file.split(',')[1] : file] *)
Definition base64Data (file : string) : string :=
  if includes "," file then nth 1 (Editor.split_on "," file) "" else file.

(** [POST /api/photos/upload] with the fields [file] and [filename] of the
    body.  [None]: a field that counts as true is no string, or the content
    type is none; the model does not cover these. *)
Definition upload (h : host) (file filename : value) (s : store)
  : option (reply * store) :=
  if negb (truthy file) || negb (truthy filename)
  then Some (Rejected 400 "File data and filename required", s)
  else
    match file, filename with
    | VString f, VString name =>
        match contentType name with
        | None => None
        | Some t =>
            if upload_ok h
            then Some (Uploaded name,
                       (name, Photo t (decode h (base64Data f))) :: s)
            else Some (Failed 500 "Failed to upload photo" "upload failed", s)
        end
    | _, _ => None
    end.

End Photos.

(** ** Google Places: the reviews route and the Place ID script *)

Module Places.
Import Value.

(** [v === 'text'] *)
Definition is_text (text : string) (v : value) : bool :=
  match v with
  | VString s => s =? text
  | _ => false
  end.

(** [v || 'text'], as a text. *)
Definition text_or (v : value) (text : string) : string :=
  if truthy v then to_string v else text.

(** What [fetch] comes to: a rejection, or a response with its [ok] flag,
    its status and what [response.json()] gives. *)
Inductive fetched : Type :=
| Rejected (e : exn)
| Responded (ok : bool) (status : nat) (body : result value).

Inductive reply : Type :=
| Reviews (reviews status : value)               (* res.json({ reviews, status }) *)
| Failed (status : nat) (error details : string). (* res.status(500).json({ error, details }) *)

Definition message (e : exn) : string := Publish.message e.

(** [data.result?.reviews || []] *)
Definition reviews_of (data : value) : result value :=
  result <- get_prop data "result" ;;
  reviews <- match result with
             | VUndefined | VNull => Ok VUndefined
             | _ => get_prop result "reviews"
             end ;;
  Ok (if truthy reviews then reviews else VArray []).

(** The body of the route between [fetch] and the answer; what it throws
    the handler turns into a failure. *)
Definition read_reviews (response : fetched) : result reply :=
  match response with
  | Rejected e => Throw e
  | Responded ok status body =>
      if negb ok then
        Throw (Error ("Google Places API returned "
                      ++ number_text (Z.of_nat status)))
      else
        data <- body ;;
        status <- get_prop data "status" ;;
        if negb (is_text "OK" status) && negb (is_text "ZERO_RESULTS" status)
        then
          error_message <- get_prop data "error_message" ;;
          Throw (Error ("Google Places API error: " ++ to_string status
                        ++ " - " ++ text_or error_message "Unknown error"))
        else
          reviews <- reviews_of data ;;
          Ok (Reviews reviews status)
  end.

(** [GET /api/google-reviews], with the two variables of the environment
    ([None] for one that is not set) and [fetch] as a function of the URL. *)
Definition googleReviews (apiKey placeId : option string)
  (fetch : string -> fetched) : reply :=
  match apiKey, placeId with
  | Some key, Some place =>
      if (key =? "") || (place =? "") then
        Failed 500 "Google Places API not configured"
          "Please set GOOGLE_PLACES_API_KEY and GOOGLE_PLACE_ID in .env file"
      else
        let url :=
          "https://maps.googleapis.com/maps/api/place/details/json?place_id="
          ++ place ++ "&fields=reviews&key=" ++ key in
        match read_reviews (fetch url) with
        | Ok answer => answer
        | Throw e => Failed 500 "Failed to fetch Google Reviews" (message e)
        end
  | _, _ =>
      Failed 500 "Google Places API not configured"
        "Please set GOOGLE_PLACES_API_KEY and GOOGLE_PLACE_ID in .env file"
  end.

(** [website.replace(/^https?:\/\//, '').replace(/^www\./, '')] *)
Definition stripScheme (website : string) : string :=
  match Str.strip_prefix "https://" website with
  | Some rest => rest
  | None =>
      match Str.strip_prefix "http://" website with
      | Some rest => rest
      | None => website
      end
  end.

Definition stripWww (website : string) : string :=
  match Str.strip_prefix "www." website with
  | Some rest => rest
  | None => website
  end.

Definition searchQuery (website : string) : string :=
  stripWww (stripScheme website).

Definition normalizedWebsite (website : string) : string :=
  Photos.toLowerCase (searchQuery website).

(** [s.includes(p)] *)
Definition contains (p s : string) : bool :=
  match Str.find p s with
  | Some _ => true
  | None => false
  end.

(** The test of [data.results.find(place => ...)]. *)
Definition placeMatches (normalized : string) (place : value) : result bool :=
  website <- get_prop place "website" ;;
  if negb (truthy website) then Ok false
  else
    match website with
    | VString s =>
        let placeWebsite := normalizedWebsite s in
        Ok ((placeWebsite =? normalized) || contains normalized placeWebsite)
    | _ => Throw TypeError       (* place.website.replace is not a function *)
    end.

(** [Array.prototype.find] with a test that may throw. *)
Fixpoint findFirst (test : value -> result bool) (items : list value)
  : result (option value) :=
  match items with
  | [] => Ok None
  | item :: rest =>
      b <- test item ;;
      if b then Ok (Some item) else findFirst test rest
  end.

(** [v > 0] for the values whose conversion to a number the model has.
    [None] otherwise. *)
Definition positive (v : value) : option bool :=
  match v with
  | VUndefined | VNull => Some false
  | VBool b => Some b
  | VNumber n => Some (0 <? n)%Z
  | VString _ | VArray _ | VObject _ => None
  end.

Inductive outcome : Type :=
| PlaceFound (placeId name address rating userRatingsTotal website : value)
| PlaceError (error : string)
| RequestFailed (e : exn).       (* { error: `Request failed: ${error.message}` } *)

(** [data.error_message || 'Unknown error'] and the two last [return]s. *)
Definition noPlace (website : string) (data status : value) : result outcome :=
  if is_text "ZERO_RESULTS" status
  then Ok (PlaceError ("No results found for website: " ++ website))
  else
    error_message <- get_prop data "error_message" ;;
    Ok (PlaceError ("API error: " ++ to_string status ++ " - "
                    ++ text_or error_message "Unknown error")).

(** The block of [try] in [findPlaceIdByWebsite], [data] being what
    [response.json()] gave.  [None]: a comparison the model does not
    cover. *)
Definition searchPlaces (website : string) (data : value)
  : option (result outcome) :=
  status <~ Some (get_prop data "status") ;;
  if is_text "OK" status then
    results <~ Some (get_prop data "results") ;;
    if truthy results then
      len <~ Some (get_prop results "length") ;;
      match positive len with
      | None => None
      | Some false => Some (noPlace website data status)
      | Some true =>
          match results with
          | VArray places =>
              found <~ Some (findFirst (placeMatches (normalizedWebsite website))
                               places) ;;
              let place :=
                match found with
                | Some place => place
                | None => nth 0 places VUndefined
                end in
              if truthy place then
                placeId <~ Some (get_prop place "place_id") ;;
                name <~ Some (get_prop place "name") ;;
                address <~ Some (get_prop place "formatted_address") ;;
                rating <~ Some (get_prop place "rating") ;;
                total <~ Some (get_prop place "user_ratings_total") ;;
                site <~ Some (get_prop place "website") ;;
                Some (Ok (PlaceFound placeId name address rating total
                            (if truthy site then site
                             else VString "Not provided")))
              else Some (noPlace website data status)
          | _ => Some (Throw TypeError)   (* data.results.find is not a function *)
          end
      end
    else Some (noPlace website data status)
  else Some (noPlace website data status).

(** [findPlaceIdByWebsite(apiKey, website)], given what [fetch] and
    [response.json()] come to. *)
Definition findPlaceIdByWebsite (website : string) (response : result value)
  : option outcome :=
  match response with
  | Throw e => Some (RequestFailed e)
  | Ok data =>
      match searchPlaces website data with
      | Some (Ok answer) => Some answer
      | Some (Throw e) => Some (RequestFailed e)
      | None => None
      end
  end.

(** The place [findPlaceIdByWebsite] settles on among places that are
    mappings: the first whose website, a string, holds the website looked
    for, both normalized; the first of all when there is none. *)
Definition holds_website (normalized : string) (place : value) : bool :=
  match place with
  | VObject fields =>
      match lookup "website" fields with
      | Some (VString s) =>
          negb (s =? "") && contains normalized (normalizedWebsite s)
      | _ => false
      end
  | _ => false
  end.

Definition chosen (website : string) (places : list value) : value :=
  match List.find (holds_website (normalizedWebsite website)) places with
  | Some place => place
  | None => nth 0 places VUndefined
  end.

(** A property of a value that is neither [null] nor [undefined]. *)
Definition field (v : value) (k : string) : value :=
  match get_prop v k with
  | Ok x => x
  | Throw _ => VUndefined
  end.

(** A place as the API gives it: a mapping whose website, when it has one,
    is a string or counts as false. *)
Definition place_ok (place : value) : bool :=
  match place with
  | VObject fields =>
      match lookup "website" fields with
      | Some (VString _) | None => true
      | Some v => negb (truthy v)
      end
  | _ => false
  end.

End Places.

(* ================================================================== *)
(** * Part II. Properties *)
(* ================================================================== *)

Unset Implicit Arguments.

(** ** Strings *)

Section StringFacts.

Lemma append_nil_r (s : string) : s ++ "" = s.
Proof. induction s as [|c s IH]; simpl; [reflexivity | now rewrite IH]. Qed.

Lemma append_assoc (s t u : string) : (s ++ t) ++ u = s ++ t ++ u.
Proof. induction s as [|c s IH]; simpl; [reflexivity | now rewrite IH]. Qed.

Lemma length_append (s t : string) :
  String.length (s ++ t) = String.length s + String.length t.
Proof. induction s as [|c s IH]; simpl; [reflexivity | now rewrite IH]. Qed.

Lemma take_append (t s : string) :
  Str.take (String.length (t ++ s) - String.length s) (t ++ s) = t.
Proof.
  rewrite length_append.
  replace (String.length t + String.length s - String.length s)
    with (String.length t) by lia.
  induction t as [|c t IH]; simpl.
  - destruct s; reflexivity.
  - now rewrite IH.
Qed.

Lemma drop_append (t s : string) : Str.drop (String.length t) (t ++ s) = s.
Proof. induction t as [|c t IH]; simpl; [destruct s; reflexivity | exact IH]. Qed.


Lemma all_append (p : ascii -> bool) (s t : string) :
  Str.all p (s ++ t) = Str.all p s && Str.all p t.
Proof.
  induction s as [|c s IH]; simpl; [reflexivity|].
  now rewrite IH, andb_assoc.
Qed.

Lemma split_dot_segment (a rest : string) :
  Str.dot_free a = true ->
  Str.split_dot (a ++ String "." rest) = a :: Str.split_dot rest.
Proof.
  induction a as [|c a IH]; simpl; intros H.
  - reflexivity.
  - apply andb_prop in H as [Hc Ha].
    apply negb_true_iff in Hc. rewrite Hc.
    now rewrite (IH Ha).
Qed.

Lemma split_dot_nonempty (s : string) : Str.split_dot s <> [].
Proof.
  induction s as [|c s IH]; simpl; [discriminate|].
  destruct (Ascii.eqb c "."); [discriminate|].
  destruct (Str.split_dot s); discriminate.
Qed.

(** Splitting a path at one of its dots splits its list of segments. *)
Lemma split_dot_append (p rest : string) :
  Str.split_dot (p ++ String "." rest)
  = (Str.split_dot p ++ Str.split_dot rest)%list.
Proof.
  induction p as [|c p IH]; simpl; [reflexivity|].
  destruct (Ascii.eqb c "."); [now rewrite IH|].
  rewrite IH. pose proof (split_dot_nonempty p) as Hne.
  destruct (Str.split_dot p); [congruence | reflexivity].
Qed.

Lemma split_dot_last (a : string) :
  Str.dot_free a = true -> Str.split_dot a = [a].
Proof.
  induction a as [|c a IH]; simpl; intros H.
  - reflexivity.
  - apply andb_prop in H as [Hc Ha].
    apply negb_true_iff in Hc. rewrite Hc.
    now rewrite (IH Ha).
Qed.

End StringFacts.

(** ** Array indices *)

Section IndexFacts.
Import Value.

Lemma string_of_uint_digits (d : Decimal.uint) :
  Str.all Str.is_digit (NilEmpty.string_of_uint d) = true.
Proof. induction d; simpl; auto. Qed.

Lemma digits_dot_free (s : string) :
  Str.all Str.is_digit s = true -> Str.dot_free s = true.
Proof.
  unfold Str.dot_free.
  induction s as [|c s IH]; simpl; intros H; [reflexivity|].
  apply andb_prop in H as [Hc Hs]. rewrite (IH Hs), andb_true_r.
  destruct (Ascii.eqb_spec c "."); [subst c; discriminate Hc | reflexivity].
Qed.

Lemma index_text_dot_free (i : nat) : Str.dot_free (index_text i) = true.
Proof. apply digits_dot_free, string_of_uint_digits. Qed.

Lemma array_index_text (i : nat) : array_index (index_text i) = Some (N.of_nat i).
Proof.
  unfold array_index, index_text.
  rewrite NilEmpty.usu, DecimalN.Unsigned.of_to.
  now rewrite String.eqb_refl.
Qed.

Lemma get_prop_index (items : list value) (i : nat) (e : value) :
  nth_error items i = Some e ->
  get_prop (VArray items) (index_text i) = Ok e.
Proof.
  intros H. simpl. rewrite array_index_text.
  assert (Hlt : i < List.length items) by (apply nth_error_Some; congruence).
  assert (E : (N.of_nat i <? N.of_nat (List.length items))%N = true)
    by (apply N.ltb_lt; lia).
  rewrite E, Nat2N.id.
  f_equal. now apply nth_error_nth.
Qed.

End IndexFacts.

(** ** The matcher *)

Section RegexFacts.
Import Regex.

Section Stars.
Variable R : Type.
Variable p : ascii -> bool.
Variable k : string -> option R.



Lemma star_lazy_complete (t s' : string) :
  Str.all p t = true -> k s' <> None -> star_lazy p (t ++ s') k <> None.
Proof.
  induction t as [|c t IH]; simpl; intros Ht Hk.
  - destruct s'; simpl; destruct (k _); congruence.
  - apply andb_prop in Ht as [Pc Ht]. rewrite Pc.
    destruct (k (String c (t ++ s'))); [discriminate | auto].
Qed.

Lemma star_greedy_complete (t s' : string) :
  Str.all p t = true -> k s' <> None -> star_greedy p (t ++ s') k <> None.
Proof.
  induction t as [|c t IH]; simpl; intros Ht Hk.
  - destruct s' as [|c s']; simpl; [exact Hk|].
    destruct (p c); [|exact Hk].
    destruct (star_greedy p s' k); [discriminate | exact Hk].
  - apply andb_prop in Ht as [Pc Ht]. rewrite Pc.
    specialize (IH Ht Hk).
    destruct (star_greedy p (t ++ s') k); [discriminate | congruence].
Qed.
End Stars.


(** A split of the input whose first part is in the language, and after
    which the continuation succeeds, makes the matcher succeed. *)
Lemma run_complete (R : Type) (r : regex) (t : string) (caps caps' : list string) :
  matches r t caps caps' ->
  forall (s' : string) (k : string -> list string -> option R),
    k s' caps' <> None -> run r (t ++ s') caps k <> None.
Proof.
  induction 1 as [caps|p c caps Pc|r1 r2 t1 t2 c0 c1 c2 M1 IH1 M2 IH2
                 |g p t caps Ht|r t c0 c1 M IH]; intros s' k Hk; simpl.
  - exact Hk.
  - now rewrite Pc.
  - rewrite append_assoc. apply IH1. now apply IH2.
  - destruct g; [now apply star_greedy_complete | now apply star_lazy_complete].
  - apply IH. now rewrite take_append.
Qed.







End RegexFacts.

(** ** Path resolver *)

Section PathFacts.
Import Value Path.

Lemma fold_step_throw (keys : list string) (e : exn) :
  fold_left step keys (Throw e) = Throw e.
Proof. induction keys as [|k keys IH]; simpl; [reflexivity | exact IH]. Qed.

Lemma fold_step_falsy (keys : list string) (v : value) :
  truthy v = false -> fold_left step keys (Ok v) = Ok v.
Proof.
  intros H. induction keys as [|k keys IH]; simpl; [reflexivity|].
  now rewrite H.
Qed.

(** A property is only read from a value that counts as true, and neither
    [null] nor [undefined] does. *)
Lemma get_prop_truthy (v : value) (k : string) :
  truthy v = true -> exists x, get_prop v k = Ok x.
Proof.
  destruct v; simpl; try discriminate; intros _.
  - eauto.
  - eauto.
  - destruct (array_index k) as [i|].
    + destruct (i <? _)%N; eauto.
    + destruct (k =? "length"); eauto.
  - destruct (array_index k) as [i|].
    + destruct (i <? _)%N; eauto.
    + destruct (k =? "length"); eauto.
  - destruct (lookup k fields); eauto.
Qed.

Lemma fold_step_ok (keys : list string) (v : value) :
  exists x, fold_left step keys (Ok v) = Ok x.
Proof.
  revert v. induction keys as [|k keys IH]; intros v; simpl; [eauto|].
  destruct (truthy v) eqn:T.
  - destruct (get_prop_truthy v k T) as [x ->]. apply IH.
  - apply IH.
Qed.

Lemma getValue_never_throws (obj : value) (path : string) :
  exists x, getValue obj path = Ok x.
Proof. apply fold_step_ok. Qed.

Lemma getValue_segment (obj v : value) (a rest : string) :
  Str.dot_free a = true -> truthy obj = true -> get_prop obj a = Ok v ->
  getValue obj (a ++ String "." rest) = getValue v rest.
Proof.
  intros Ha T G. unfold getValue.
  rewrite (split_dot_segment _ rest Ha). simpl. now rewrite T, G.
Qed.

Lemma getValue_last (obj : value) (a : string) :
  Str.dot_free a = true -> truthy obj = true ->
  getValue obj a = get_prop obj a.
Proof.
  intros Ha T. unfold getValue. rewrite (split_dot_last _ Ha). simpl.
  now rewrite T.
Qed.

Lemma getValue_falsy (obj : value) (path : string) :
  truthy obj = false -> getValue obj path = Ok obj.
Proof. apply fold_step_falsy. Qed.

(** What holds a property that is a sequence or a mapping is itself
    a sequence or a mapping. *)
Lemma get_prop_container (v x : value) (k : string) :
  get_prop v k = Ok x -> truthy x = true -> truthy_scalar x = false ->
  truthy v = true.
Proof.
  destruct v; simpl; try discriminate; try reflexivity.
  - intros [= <-]; discriminate.
  - intros [= <-]; discriminate.
  - unfold char_at.
    destruct (array_index k) as [i|];
      [destruct (i <? _)%N; [destruct (String.get _ _)|] | destruct (k =? "length")];
      intros [= <-]; simpl; congruence.
Qed.

Lemma own_walk_falsy (keys : list string) (v : value) :
  truthy v = false -> own_walk v keys = true.
Proof. intros H. destruct keys; cbn [own_walk]; [reflexivity | now rewrite H]. Qed.

(** The reads of a walk are those of its first part and then, from where
    that part ends, those of its second part. *)
Lemma own_walk_app (keys2 : list string) :
  forall (keys1 : list string) (obj v : value),
    fold_left step keys1 (Ok obj) = Ok v ->
    own_walk obj keys1 = true ->
    own_walk obj (keys1 ++ keys2) = own_walk v keys2.
Proof.
  induction keys1 as [|k keys1 IH]; intros obj v H W.
  - now injection H as ->.
  - cbn [fold_left step bind] in H. cbn [app own_walk] in *.
    destruct (truthy obj) eqn:T.
    + apply andb_prop in W as [Wr W]. rewrite Wr. cbn [andb].
      destruct (get_prop obj k) as [child|e].
      * now apply IH.
      * now rewrite fold_step_throw in H.
    + rewrite (fold_step_falsy keys1 obj T) in H. injection H as <-.
      symmetry. now apply own_walk_falsy.
Qed.

End PathFacts.

Section SetFacts.
Import Value Path.

Lemma update_update (k : string) (x y : value) :
  forall fields, update k y (update k x fields) = update k y fields.
Proof.
  induction fields as [|[k' z] fields IH]; simpl.
  - now rewrite String.eqb_refl.
  - destruct (k' =? k) eqn:E; simpl; rewrite E; [reflexivity | now rewrite IH].
Qed.

(** The name [__proto__] is one of the inherited ones. *)
Lemma not_inherited_proto (k : string) :
  inherited k = false -> (k =? "__proto__") = false.
Proof.
  intros H. destruct (String.eqb_spec k "__proto__") as [->|]; [|reflexivity].
  vm_compute in H. discriminate.
Qed.

Lemma read_own (v x : value) (k : string) :
  read v k = Some (Ok x) -> get_prop v k = Ok x /\ own_read v k = true.
Proof.
  unfold read. destruct (own_read v k); [|discriminate].
  intros [= H]. auto.
Qed.

(** What a scalar that counts as true holds under a name that is not
    inherited is again such a scalar, or counts as false. *)
Lemma read_of_scalar (v : value) (k : string) :
  truthy_scalar v = true -> inherited k = false ->
  exists child, read v k = Some (Ok child)
                /\ (truthy child = true -> truthy_scalar child = true).
Proof.
  unfold read. intros T I.
  destruct v; simpl in T; try discriminate; cbn [own_read get_prop]; rewrite ?I.
  - eexists; split; [reflexivity | discriminate].
  - eexists; split; [reflexivity | discriminate].
  - unfold char_at.
    destruct (array_index k) as [i|];
      [destruct (i <? _)%N; [destruct (String.get _ _)|]
      | rewrite orb_true_r; destruct (k =? "length")];
      eexists; (split; [reflexivity | simpl; auto]).
Qed.

Lemma set_prop_scalar (v : value) (k : string) (x : value) :
  truthy_scalar v = true -> inherited k = false ->
  set_prop v k x = Some (Throw TypeError).
Proof.
  intros T I. apply not_inherited_proto in I.
  destruct v; simpl in *; try discriminate; now rewrite I.
Qed.

(** A walk that reaches a scalar counting as true ends in a [TypeError],
    however long the rest of the path. *)
Lemma set_path_scalar (lastKey : string) (x : value) :
  inherited lastKey = false ->
  forall keys : list string,
    forallb (fun k => negb (inherited k)) keys = true ->
    forall v, truthy_scalar v = true ->
              set_path keys lastKey x v = Some (Throw TypeError).
Proof.
  intros Il. induction keys as [|key keys IH]; intros Hk v T; cbn [set_path].
  - now apply set_prop_scalar.
  - cbn [forallb] in Hk. apply andb_prop in Hk as [Ik Hk].
    apply negb_true_iff in Ik.
    destruct (read_of_scalar v key T Ik) as [child [-> Hc]]. cbn [bind_opt].
    destruct (truthy child) eqn:Tc.
    + now rewrite (IH Hk child (Hc eq_refl)).
    + now rewrite (set_prop_scalar v key _ T Ik).
Qed.

(** Below a new mapping the walk creates a chain of mappings. *)
Lemma set_path_fresh (lastKey : string) (x : value) :
  inherited lastKey = false ->
  forall keys : list string,
    forallb (fun k => negb (inherited k)) keys = true ->
    set_path keys lastKey x (VObject []) = Some (Ok (nest keys lastKey x)).
Proof.
  intros Il. induction keys as [|key keys IH]; intros Hk; cbn [set_path nest].
  - cbn. now rewrite (not_inherited_proto _ Il).
  - cbn [forallb] in Hk. apply andb_prop in Hk as [Ik Hk].
    apply negb_true_iff in Ik.
    unfold read. cbn [own_read lookup get_prop]. rewrite Ik. cbn [negb bind_opt truthy].
    cbn [set_prop lookup]. rewrite (not_inherited_proto _ Ik). cbn [bind_opt].
    rewrite (IH Hk). cbn [bind_opt put update].
    now rewrite String.eqb_refl.
Qed.

Lemma setValue_segment (obj : value) (a rest : string) (x : value) :
  Str.dot_free a = true ->
  setValue obj (a ++ String "." rest) x
  = set_path (a :: removelast (Str.split_dot rest))
      (last (Str.split_dot rest) "") x obj.
Proof.
  intros Ha. unfold setValue. rewrite (split_dot_segment _ rest Ha).
  pose proof (split_dot_nonempty rest) as Hne.
  destruct (Str.split_dot rest) as [|k ks]; [congruence | reflexivity].
Qed.

Lemma truthy_scalar_truthy (v : value) :
  truthy_scalar v = true -> truthy v = true.
Proof. destruct v; simpl; congruence. Qed.

(** A walk that [getValue] ends on a scalar counting as true is a walk on
    which [setValue] throws, however the path goes on. *)
Lemma set_path_walk (keys2 : list string) (lastKey : string) (x s : value) :
  truthy_scalar s = true ->
  inherited lastKey = false ->
  forallb (fun k => negb (inherited k)) keys2 = true ->
  forall (keys1 : list string) (v : value),
    fold_left step keys1 (Ok v) = Ok s ->
    own_walk v keys1 = true ->
    set_path (keys1 ++ keys2) lastKey x v = Some (Throw TypeError).
Proof.
  intros Ts Il H2. pose proof (truthy_scalar_truthy s Ts) as Tt.
  induction keys1 as [|k keys1 IH]; intros v H W.
  - injection H as ->. now apply set_path_scalar.
  - cbn [fold_left step bind] in H. cbn [app set_path]. cbn [own_walk] in W.
    destruct (truthy v) eqn:Tv.
    + apply andb_prop in W as [Wr W]. unfold read. rewrite Wr.
      destruct (get_prop_truthy v k Tv) as [child G]. rewrite G in *.
      cbn [bind_opt]. destruct (truthy child) eqn:Tc.
      * now rewrite (IH child H W).
      * rewrite (fold_step_falsy keys1 child Tc) in H. congruence.
    + rewrite (fold_step_falsy keys1 v Tv) in H. congruence.
Qed.

Lemma setValue_append (obj : value) (p rest : string) (x : value) :
  setValue obj (p ++ String "." rest) x
  = set_path (Str.split_dot p ++ removelast (Str.split_dot rest))
      (last (Str.split_dot rest) "") x obj.
Proof.
  unfold setValue. rewrite split_dot_append.
  pose proof (split_dot_nonempty rest) as Hne.
  rewrite (removelast_app _ Hne). f_equal.
  induction (Str.split_dot p) as [|k ks IH]; [reflexivity|].
  cbn [app]. destruct (ks ++ Str.split_dot rest)%list eqn:E; [|exact IH].
  apply app_eq_nil in E. tauto.
Qed.

(** The segments of a path none of which is the name of an inherited
    member: all but the last, and the last. *)
Lemma not_inherited_split (keys : list string) :
  keys <> [] ->
  forallb (fun k => negb (inherited k)) keys = true ->
  forallb (fun k => negb (inherited k)) (removelast keys) = true
  /\ inherited (last keys "") = false.
Proof.
  intros Hne H. rewrite (app_removelast_last "" Hne), forallb_app in H.
  apply andb_prop in H as [H1 H2]. cbn [forallb] in H2.
  rewrite andb_true_r in H2. split; [exact H1 | now apply negb_true_iff].
Qed.

End SetFacts.

(** ** Claims about the path resolver *)

Section PathClaims.
Import Value Path.

(** C4, as stated, fails: [getValue] splits the path at dots only, so the
    segment [items[2]] is looked up as a key of that very name.  On a tree
    whose [services.items] has three records, the bracketed path resolves
    to [undefined], not to the title of the third record. *)
Lemma getValue_bracket_path_undefined :
  let items := [VObject [("title", VString "A")];
                VObject [("title", VString "B")];
                VObject [("title", VString "C")]] in
  let tree := VObject [("services", VObject [("items", VArray items)])] in
  getValue tree "services.items[2].title" = Ok VUndefined
  /\ get_prop (nth 2 items VUndefined) "title" = Ok (VString "C").
Proof. split; reflexivity. Qed.

(** C4, amended: [getValue] resolves dotted paths only.  For every tree
    whose node at [a.b] is a sequence (as [services.items] is), and every
    index [i] within it, the path [a.b.<i>.f] returns the property [f] of
    element [i] (the element itself when it counts as false): so does
    [services.items.2.title].  The bracketed path [a.b[<i>].f] looks up the
    key [b[<i>]] and returns [undefined] unless the node at [a] has a
    property of that name. *)
Theorem getValue_dotted_index :
  forall (tree node : value) (a b f : string) (items : list value)
         (i : nat) (e : value),
    Str.dot_free a = true ->
    Str.dot_free b = true ->
    Str.dot_free f = true ->
    get_prop tree a = Ok node ->
    get_prop node b = Ok (VArray items) ->
    nth_error items i = Some e ->
    getValue tree (a ++ "." ++ b ++ "." ++ index_text i ++ "." ++ f)
      = (if truthy e then get_prop e f else Ok e)
    /\ (get_prop node (b ++ "[" ++ index_text i ++ "]") = Ok VUndefined ->
        getValue tree (a ++ "." ++ (b ++ "[" ++ index_text i ++ "]") ++ "." ++ f)
          = Ok VUndefined).
Proof.
  intros tree node a b f items i e Ha Hb Hf Hn Hi He.
  assert (Tn : truthy node = true)
    by (eapply get_prop_container; [exact Hi | reflexivity | reflexivity]).
  assert (Tt : truthy tree = true).
  { eapply get_prop_container; [exact Hn | exact Tn |].
    destruct node; simpl in *; try discriminate; try reflexivity.
    revert Hi. unfold char_at.
    destruct (array_index b) as [j|];
      [destruct (j <? _)%N; [destruct (String.get _ _)|] | destruct (b =? "length")];
      discriminate. }
  change (a ++ "." ++ ?r) with (a ++ String "." r).
  split.
  - rewrite (getValue_segment tree node a _ Ha Tt Hn).
    change (b ++ "." ++ ?r) with (b ++ String "." r).
    rewrite (getValue_segment node (VArray items) b _ Hb Tn Hi).
    change (index_text i ++ "." ++ f) with (index_text i ++ String "." f).
    rewrite (getValue_segment (VArray items) e (index_text i) _
               (index_text_dot_free i) eq_refl (get_prop_index items i e He)).
    destruct (truthy e) eqn:Te.
    + now apply getValue_last.
    + now apply getValue_falsy.
  - intros Hu.
    rewrite (getValue_segment tree node a _ Ha Tt Hn).
    change ((b ++ "[" ++ index_text i ++ "]") ++ "." ++ f)
      with ((b ++ "[" ++ index_text i ++ "]") ++ String "." f).
    rewrite (getValue_segment node VUndefined _ f); auto.
    + now apply getValue_falsy.
    + unfold Str.dot_free in *. rewrite !all_append. rewrite Hb. simpl.
      rewrite andb_true_r. apply index_text_dot_free.
Qed.

Lemma getValue_dotted_index_witness :
  let items := [VObject [("title", VString "A")];
                VObject [("title", VString "B")];
                VObject [("title", VString "C")]] in
  let tree := VObject [("services", VObject [("items", VArray items)])] in
  getValue tree "services.items.2.title" = Ok (VString "C").
Proof.
  intros items tree.
  exact (proj1 (getValue_dotted_index tree (VObject [("items", VArray items)])
                  "services" "items" "title" items 2
                  (VObject [("title", VString "C")])
                  eq_refl eq_refl eq_refl eq_refl eq_refl eq_refl)).
Defined.

(** C3, as stated, fails: a segment holding a scalar that counts as false
    is overwritten with a new mapping and the write goes through; no error
    is raised. *)
Lemma setValue_deepens_falsy_leaf :
  setValue (VObject [("a", VNumber 0)]) "a.b" (VString "x")
  = Some (Ok (VObject [("a", VObject [("b", VString "x")])])).
Proof. reflexivity. Qed.

(** C3, amended: [setValue] creates the mappings a path lacks and writes
    through the mappings it has.  On a mapping, for segments that are no
    names of inherited members:
    - a path of one segment sets that key, the other keys staying;
    - a first segment that holds a value counting as true is gone into: the
      mapping holds under it, afterwards, what the write of the rest of the
      path makes of that value, and fails as that write fails;
    - a first segment that is missing, or holds a value that counts as false
      ([null], [false], [0], the empty string), is given a new chain of
      mappings that ends in the value written;
    - a path through a segment, at any depth, that holds a scalar counting
      as true makes the call throw a [TypeError]. *)
Theorem setValue_intermediate_segment :
  (forall (fields : list (string * value)) (k : string) (x : value),
      Str.dot_free k = true ->
      inherited k = false ->
      setValue (VObject fields) k x = Some (Ok (VObject (update k x fields))))
  /\ (forall (fields : list (string * value)) (a rest : string)
             (x child : value),
         Str.dot_free a = true ->
         lookup a fields = Some child ->
         truthy child = true ->
         setValue (VObject fields) (a ++ String "." rest) x
         = (child' <~ setValue child rest x ;;
            Some (Ok (VObject (update a child' fields)))))
  /\ (forall (fields : list (string * value)) (a rest : string) (x s : value),
         Str.dot_free a = true ->
         read (VObject fields) a = Some (Ok s) ->
         truthy s = false ->
         forallb (fun k => negb (inherited k)) (Str.split_dot rest) = true ->
         let keys := Str.split_dot rest in
         setValue (VObject fields) (a ++ String "." rest) x
         = Some (Ok (VObject (update a (nest (removelast keys) (last keys "") x)
                                fields))))
  /\ (forall (tree : value) (p rest : string) (x s : value),
         getValue tree p = Ok s ->
         own_path tree p = true ->
         truthy_scalar s = true ->
         forallb (fun k => negb (inherited k)) (Str.split_dot rest) = true ->
         setValue tree (p ++ String "." rest) x = Some (Throw TypeError)).
Proof.
  split; [|split; [|split]].
  - intros fields k x Hk I. unfold setValue.
    rewrite (split_dot_last _ Hk). cbn [removelast last set_path set_prop].
    rewrite (not_inherited_proto _ I). now destruct (lookup k fields).
  - intros fields a rest x child Ha L T.
    rewrite (setValue_segment _ a rest x Ha). cbn [set_path].
    unfold read. cbn [own_read get_prop]. rewrite L. cbn [bind_opt]. rewrite T.
    unfold setValue. cbn [put].
    now destruct (set_path _ _ x child) as [[child'|e]|].
  - intros fields a rest x s Ha Hs T Hr keys. subst keys.
    destruct (not_inherited_split _ (split_dot_nonempty rest) Hr) as [H1 H2].
    rewrite (setValue_segment _ a rest x Ha).
    cbn [set_path]. rewrite Hs. cbn [bind_opt]. rewrite T.
    assert (E : set_prop (VObject fields) a (VObject [])
                = Some (Ok (VObject (update a (VObject []) fields)))).
    { apply read_own in Hs as [_ O]. cbn [own_read set_prop] in *.
      destruct (lookup a fields); [reflexivity|].
      apply negb_true_iff in O. now rewrite (not_inherited_proto _ O). }
    rewrite E. cbn [bind_opt]. rewrite (set_path_fresh _ x H2 _ H1).
    cbn [bind_opt put]. now rewrite update_update.
  - intros tree p rest x s G W T Hr.
    destruct (not_inherited_split _ (split_dot_nonempty rest) Hr) as [H1 H2].
    rewrite setValue_append. now apply (set_path_walk _ _ _ s T H2 H1).
Qed.

Lemma setValue_intermediate_segment_witness :
  (setValue (VObject [("a", VObject [("b", VString "leaf")])]) "a.b.c.d" (VString "x")
   = Some (Throw TypeError)
   /\ setValue (VObject [("a", VNull)]) "a.b.c" (VString "x")
      = Some (Ok (VObject [("a", VObject [("b", VObject [("c", VString "x")])])])))
  /\ (setValue (VObject [("site", VObject [("title", VString "Old");
                                            ("logo", VString "L")]);
                         ("hero", VNull)])
        "site.title" (VString "New")
      = (child' <~ setValue (VObject [("title", VString "Old"); ("logo", VString "L")])
                     "title" (VString "New") ;;
         Some (Ok (VObject (update "site" child'
                              [("site", VObject [("title", VString "Old");
                                                 ("logo", VString "L")]);
                               ("hero", VNull)]))))
      /\ setValue (VObject [("title", VString "Old"); ("logo", VString "L")])
           "title" (VString "New")
         = Some (Ok (VObject (update "title" (VString "New")
                                [("title", VString "Old"); ("logo", VString "L")])))).
Proof.
  destruct setValue_intermediate_segment as (S1 & S2 & S3 & S4).
  split; split.
  - exact (S4 (VObject [("a", VObject [("b", VString "leaf")])]) "a.b" "c.d"
             (VString "x") (VString "leaf") eq_refl eq_refl eq_refl eq_refl).
  - exact (S3 [("a", VNull)] "a" "b.c" (VString "x") VNull
             eq_refl eq_refl eq_refl eq_refl).
  - exact (S2 [("site", VObject [("title", VString "Old"); ("logo", VString "L")]);
               ("hero", VNull)] "site" "title" (VString "New")
             (VObject [("title", VString "Old"); ("logo", VString "L")])
             eq_refl eq_refl eq_refl).
  - exact (S1 [("title", VString "Old"); ("logo", VString "L")] "title"
             (VString "New") eq_refl eq_refl).
Defined.

End PathClaims.

(** ** Template compiler: iteration blocks *)

Section EachFacts.
Import Value Path Regex Template.



End EachFacts.


(** ** Template compiler: scalar substitution *)

Section ScalarFacts.
Import Value Path Regex Template.

Lemma chr_eq_refl (ci : bool) (a : ascii) : chr_eq ci a a = true.
Proof. unfold chr_eq. destruct ci; apply Ascii.eqb_refl. Qed.

(** A literal reads itself off the input. *)
Lemma run_lit_exact (R : Type) (ci : bool) (l : string) :
  forall (s : string) (caps : list string)
         (k : string -> list string -> option R),
    run (lit ci l) (l ++ s) caps k = k s caps.
Proof.
  induction l as [|a l IH]; intros s caps k; simpl; [reflexivity|].
  rewrite chr_eq_refl. apply IH.
Qed.

Lemma run_lit_mismatch (R : Type) (ci : bool) (a c : ascii) (l s : string)
  (caps : list string) (k : string -> list string -> option R) :
  chr_eq ci a c = false ->
  run (lit ci (String a l)) (String c s) caps k = None.
Proof. intros H. cbn [lit run]. now rewrite H. Qed.

(** A lazy repetition runs over the characters at which its continuation
    fails. *)
Lemma star_lazy_first (R : Type) (p : ascii -> bool)
  (k : string -> option R) (s' : string) :
  forall t : string,
    Str.all p t = true ->
    (forall t1 c t2, t = t1 ++ String c t2 -> k (String c t2 ++ s') = None) ->
    star_lazy p (t ++ s') k = star_lazy p s' k.
Proof.
  induction t as [|c t IH]; intros Ht Hk; [reflexivity|].
  simpl in Ht. apply andb_prop in Ht as [Pc Ht].
  pose proof (Hk "" c t eq_refl) as H0. simpl in H0.
  simpl. rewrite H0, Pc.
  apply IH; [exact Ht|].
  intros t1 c' t2 E. apply (Hk (String c t1) c' t2). simpl. now rewrite E.
Qed.

Lemma key_chars_dot (k : string) :
  Str.all key_char k = true -> Str.all dot k = true.
Proof.
  induction k as [|d k IH]; [reflexivity|].
  simpl. intros H. apply andb_prop in H as [Hd Hk].
  rewrite (IH Hk), andb_true_r.
  unfold key_char in Hd. now apply andb_prop in Hd as [Hd _].
Qed.

(** The placeholder expression on [{{key}}]: the whole of it is matched
    and the key captured. *)
Lemma match_at_placeholder (k post : string) :
  placeholder_key k = true ->
  match_at placeholderRegex ("{{" ++ k ++ "}}" ++ post)
  = Some (Found ("{{" ++ k ++ "}}") [k] post).
Proof.
  destruct k as [|c k]; [discriminate|]. simpl placeholder_key.
  intros H. apply andb_prop in H as [Hc Hk].
  unfold match_at, placeholderRegex.
  cbn [run]. rewrite run_lit_exact.
  assert (E : "{{" ++ String c k ++ "}}" ++ post
              = ("{{" ++ String c k ++ "}}") ++ post)
    by (now rewrite !append_assoc).
  rewrite E. clear E.
  set (whole := ("{{" ++ String c k ++ "}}") ++ post).
  set (inner := String c k ++ "}}" ++ post).
  assert (Ei : inner = String c (k ++ "}}" ++ post)) by reflexivity.
  rewrite Ei at 1. rewrite Hc.
  rewrite star_lazy_first.
  - change ("}}" ++ post) with (String "}" (String "}" post)) at 1.
    cbn [star_lazy].
    change (String "}" (String "}" post)) with ("}}" ++ post).
    rewrite run_lit_exact.
    subst inner whole. rewrite !take_append. reflexivity.
  - now apply key_chars_dot.
  - intros t1 d t2 Et.
    assert (Hd : key_char d = true).
    { rewrite Et, all_append in Hk. apply andb_prop in Hk as [_ Hk].
      simpl in Hk. now apply andb_prop in Hk as [Hd _]. }
    unfold key_char in Hd. apply andb_prop in Hd as [_ Hd].
    apply negb_true_iff in Hd.
    apply run_lit_mismatch. unfold chr_eq. now rewrite Ascii.eqb_sym.
Qed.

Lemma pieces_skip (r : regex) (t s : string) :
  pieces r (String.length t) (t ++ s) = pieces r 0 s.
Proof. induction t as [|c t IH]; [reflexivity | exact IH]. Qed.

Lemma pieces_hit (r : regex) (c : ascii) (t s : string) (caps : list string) :
  match_at r (String c t ++ s) = Some (Found (String c t) caps s) ->
  pieces r 0 (String c t ++ s)
  = Hit (Found (String c t) caps s) :: pieces r 0 s.
Proof.
  intros H. change (String c t ++ s) with (String c (t ++ s)) in *.
  cbn [pieces]. rewrite H. cbn [matched]. now rewrite pieces_skip.
Qed.

(** The pass on a placeholder followed by more text. *)
Lemma scalar_pass_placeholder (data : value) (k post : string) :
  placeholder_key k = true ->
  scalar_pass data ("{{" ++ k ++ "}}" ++ post)
  = (text <- substitute data (Found ("{{" ++ k ++ "}}") [k] post) ;;
     out <- scalar_pass data post ;;
     Ok (text ++ out)).
Proof.
  intros Hk. unfold scalar_pass, replace_all.
  pose proof (match_at_placeholder k post Hk) as M.
  assert (E : "{{" ++ k ++ "}}" ++ post = ("{{" ++ k ++ "}}") ++ post)
    by (now rewrite !append_assoc).
  rewrite E in *.
  change ("{{" ++ k ++ "}}") with (String "{" (String "{" (k ++ "}}"))) in *.
  rewrite (pieces_hit _ _ _ _ _ M). reflexivity.
Qed.

End ScalarFacts.

Section ScalarClaims.
Import Value Path Regex Template.

Lemma scalar_pass_empty (data : value) : scalar_pass data "" = Ok "".
Proof. reflexivity. Qed.

Lemma falsy_scalar_not_truthy (s : value) :
  falsy_scalar s = true -> truthy s = false.
Proof.
  destruct s as [| |b|n|t|items|fields]; simpl; intros H;
    try discriminate; try reflexivity.
  - destruct b; [discriminate | reflexivity].
  - now rewrite H.
  - now rewrite H.
Qed.

(** C10: [getValue] hands on the first value that counts as false.  When
    the segment [a] of a tree holds [null], [false], [0] or the empty
    string, the path [a.b] resolves to that value, not to [undefined], and
    the scalar substitution replaces [{{a.b}}] with its string form. *)
Theorem getValue_propagates_falsy :
  forall (tree : value) (a b : string) (s : value),
    Str.dot_free a = true ->
    truthy tree = true ->
    get_prop tree a = Ok s ->
    falsy_scalar s = true ->
    getValue tree (a ++ String "." b) = Ok s
    /\ (placeholder_key (a ++ String "." b) = true ->
        Str.trim (a ++ String "." b) = a ++ String "." b ->
        scalar_pass tree ("{{" ++ (a ++ String "." b) ++ "}}")
        = Ok (to_string s)).
Proof.
  intros tree a b s Ha Tt Hs Fs.
  assert (G : getValue tree (a ++ String "." b) = Ok s).
  { rewrite (getValue_segment tree s a b Ha Tt Hs).
    apply getValue_falsy. now apply falsy_scalar_not_truthy. }
  split; [exact G|].
  intros Hk Htrim.
  rewrite <- (append_nil_r "}}").
  rewrite (scalar_pass_placeholder tree _ "" Hk).
  unfold substitute. cbn [capture captures Nat.sub nth].
  rewrite Htrim, G. cbn [bind].
  rewrite scalar_pass_empty.
  destruct s; simpl in Fs; try discriminate;
    cbn [bind]; now rewrite append_nil_r.
Qed.

Lemma getValue_propagates_falsy_witness :
  getValue (VObject [("a", VNumber 0)]) "a.b" = Ok (VNumber 0)
  /\ scalar_pass (VObject [("a", VNumber 0)]) "{{a.b}}" = Ok "0".
Proof.
  destruct (getValue_propagates_falsy (VObject [("a", VNumber 0)]) "a" "b"
              (VNumber 0) eq_refl eq_refl eq_refl eq_refl) as [G P].
  split; [exact G | exact (P eq_refl eq_refl)].
Defined.

End ScalarClaims.

(** ** Publish pipeline *)

Section PublishClaims.
Import Publish.

Ltac run_publish :=
  unfold publish, try_catch, bindM, readFileSync, writeProduction, upload,
    runBuild, ret, throw;
  cbn.

(** The handler of the route catches whatever is thrown: a run always ends
    in a response. *)
Lemma publish_responds (e : env) (w : world) :
  exists r, fst (publish e w) = Ok r.
Proof.
  run_publish.
  destruct (preview w) as [d|]; cbn; [|eauto].
  destruct (write_ok e); cbn; [|eauto].
  destruct (upload_ok e "data.json"); cbn;
    (destruct (build e d) as [html|]; cbn; [|eauto]);
    (destruct (upload_ok e "index.html"); cbn; eauto).
Qed.

(** C2, as stated, fails: the data snapshot is uploaded in step 2, before
    the build of step 3 is run.  In a run whose build fails the call of
    [upload] for [data.json] has been made and the blob stored. *)
Lemma publish_uploads_data_before_build :
  let e := Env true (fun _ => true) (fun _ => None) in
  let w := World (Some "{}") (Some "old") None [] [] in
  fst (publish e w) = Ok (Failure 500 "Command failed: node build.js")
  /\ upload_calls (snd (publish e w)) = ["data.json"]
  /\ container (snd (publish e w)) = [("data.json", "{}")].
Proof. repeat split. Qed.

(** C2, amended: in every run in which the build step throws, the route
    answers with a failure, [upload] is never called for [index.html] (the
    one call made is the earlier one for [data.json]), [index.html] on disk
    is not touched, and the production snapshot holds the value promoted
    from the preview snapshot. *)
Theorem publish_build_failure :
  forall (e : env) (w : world) (d : string),
    preview w = Some d ->
    write_ok e = true ->
    build e d = None ->
    (exists details, fst (publish e w) = Ok (Failure 500 details))
    /\ upload_calls (snd (publish e w)) = (upload_calls w ++ ["data.json"])%list
    /\ container (snd (publish e w))
       = (if upload_ok e "data.json"
          then ("data.json", d) :: container w else container w)
    /\ index_html (snd (publish e w)) = index_html w
    /\ production (snd (publish e w)) = Some d
    /\ preview (snd (publish e w)) = Some d.
Proof.
  intros e w d Hp Hw Hb. run_publish. rewrite Hp. cbn. rewrite Hw. cbn.
  destruct (upload_ok e "data.json"); cbn; rewrite Hb; cbn; repeat split;
    eauto.
Qed.

Lemma publish_build_failure_witness :
  upload_calls
    (snd (publish (Env true (fun _ => false) (fun _ => None))
            (World (Some "{}") (Some "old") (Some "<html>") [] [])))
  = ["data.json"]
  /\ production
       (snd (publish (Env true (fun _ => false) (fun _ => None))
               (World (Some "{}") (Some "old") (Some "<html>") [] [])))
     = Some "{}".
Proof.
  pose proof (publish_build_failure
                (Env true (fun _ => false) (fun _ => None))
                (World (Some "{}") (Some "old") (Some "<html>") [] [])
                "{}" eq_refl eq_refl eq_refl) as H.
  split; [exact (proj1 (proj2 H)) | exact (proj1 (proj2 (proj2 (proj2 (proj2 H)))))].
Defined.

(** C9, as stated, fails: the failure of the [data.json] upload is caught
    and the run goes on; with the build and the [index.html] upload going
    well the route reports success. *)
Lemma publish_success_despite_failed_upload :
  let e := Env true (fun name => negb (name =? "data.json"))
             (fun _ => Some "<html></html>") in
  let w := World (Some "{}") (Some "old") None [] [] in
  upload_ok e "data.json" = false
  /\ fst (publish e w) = Ok (Success "Site published successfully")
  /\ upload_calls (snd (publish e w)) = ["data.json"; "index.html"]
  /\ container (snd (publish e w)) = [("index.html", "<html></html>")].
Proof. repeat split. Qed.

(** C9, amended: in every run in which the upload of [index.html] fails
    after the document was promoted and compiled, the route reports a
    failure and the production snapshot keeps the promoted value.  A failed
    upload of [data.json] does not count: the route reports success exactly
    when the promotion, the build and the upload of [index.html] go well. *)
Theorem publish_upload_failure :
  forall (e : env) (w : world),
    (forall d html : string,
        preview w = Some d ->
        write_ok e = true ->
        build e d = Some html ->
        upload_ok e "index.html" = false ->
        (exists details, fst (publish e w) = Ok (Failure 500 details))
        /\ production (snd (publish e w)) = Some d)
    /\ ((exists msg, fst (publish e w) = Ok (Success msg))
        <-> (exists d html : string,
                preview w = Some d
                /\ write_ok e = true
                /\ build e d = Some html
                /\ upload_ok e "index.html" = true)).
Proof.
  intros e w. split.
  - intros d html Hp Hw Hb Hu. run_publish. rewrite Hp. cbn. rewrite Hw. cbn.
    destruct (upload_ok e "data.json"); cbn; rewrite Hb; cbn; rewrite Hu;
      cbn; split; eauto.
  - split.
    + intros [msg H]. revert H. run_publish.
      destruct (preview w) as [d|]; cbn; [|discriminate].
      destruct (write_ok e) eqn:Hw; cbn; [|discriminate].
      destruct (upload_ok e "data.json"); cbn;
        (destruct (build e d) as [html|] eqn:Hb; cbn; [|discriminate]);
        (destruct (upload_ok e "index.html") eqn:Hu; cbn; [|discriminate]);
        intros _; exists d, html; auto.
    + intros (d & html & Hp & Hw & Hb & Hu).
      exists "Site published successfully".
      run_publish. rewrite Hp. cbn. rewrite Hw. cbn.
      destruct (upload_ok e "data.json"); cbn; rewrite Hb; cbn; rewrite Hu;
        reflexivity.
Qed.

Lemma publish_upload_failure_witness :
  (exists details,
      fst (publish (Env true (fun name => name =? "data.json")
                      (fun _ => Some "<html></html>"))
             (World (Some "{}") (Some "old") None [] []))
      = Ok (Failure 500 details))
  /\ production
       (snd (publish (Env true (fun name => name =? "data.json")
                        (fun _ => Some "<html></html>"))
               (World (Some "{}") (Some "old") None [] [])))
     = Some "{}".
Proof.
  exact (proj1 (publish_upload_failure
                  (Env true (fun name => name =? "data.json")
                     (fun _ => Some "<html></html>"))
                  (World (Some "{}") (Some "old") None [] []))
           "{}" "<html></html>" eq_refl eq_refl eq_refl eq_refl).
Defined.

End PublishClaims.

(** ** Template compiler: the fuel of the loop and the console *)

Section FuelFacts.
Import Value Path Regex Template.

(** More fuel does not change the result of a loop that has come to its
    end. *)
Lemma each_loop_more_fuel (data : value) :
  forall (fuel : nat) (html : string) (lastIndex : nat) (r : result string),
    each_loop fuel data html lastIndex = Some r ->
    forall fuel', fuel <= fuel' ->
                  each_loop fuel' data html lastIndex = Some r.
Proof.
  induction fuel as [|fuel IH]; intros html lastIndex r H fuel' Hle;
    [discriminate|].
  destruct fuel' as [|fuel']; [lia|].
  cbn [each_loop] in *.
  destruct (each_step data html lastIndex) as [[[html' i']|]|e];
    [|exact H|exact H].
  apply (IH _ _ _ H). lia.
Qed.

Lemma each_loop_deterministic (data : value) (html : string) (lastIndex : nat)
  (fuel1 fuel2 : nat) (r1 r2 : result string) :
  each_loop fuel1 data html lastIndex = Some r1 ->
  each_loop fuel2 data html lastIndex = Some r2 ->
  r1 = r2.
Proof.
  intros H1 H2.
  pose proof (each_loop_more_fuel _ _ _ _ _ H1 (Nat.max fuel1 fuel2)
                (Nat.le_max_l _ _)) as H1'.
  pose proof (each_loop_more_fuel _ _ _ _ _ H2 (Nat.max fuel1 fuel2)
                (Nat.le_max_r _ _)) as H2'.
  congruence.
Qed.

(** The console is only written to: what a section does to the document
    does not depend on what the console holds. *)
Lemma apply_section_console (data : value) (html : string) (out : console)
  (sec : section) :
  apply_section data (html, out) sec
  = match apply_section data (html, []) sec with
    | Ok (html', lines) => Ok (html', (out ++ lines)%list)
    | Throw e => Throw e
    end.
Proof.
  unfold apply_section.
  destruct (getValue data (path sec ++ ".customHtml")) as [v|e]; cbn [bind];
    [|reflexivity].
  destruct (truthy v); [|now rewrite app_nil_r].
  destruct (search (sectionRegex sec) html); [|now rewrite app_nil_r].
  destruct (replace_one _ _ html); reflexivity.
Qed.

Lemma section_loop_console (data : value) (secs : list section) :
  forall (html : string) (out1 out2 : console),
    document (section_loop data secs (html, out1))
    = document (section_loop data secs (html, out2)).
Proof.
  induction secs as [|sec secs IH]; intros html out1 out2; [reflexivity|].
  cbn [section_loop].
  rewrite (apply_section_console data html out1),
          (apply_section_console data html out2).
  destruct (apply_section data (html, []) sec) as [[html' lines]|e];
    cbn [bind]; [apply IH | reflexivity].
Qed.

(** Two calls of [buildHTML] on the same template and tree that come to
    their end give the same document, or throw the same exception, whatever
    the fuel the loop is given and whatever the console holds when they
    start. *)
Lemma buildHTML_deterministic :
  forall (template : string) (data : value) (fuel1 fuel2 : nat)
         (out1 out2 : console) (r1 r2 : result (string * console)),
    buildHTML fuel1 template data out1 = Some r1 ->
    buildHTML fuel2 template data out2 = Some r2 ->
    document r1 = document r2.
Proof.
  intros template data fuel1 fuel2 out1 out2 r1 r2.
  unfold buildHTML, each_pass.
  destruct (scalar_pass data template) as [html1|e]; cbn [bind_opt].
  - destruct (each_loop fuel1 data html1 0) as [res1|] eqn:E1;
      [|discriminate].
    destruct (each_loop fuel2 data html1 0) as [res2|] eqn:E2;
      [|destruct res1; discriminate].
    rewrite (each_loop_deterministic _ _ _ _ _ _ _ E1 E2).
    destruct res2 as [html2|e]; cbn [bind_opt].
    + intros [= <-] [= <-]. apply section_loop_console.
    + intros [= <-] [= <-]. reflexivity.
  - intros [= <-] [= <-]. reflexivity.
Qed.

End FuelFacts.

(** ** Template compiler: section overrides *)

Section SectionMatching.
Import Value Path Regex Template.

Lemma matches_lit (ci : bool) (l : string) (caps : list string) :
  matches (lit ci l) l caps caps.
Proof.
  induction l as [|a l IH]; simpl; [constructor|].
  change (String a l) with (String a "" ++ l).
  econstructor; [constructor; apply chr_eq_refl | exact IH].
Qed.

Lemma matches_cat (r1 r2 : regex) (t t1 t2 : string)
  (caps caps' caps'' : list string) :
  matches r1 t1 caps caps' -> matches r2 t2 caps' caps'' ->
  t = t1 ++ t2 -> matches (Cat r1 r2) t caps caps''.
Proof. intros M1 M2 ->. econstructor; eassumption. Qed.

Lemma all_any (s : string) : Str.all any s = true.
Proof. induction s; simpl; auto. Qed.

Ltac lit_step :=
  eapply matches_cat;
  [apply matches_lit | | rewrite ?append_assoc; reflexivity].

Ltac star_step H :=
  eapply matches_cat; cycle 2;
  [reflexivity | apply M_Star; exact H | ].

Ltac eps_step :=
  eapply matches_cat; cycle 2; [reflexivity | apply M_Eps | ].

Ltac id_steps H :=
  eapply matches_cat;
  [ eapply matches_cat;
    [apply matches_lit | apply M_Star; exact H | reflexivity]
  | | rewrite ?append_assoc; reflexivity ].

Ltac class_steps H3 H4 H5 :=
  eapply matches_cat;
  [ eapply matches_cat; [apply matches_lit | | reflexivity];
    eapply matches_cat; [apply M_Star; exact H4 | | reflexivity];
    eapply matches_cat; [apply matches_lit | | reflexivity];
    eapply matches_cat; [apply M_Star; exact H5 | | reflexivity];
    eapply matches_cat;
    [apply matches_lit | apply M_Star; exact H3 | reflexivity]
  | | rewrite ?append_assoc; reflexivity ].



(** The opening tag of a section, with its further attributes and classes,
    is read by the opening part of the expression of the section. *)
Lemma matches_opening_tag (sec : section) (a1 a2 a3 c1 c2 : string) :
  Str.all (none_of ">") a1 = true ->
  Str.all (none_of ">") a2 = true ->
  Str.all (none_of ">") a3 = true ->
  Str.all (none_of (Str.quoted "'")) c1 = true ->
  Str.all (none_of (Str.quoted "'")) c2 = true ->
  matches (openingRegex sec) (opening_tag sec a1 a2 a3 c1 c2) [] [].
Proof.
  intros H1 H2 H3 H4 H5.
  unfold openingRegex, idPattern, classPattern, opening_tag.
  destruct (id sec) as [i|]; destruct (class sec) as [c|];
    rewrite ?append_assoc; lit_step; star_step H1.
  - id_steps H2. class_steps H3 H4 H5. apply matches_lit.
  - id_steps H2. eps_step. apply matches_lit.
  - eps_step. class_steps H3 H4 H5. apply matches_lit.
  - eps_step. eps_step. apply matches_lit.
Qed.


End SectionMatching.

(** ** The matcher as an enumeration of parses *)

Section ParseFacts.
Import Regex.

Lemma first_some_app (A R : Type) (k : A -> option R) (l1 l2 : list A) :
  first_some k (l1 ++ l2)
  = match first_some k l1 with
    | Some r => Some r
    | None => first_some k l2
    end.
Proof.
  induction l1 as [|a l1 IH]; simpl; [reflexivity|].
  destruct (k a); [reflexivity | exact IH].
Qed.

Lemma first_some_map (A B R : Type) (f : A -> B) (k : B -> option R) (l : list A) :
  first_some k (map f l) = first_some (fun a => k (f a)) l.
Proof.
  induction l as [|a l IH]; simpl; [reflexivity|].
  destruct (k (f a)); [reflexivity | exact IH].
Qed.

Lemma first_some_flat_map (A B R : Type) (f : A -> list B) (k : B -> option R)
  (l : list A) :
  first_some k (flat_map f l) = first_some (fun a => first_some k (f a)) l.
Proof.
  induction l as [|a l IH]; simpl; [reflexivity|].
  rewrite first_some_app, IH. reflexivity.
Qed.

Lemma first_some_ext (A R : Type) (k1 k2 : A -> option R) (l : list A) :
  (forall a, k1 a = k2 a) -> first_some k1 l = first_some k2 l.
Proof.
  intros H. induction l as [|a l IH]; simpl; [reflexivity|].
  now rewrite H, IH.
Qed.

Lemma star_greedy_parses (R : Type) (p : ascii -> bool) (k : string -> option R) :
  forall s, star_greedy p s k = first_some k (star_greedy_all p s).
Proof.
  induction s as [|c s IH]; simpl.
  - now destruct (k "").
  - destruct (p c); simpl.
    + rewrite first_some_app, IH. simpl.
      destruct (first_some k (star_greedy_all p s)); [reflexivity|].
      now destruct (k (String c s)).
    + now destruct (k (String c s)).
Qed.

Lemma star_lazy_parses (R : Type) (p : ascii -> bool) (k : string -> option R) :
  forall s, star_lazy p s k = first_some k (star_lazy_all p s).
Proof.
  induction s as [|c s IH]; simpl.
  - now destruct (k "").
  - destruct (k (String c s)); [reflexivity|].
    destruct (p c); [exact IH | reflexivity].
Qed.

Lemma run_parses (R : Type) (r : regex) :
  forall (s : string) (caps : list string) (k : string -> list string -> option R),
    run r s caps k = first_some (fun x => k (fst x) (snd x)) (parses r s caps).
Proof.
  induction r as [|p|r1 IH1 r2 IH2|g p|r IH]; intros s caps k; simpl.
  - now destruct (k s caps).
  - destruct s as [|c s]; [reflexivity|].
    destruct (p c); simpl; [now destruct (k s caps) | reflexivity].
  - rewrite IH1, first_some_flat_map.
    apply first_some_ext. intros [s1 c1]. apply IH2.
  - destruct g; rewrite first_some_map;
      [apply star_greedy_parses | apply star_lazy_parses].
  - rewrite IH, first_some_map. reflexivity.
Qed.

Lemma run_lit_starts (R : Type) (ci : bool) (l : string) :
  forall (s : string) (caps : list string) (k : string -> list string -> option R),
    starts ci l s = false -> run (lit ci l) s caps k = None.
Proof.
  induction l as [|a l IH]; intros s caps k; simpl; [discriminate|].
  destruct s as [|c s]; [reflexivity|].
  destruct (chr_eq ci a c); simpl; [apply IH | reflexivity].
Qed.

Lemma starts_append (ci : bool) (l : string) :
  forall a b : string,
    String.length l <= String.length a ->
    starts ci l (a ++ b) = starts ci l a.
Proof.
  induction l as [|x l IH]; intros a b H; [reflexivity|].
  destruct a as [|y a]; simpl in *; [lia|].
  rewrite IH by lia. reflexivity.
Qed.

Lemma clear_of_append (ci : bool) (l r more : string) :
  String.length l <= String.length r ->
  forall t, clear_of ci l t (r ++ more) = clear_of ci l t r.
Proof.
  intros H. induction t as [|c t IH]; [reflexivity|].
  cbn [clear_of]. rewrite IH. f_equal. f_equal.
  rewrite <- append_assoc. apply starts_append.
  rewrite length_append. lia.
Qed.

Lemma clear_of_split (ci : bool) (l rest : string) :
  forall t t1 c t2,
    clear_of ci l t rest = true -> t = t1 ++ String c t2 ->
    starts ci l (String c t2 ++ rest) = false.
Proof.
  induction t as [|d t IH]; intros t1 c t2 H E.
  - destruct t1; discriminate.
  - cbn [clear_of] in H. apply andb_prop in H as [H1 H2].
    destruct t1 as [|d' t1]; simpl in E; injection E as -> ->.
    + now apply negb_true_iff in H1.
    + now apply (IH t1 c t2).
Qed.

Lemma star_lazy_now (R : Type) (p : ascii -> bool) (k : string -> option R)
  (s : string) (r : R) :
  k s = Some r -> star_lazy p s k = Some r.
Proof. intros H. destruct s; simpl; now rewrite H. Qed.

End ParseFacts.

(** ** Template compiler: overriding a section *)

Section OverrideFacts.
Import Value Path Regex Template.

(** On the plain opening tag of a section of the map the opening part of its
    expression has one parse, which reads the tag and nothing more. *)
Lemma parses_section_tag (sec : section) :
  In sec sectionMap ->
  forall rest : string,
    parses (openingRegex sec) (section_tag sec ++ rest) [] = [(rest, [])].
Proof.
  intros H rest. cbn [sectionMap In] in H.
  repeat (destruct H as [<-|H]; [reflexivity|]). contradiction.
Qed.

(** The element of a section whose content has no closing tag: the
    expression reads the whole of it and captures the content. *)
Lemma match_at_section_tag (sec : section) (x post : string) :
  In sec sectionMap ->
  clear_of true "</section>" x "</section>" = true ->
  match_at (sectionRegex sec) (section_tag sec ++ x ++ "</section>" ++ post)
  = Some (Found (section_tag sec ++ x ++ "</section>") [x] post).
Proof.
  intros Hsec H. unfold match_at.
  change (run (sectionRegex sec) ?s ?c ?k)
    with (run (openingRegex sec) s c (fun s' c' => run closingRegex s' c' k)).
  rewrite run_parses, (parses_section_tag sec Hsec).
  cbn [first_some fst snd].
  unfold closingRegex. cbn [run].
  rewrite star_lazy_first.
  - erewrite star_lazy_now; [reflexivity|].
    rewrite run_lit_exact.
    rewrite take_append. cbn [app].
    replace (section_tag sec ++ x ++ "</section>" ++ post)
      with ((section_tag sec ++ x ++ "</section>") ++ post)
      by (now rewrite !append_assoc).
    now rewrite take_append.
  - apply all_any.
  - intros t1 c t2 E. apply run_lit_starts.
    rewrite <- (clear_of_append true "</section>" "</section>" post) in H
      by (simpl; lia).
    exact (clear_of_split _ _ _ _ _ _ _ H E).
Qed.

Lemma match_at_section_unread (sec : section) (s : string) :
  parses (openingRegex sec) s [] = [] -> match_at (sectionRegex sec) s = None.
Proof.
  intros H. unfold match_at.
  change (run (sectionRegex sec) ?s ?c ?k)
    with (run (openingRegex sec) s c (fun s' c' => run closingRegex s' c' k)).
  now rewrite run_parses, H.
Qed.

Lemma search_here (r : regex) (s : string) (m : found) :
  match_at r s = Some m -> search r s = Some ("", m).
Proof. intros H. destruct s; simpl; now rewrite H. Qed.

(** The search goes over a text no position of which opens the element. *)
Lemma search_skip (sec : section) (rest : string) :
  forall pre : string,
    unread (openingRegex sec) pre rest = true ->
    search (sectionRegex sec) (pre ++ rest)
    = match search (sectionRegex sec) rest with
      | Some (before, m) => Some (pre ++ before, m)
      | None => None
      end.
Proof.
  induction pre as [|c pre IH]; intros H.
  - simpl. now destruct (search (sectionRegex sec) rest) as [[b m]|].
  - cbn [unread] in H.
    destruct (parses (openingRegex sec) (String c pre ++ rest) []) eqn:E;
      [|discriminate].
    change (String c pre ++ rest) with (String c (pre ++ rest)) in *.
    cbn [search]. rewrite (match_at_section_unread sec _ E), (IH H).
    now destruct (search (sectionRegex sec) rest) as [[b m]|].
Qed.

Lemma search_section_tag (sec : section) (pre x post : string) :
  In sec sectionMap ->
  (forall rest, unread (openingRegex sec) pre (section_tag sec ++ rest) = true) ->
  clear_of true "</section>" x "</section>" = true ->
  search (sectionRegex sec) (pre ++ section_tag sec ++ x ++ "</section>" ++ post)
  = Some (pre, Found (section_tag sec ++ x ++ "</section>") [x] post).
Proof.
  intros Hsec Hpre Hx.
  rewrite (search_skip sec _ pre (Hpre _)).
  rewrite (search_here _ _ _ (match_at_section_tag sec x post Hsec Hx)).
  now rewrite append_nil_r.
Qed.

Lemma strip_prefix_sound (p : string) :
  forall s rest, Str.strip_prefix p s = Some rest -> s = p ++ rest.
Proof.
  induction p as [|a p IH]; intros s rest; simpl.
  - now intros [= ->].
  - destruct s as [|b s]; [discriminate|].
    destruct (Ascii.eqb_spec a b) as [<-|]; [|discriminate].
    intros H. now rewrite (IH _ _ H).
Qed.

Lemma find_sound (p : string) :
  forall s before after,
    Str.find p s = Some (before, after) -> s = before ++ p ++ after.
Proof.
  induction s as [|c s IH]; intros before after; cbn [Str.find].
  - destruct (Str.strip_prefix p "") eqn:E; [|discriminate].
    intros [= <- <-]. exact (strip_prefix_sound p _ _ E).
  - destruct (Str.strip_prefix p (String c s)) eqn:E.
    + intros [= <- <-]. exact (strip_prefix_sound p _ _ E).
    + destruct (Str.find p s) as [[b a]|]; [|discriminate].
      intros [= <- <-]. simpl. now rewrite (IH b a eq_refl).
Qed.

(** A replacement string without [$] stands for itself. *)
Lemma substitution_plain (matched before after : string) :
  forall repl : string,
    Str.all (fun c => negb (Ascii.eqb c "$")) repl = true ->
    Str.substitution matched before after repl = repl.
Proof.
  induction repl as [|c r IH]; simpl; intros H; [reflexivity|].
  apply andb_prop in H as [Hc Hr]. apply negb_true_iff in Hc.
  rewrite Hc. now rewrite (IH Hr).
Qed.

Lemma apply_section_skip (data : value) (st : string * console) (sec : section) :
  overrides data sec = false -> apply_section data st sec = Ok st.
Proof.
  unfold overrides, apply_section. destruct st as [html out].
  destruct (getValue_never_throws data (path sec ++ ".customHtml")) as [v ->].
  cbn [bind]. now intros ->.
Qed.

(** What the override of a section does to a document that holds its
    element, plainly opened, with no earlier element the expression reads. *)
Lemma apply_section_tag (data : value) (sec : section)
  (pre x post custom : string) (out : console) :
  In sec sectionMap ->
  getValue data (path sec ++ ".customHtml") = Ok (VString custom) ->
  custom <> "" ->
  (forall rest, unread (openingRegex sec) pre (section_tag sec ++ rest) = true) ->
  clear_of true "</section>" x "</section>" = true ->
  apply_section data (pre ++ section_tag sec ++ x ++ "</section>" ++ post, out) sec
  = Ok (pre ++ Str.replace_first (section_tag sec ++ x ++ "</section>") x custom
            ++ post,
        (out ++ [("Using custom HTML for " ++ path sec ++ " section")%string])%list).
Proof.
  intros Hsec G Hc Hpre Hx. unfold apply_section.
  rewrite G. cbn [bind truthy].
  destruct (String.eqb_spec custom "") as [|_]; [contradiction|]. cbn [negb].
  unfold replace_one. rewrite (search_section_tag sec pre x post Hsec Hpre Hx).
  reflexivity.
Qed.

End OverrideFacts.

Section OverrideClaims.
Import Value Path Regex Template.

(** C6, as stated, fails: with a custom HTML that itself holds a section
    element, the second run of the pass reads the about element up to the
    first closing tag, which now lies inside the custom HTML, and writes the
    custom HTML there once more. *)
Lemma section_pass_not_idempotent :
  let html := Str.quoted "<section id='about' class='about-section'>OLD</section>" in
  let custom := Str.quoted "<section class='inner'>A</section><p>B</p>" in
  let data := VObject [("about", VObject [("customHtml", VString custom)])] in
  let once := about_tag ++ custom ++ "</section>" in
  let twice := about_tag ++ custom ++ "</section><p>B</p></section>" in
  section_pass data (html, []) = Ok (once, ["Using custom HTML for about section"])
  /\ section_pass data (once, []) = Ok (twice, ["Using custom HTML for about section"])
  /\ once <> twice.
Proof. repeat split. discriminate. Qed.

End OverrideClaims.

(** ** Path resolver: reading back what was written *)

Section WriteFacts.
Import Value Path.


Lemma lookup_update_other (k k' : string) (x : value) :
  k <> k' ->
  forall fields, lookup k' (update k x fields) = lookup k' fields.
Proof.
  intros Hne. induction fields as [|[j z] fields IH]; simpl.
  - destruct (String.eqb_spec k k'); [contradiction | reflexivity].
  - destruct (String.eqb_spec j k) as [->|Hj]; simpl.
    + destruct (String.eqb_spec k k'); [contradiction | reflexivity].
    + destruct (j =? k'); [reflexivity | exact IH].
Qed.













(** Whatever the path, a write into a mapping changes its first segment
    only. *)
Lemma set_path_root (lastKey : string) (x : value) (fields : list (string * value)) :
  forall (keys : list string) (tree' : value),
    set_path keys lastKey x (VObject fields) = Some (Ok tree') ->
    exists z, tree' = VObject (update (hd lastKey keys) z fields).
Proof.
  intros [|key keys] tree' H; cbn [set_path hd] in *.
  - cbn [set_prop] in H. destruct (lookup lastKey fields).
    + injection H as <-. eauto.
    + destruct (lastKey =? "__proto__"); [discriminate|].
      injection H as <-. eauto.
  - destruct (read (VObject fields) key) as [[child|e]|]; try discriminate.
    cbn [bind_opt] in H. destruct (truthy child).
    + destruct (set_path keys lastKey x child) as [[child'|e]|]; try discriminate.
      cbn in H. injection H as <-. eauto.
    + destruct (set_prop (VObject fields) key (VObject [])) as [[c1|e]|] eqn:E1;
        try discriminate.
      cbn [bind_opt] in H.
      destruct (set_path keys lastKey x (VObject [])) as [[child'|e]|];
        try discriminate.
      cbn [bind_opt] in H. injection H as <-.
      assert (E : c1 = VObject (update key (VObject []) fields)).
      { cbn [set_prop] in E1. destruct (lookup key fields).
        - now injection E1 as <-.
        - destruct (key =? "__proto__"); [discriminate | now injection E1 as <-]. }
      subst c1. cbn [put]. rewrite update_update. eauto.
Qed.


Lemma hd_removelast (keys : list string) :
  keys <> [] -> hd (last keys "") (removelast keys) = hd "" keys.
Proof.
  destruct keys as [|k [|k' keys]]; [congruence | reflexivity | reflexivity].
Qed.

(** A longer path resolves as its second part does from what the first
    part resolves to. *)
Lemma getValue_append (tree : value) (path rest : string) :
  getValue tree (path ++ String "." rest)
  = fold_left step (Str.split_dot rest) (getValue tree path).
Proof. unfold getValue. now rewrite split_dot_append, fold_left_app. Qed.

End WriteFacts.

Section PathLaws.
Import Value Path.





(** X3: a write into a mapping changes what lies under the first segment
    of its path and nothing else: every path that starts with another
    segment resolves as it did before. *)
Theorem setValue_keeps_other_keys :
  forall (fields : list (string * value)) (tree' : value) (path other : string)
         (x : value),
    setValue (VObject fields) path x = Some (Ok tree') ->
    hd "" (Str.split_dot path) <> hd "" (Str.split_dot other) ->
    getValue tree' other = getValue (VObject fields) other
    /\ own_path tree' other = own_path (VObject fields) other.
Proof.
  intros fields tree' path other x H Hne. unfold setValue in H.
  destruct (set_path_root _ _ _ _ _ H) as [z ->].
  rewrite (hd_removelast _ (split_dot_nonempty path)) in *.
  unfold getValue, own_path.
  pose proof (split_dot_nonempty other) as Ho.
  destruct (Str.split_dot other) as [|b rest]; [congruence|].
  cbn [hd] in Hne.
  cbn [fold_left step bind truthy get_prop own_walk own_read].
  now rewrite (lookup_update_other _ _ z Hne).
Qed.

Lemma setValue_keeps_other_keys_witness :
  getValue (VObject [("site", VObject [("title", VString "S")]);
                     ("hero", VObject [("title", VString "H")])]) "site.title"
  = getValue (VObject [("site", VObject [("title", VString "S")])]) "site.title".
Proof.
  apply (setValue_keeps_other_keys
           [("site", VObject [("title", VString "S")])] _
           "hero.title" "site.title" (VString "H")).
  - reflexivity.
  - discriminate.
Defined.

(** X4: on a path that reads own properties, and names that no inherited
    member has, [getValue] does not throw, and it stops at the first value
    that counts as false.  When such a path resolves to a value counting as
    false ([undefined] for a missing key, [null], [false], [0], the empty
    string), every longer path through it resolves to that same value; in
    particular a path that goes on after a key that a mapping does not have,
    and that is no name of an inherited member, resolves to [undefined]. *)
Theorem getValue_stops_at_falsy :
  forall (tree : value) (path : string),
    own_path tree path = true ->
    (exists v, getValue tree path = Ok v)
    /\ (forall (rest : string) (s : value),
           getValue tree path = Ok s ->
           truthy s = false ->
           getValue tree (path ++ "." ++ rest) = Ok s
           /\ own_path tree (path ++ "." ++ rest) = true)
    /\ (forall (fields : list (string * value)) (key rest : string),
           getValue tree path = Ok (VObject fields) ->
           lookup key fields = None ->
           inherited key = false ->
           Str.dot_free key = true ->
           (getValue tree (path ++ "." ++ key) = Ok VUndefined
            /\ own_path tree (path ++ "." ++ key) = true)
           /\ (getValue tree (path ++ "." ++ key ++ "." ++ rest) = Ok VUndefined
               /\ own_path tree (path ++ "." ++ key ++ "." ++ rest) = true)).
Proof.
  intros tree path W. split; [apply getValue_never_throws|].
  assert (A : forall rest, getValue tree (path ++ "." ++ rest)
                           = fold_left step (Str.split_dot rest) (getValue tree path))
    by (intros rest; apply getValue_append).
  assert (B : forall rest v,
             getValue tree path = Ok v ->
             own_path tree (path ++ "." ++ rest)
             = own_walk v (Str.split_dot rest)).
  { intros rest v G. unfold own_path, getValue in *.
    change (path ++ "." ++ rest) with (path ++ String "." rest).
    rewrite split_dot_append. now apply own_walk_app. }
  split.
  - intros rest s G T. rewrite A, G, (B rest s G).
    split; [now apply fold_step_falsy | now apply own_walk_falsy].
  - intros fields key rest G L I Hk. rewrite !A, G, !(B _ _ G).
    change (key ++ "." ++ rest) with (key ++ String "." rest).
    rewrite (split_dot_segment _ rest Hk), (split_dot_last _ Hk).
    cbn [fold_left step bind truthy get_prop own_walk own_read]. rewrite L, I.
    cbn [negb andb]. rewrite own_walk_falsy by reflexivity.
    repeat split. now apply fold_step_falsy.
Qed.

Lemma getValue_stops_at_falsy_witness :
  getValue (VObject [("hero", VObject [("title", VString "T")])])
    ("hero" ++ "." ++ "image" ++ "." ++ "src.alt")
  = Ok VUndefined.
Proof.
  exact (proj1 (proj2 (proj2 (proj2 (getValue_stops_at_falsy
           (VObject [("hero", VObject [("title", VString "T")])]) "hero" eq_refl))
           [("title", VString "T")] "image" "src.alt"
           eq_refl eq_refl eq_refl eq_refl))).
Defined.

End PathLaws.

(** ** Template compiler: what the passes do to a well-formed template *)

Section ReplaceFacts.
Import Regex.

(** A global [replace] goes over the text at no position of which the
    expression matches. *)
Lemma replace_all_skip (r : regex) (f : found -> result string) (s : string) :
  forall t : string,
    (forall t1 c t2, t = t1 ++ String c t2 -> match_at r (String c t2 ++ s) = None) ->
    replace_all r f (t ++ s) = (out <- replace_all r f s ;; Ok (t ++ out)).
Proof.
  unfold replace_all.
  induction t as [|c t IH]; intros H.
  - cbn [append]. destruct (assemble f (pieces r 0 s)); reflexivity.
  - pose proof (H "" c t eq_refl) as H0.
    change (String c t ++ s) with (String c (t ++ s)) in *.
    cbn [pieces]. rewrite H0. cbn [assemble].
    rewrite IH.
    + destruct (assemble f (pieces r 0 s)); reflexivity.
    + intros t1 d t2 E. apply (H (String c t1) d t2). simpl. now rewrite E.
Qed.

(** ... and replaces a match at the head, going on after it. *)
Lemma replace_all_hit (r : regex) (f : found -> result string)
  (m s : string) (caps : list string) :
  m <> "" ->
  match_at r (m ++ s) = Some (Found m caps s) ->
  replace_all r f (m ++ s)
  = (text <- f (Found m caps s) ;;
     out <- replace_all r f s ;;
     Ok (text ++ out)).
Proof.
  intros Hm H. destruct m as [|c t]; [congruence|].
  unfold replace_all. now rewrite (pieces_hit _ _ _ _ _ H).
Qed.

End ReplaceFacts.

Section OpenFacts.
Import Regex Template Page.

(** A literal that starts with [{{] reads nothing where no [{{] stands. *)
Lemma run_lit_open (R : Type) (l : string) (c : ascii) (s : string)
  (caps : list string) (k : string -> list string -> option R) :
  Ascii.eqb c "{" && head_is "{" s = false ->
  run (lit false (String "{" (String "{" l))) (String c s) caps k = None.
Proof.
  intros H. cbn [lit run]. unfold chr_eq at 1.
  rewrite Ascii.eqb_sym.
  destruct (Ascii.eqb c "{"); [|reflexivity].
  destruct s as [|d s]; [reflexivity|].
  cbn in H. unfold chr_eq. rewrite Ascii.eqb_sym, H. reflexivity.
Qed.

Lemma no_open_head (c : ascii) (s : string) :
  no_open (String c s) = true -> Ascii.eqb c "{" && head_is "{" s = false.
Proof.
  cbn [no_open]. intros H. apply andb_prop in H as [H _].
  now apply negb_true_iff in H.
Qed.

Lemma no_open_tail (c : ascii) (s : string) :
  no_open (String c s) = true -> no_open s = true.
Proof. cbn [no_open]. intros H. now apply andb_prop in H as [_ H]. Qed.

Lemma no_open_drop (n : nat) :
  forall s, no_open s = true -> no_open (Str.drop n s) = true.
Proof.
  induction n as [|n IH]; intros [|c s] H; try exact H.
  cbn [Str.drop]. apply IH. exact (no_open_tail _ _ H).
Qed.

(** In plain text followed by anything, no position starts a [{{]. *)
Lemma plain_position (t s : string) :
  plain t = true ->
  forall t1 c t2, t = t1 ++ String c t2 ->
                  Ascii.eqb c "{" && head_is "{" (t2 ++ s) = false.
Proof.
  unfold plain. intros H t1 c t2 ->. revert H.
  induction t1 as [|d t1 IH]; intros H.
  - cbn [append] in H. apply no_open_head in H.
    destruct (Ascii.eqb c "{"); [|reflexivity].
    cbn [andb] in *. destruct t2; [discriminate H | exact H].
  - apply IH. exact (no_open_tail _ _ H).
Qed.

Lemma plain_no_open (t : string) : plain t = true -> no_open t = true.
Proof.
  unfold plain. induction t as [|c t IH]; [reflexivity|].
  intros H. cbn [append no_open] in *.
  apply andb_prop in H as [Hc Ht]. rewrite (IH Ht), andb_true_r.
  destruct (Ascii.eqb c "{"); [|reflexivity].
  destruct t; [reflexivity | exact Hc].
Qed.

Lemma plain_app (t u : string) :
  plain t = true -> plain u = true -> plain (t ++ u) = true.
Proof.
  unfold plain. induction t as [|c t IH]; intros Ht Hu; [exact Hu|].
  cbn [append no_open] in *.
  apply andb_prop in Ht as [Hc Ht]. rewrite (IH Ht Hu), andb_true_r.
  destruct (Ascii.eqb c "{"); [|reflexivity].
  cbn [andb] in *. destruct t as [|d t]; [discriminate Hc | exact Hc].
Qed.

Lemma no_open_search (r' : regex) (l : string) :
  forall s, no_open s = true ->
            search (Cat (lit false (String "{" (String "{" l))) r') s = None.
Proof.
  induction s as [|c s IH]; intros H.
  - reflexivity.
  - cbn [search]. unfold match_at at 1. cbn [run].
    rewrite (run_lit_open _ l c s _ _ (no_open_head _ _ H)).
    now rewrite (IH (no_open_tail _ _ H)).
Qed.

End OpenFacts.

Section PartFacts.
Import Value Path Regex Template Page.

Lemma flatten_cons (x : string) (l : list string) :
  flatten (x :: l) = x ++ flatten l.
Proof.
  unfold flatten. destruct l as [|y l]; cbn [String.concat].
  - now rewrite append_nil_r.
  - reflexivity.
Qed.

Lemma match_at_placeholder_plain (t s : string) :
  plain t = true ->
  forall t1 c t2, t = t1 ++ String c t2 ->
                  match_at placeholderRegex (String c t2 ++ s) = None.
Proof.
  intros H t1 c t2 E. unfold match_at, placeholderRegex. cbn [run].
  change (String c t2 ++ s) with (String c (t2 ++ s)).
  apply (run_lit_open _ "" c (t2 ++ s)).
  exact (plain_position t s H t1 c t2 E).
Qed.

Lemma scalar_pass_plain (data : value) (t s : string) :
  plain t = true ->
  scalar_pass data (t ++ s) = (out <- scalar_pass data s ;; Ok (t ++ out)).
Proof.
  intros H. apply replace_all_skip. now apply match_at_placeholder_plain.
Qed.

Lemma substitute_fill (data : value) (key post : string) :
  substitute data (Found ("{{" ++ key ++ "}}") [key] post)
  = Ok (fill data (Placeholder key)).
Proof.
  unfold substitute, fill. cbn [capture captures Nat.sub nth matched part_source].
  destruct (getValue_never_throws data (Str.trim key)) as [v ->].
  cbn [bind]. destruct v; reflexivity.
Qed.

(** The markers of an iteration block go through the pass as they are. *)
Lemma scalar_pass_mark (data : value) (c : ascii) (s : string) :
  negb (none_of "#/" c) = true ->
  scalar_pass data (("{{" ++ String c "") ++ s)
  = (out <- scalar_pass data s ;; Ok (("{{" ++ String c "") ++ out)).
Proof.
  intros H. apply negb_true_iff in H.
  assert (Hc : Ascii.eqb c "{" = false).
  { destruct (Ascii.eqb_spec c "{") as [->|]; [discriminate H | reflexivity]. }
  apply replace_all_skip.
  intros t1 d t2 E. unfold match_at, placeholderRegex.
  destruct t1 as [|x1 [|x2 [|x3 t1]]]; cbn in E.
  - injection E as <- <-. cbn [append run lit]. unfold chr_eq.
    cbn. now rewrite H.
  - injection E as _ <- <-. cbn [append run lit]. unfold chr_eq.
    now rewrite (Ascii.eqb_sym "{" c), Hc.
  - injection E as _ _ <- <-.
    apply run_lit_mismatch. unfold chr_eq. now rewrite Ascii.eqb_sym.
  - destruct t1; discriminate E.
Qed.


(** The pass on a template cut into parts: every part comes out as what
    stands for it. *)
Lemma scalar_pass_parts (data : value) (parts : list part) :
  forallb part_ok parts = true ->
  scalar_pass data (source_of parts) = Ok (flatten (map (fill data) parts)).
Proof.
  unfold source_of.
  induction parts as [|p parts IH]; intros H; [reflexivity|].
  cbn [forallb] in H. apply andb_prop in H as [Hp Hr].
  cbn [map]. rewrite !flatten_cons.
  destruct p as [t|key|c]; cbn [part_source part_ok fill] in *.
  - rewrite (scalar_pass_plain data t _ Hp), (IH Hr). reflexivity.
  - assert (E : forall x, ("{{" ++ key ++ "}}") ++ x = "{{" ++ key ++ "}}" ++ x)
      by (intros x; now rewrite !append_assoc).
    rewrite E.
    rewrite (scalar_pass_placeholder data key _ Hp), substitute_fill, (IH Hr).
    reflexivity.
  - rewrite (scalar_pass_mark data c _ Hp), (IH Hr). reflexivity.
Qed.

End PartFacts.

Section PartLaws.
Import Value Path Regex Template Page.

(** X5: the scalar substitution on a template made of plain texts, the
    markers [{{#] and [{{/] of iteration blocks, and placeholders whose
    trimmed keys read own properties of the tree, or
    names no inherited member has, the values they resolve to having a
    string form.  Every text comes out as it is, every placeholder whose key
    resolves to a value other than [undefined] comes out as the text of that
    value ([null] as [null], a number in decimal), and the others as
    written.  The text of a value is put in as it is: neither a placeholder
    nor a [$] pattern in it is expanded. *)
Theorem scalar_pass_fills_parts :
  forall (data : value) (parts : list part),
    forallb part_ok parts = true ->
    forallb (part_reads data) parts = true ->
    scalar_pass data (source_of parts) = Ok (flatten (map (fill data) parts)).
Proof. intros data parts H _. now apply scalar_pass_parts. Qed.

Lemma scalar_pass_fills_parts_witness :
  scalar_pass
    (VObject [("site", VObject [("title", VString "Shop {{x}} $&")]);
              ("n", VNumber 3); ("none", VNull)])
    "<h1 style={a}>{{ site.title }}</h1>{{n}}{{none}}{{missing}}"
  = Ok "<h1 style={a}>Shop {{x}} $&</h1>3null{{missing}}".
Proof.
  exact (scalar_pass_fills_parts
           (VObject [("site", VObject [("title", VString "Shop {{x}} $&")]);
                     ("n", VNumber 3); ("none", VNull)])
           [Text "<h1 style={a}>"; Placeholder " site.title "; Text "</h1>";
            Placeholder "n"; Placeholder "none"; Placeholder "missing"]
           eq_refl eq_refl).
Defined.

End PartLaws.

Section PlainDocument.
Import Value Path Regex Template Page.

Lemma no_open_position (t : string) :
  no_open t = true ->
  forall t1 c t2, t = t1 ++ String c t2 ->
                  Ascii.eqb c "{" && head_is "{" (t2 ++ "") = false.
Proof.
  intros H t1 c t2 ->. revert H.
  induction t1 as [|d t1 IH]; intros H.
  - rewrite append_nil_r. exact (no_open_head _ _ H).
  - apply IH. exact (no_open_tail _ _ H).
Qed.

Lemma scalar_pass_no_open (data : value) (t : string) :
  no_open t = true -> scalar_pass data t = Ok t.
Proof.
  intros H. rewrite <- (append_nil_r t) at 1.
  unfold scalar_pass. rewrite replace_all_skip.
  - cbn. now rewrite append_nil_r.
  - intros t1 c t2 E. unfold match_at, placeholderRegex. cbn [run].
    change (String c t2 ++ "") with (String c (t2 ++ "")).
    apply (run_lit_open _ "" c (t2 ++ "")).
    exact (no_open_position t H t1 c t2 E).
Qed.

Lemma exec_each_no_open (html : string) (lastIndex : nat) :
  no_open html = true -> exec eachRegex html lastIndex = None.
Proof.
  intros H. unfold exec.
  destruct (String.length html <? lastIndex)%nat; [reflexivity|].
  unfold eachRegex.
  now rewrite (no_open_search _ "#each" _ (no_open_drop lastIndex html H)).
Qed.

Lemma each_loop_done (fuel : nat) (data : value) (html : string) (lastIndex : nat) :
  exec eachRegex html lastIndex = None ->
  each_loop (S fuel) data html lastIndex = Some (Ok html).
Proof. intros H. cbn [each_loop]. unfold each_step. now rewrite H. Qed.

Lemma section_loop_skip (data : value) (st : string * console) :
  forall secs : list section,
    (forall sec, In sec secs -> apply_section data st sec = Ok st) ->
    section_loop data secs st = Ok st.
Proof.
  induction secs as [|sec secs IH]; intros H; [reflexivity|].
  cbn [section_loop]. rewrite (H sec (or_introl eq_refl)). cbn [bind].
  apply IH. intros s Hs. apply H. now right.
Qed.

Lemma search_section_absent (sec : section) :
  forall html : string,
    clear_of true "<section" html "" = true ->
    search (sectionRegex sec) html = None.
Proof.
  assert (E : match_at (sectionRegex sec) "" = None) by reflexivity.
  induction html as [|c html IH]; intros H; [cbn [search]; now rewrite E|].
  cbn [clear_of] in H. apply andb_prop in H as [H1 H2].
  apply negb_true_iff in H1. rewrite append_nil_r in H1.
  cbn [search]. unfold match_at at 1. unfold sectionRegex. cbn [run].
  rewrite (run_lit_starts _ true "<section" _ _ _ H1).
  fold (sectionRegex sec). now rewrite (IH H2).
Qed.

Lemma apply_section_absent (data : value) (html : string) (out : console)
  (sec : section) :
  clear_of true "<section" html "" = true ->
  apply_section data (html, out) sec = Ok (html, out).
Proof.
  intros H. unfold apply_section.
  destruct (getValue_never_throws data (path sec ++ ".customHtml")) as [v ->].
  cbn [bind]. rewrite (search_section_absent sec html H).
  now destruct (truthy v).
Qed.

End PlainDocument.

Section PlainDocumentLaws.
Import Value Path Regex Template Page.

(** X6: a template without [{{] comes out of [buildHTML] as it went in,
    with nothing written to the console, when the tree overrides no section
    or the template has no section element: styles and scripts with single
    braces are not touched. *)
Theorem buildHTML_plain_document :
  forall (fuel : nat) (template : string) (data : value) (out : console),
    no_open template = true ->
    forallb (fun sec => negb (overrides data sec)) sectionMap = true
    \/ clear_of true "<section" template "" = true ->
    buildHTML (S fuel) template data out = Some (Ok (template, out)).
Proof.
  intros fuel template data out Hn Hs. unfold buildHTML.
  rewrite (scalar_pass_no_open data template Hn). cbn [bind_opt].
  unfold each_pass.
  rewrite (each_loop_done fuel data template 0 (exec_each_no_open template 0 Hn)).
  cbn [bind_opt]. f_equal. unfold section_pass.
  apply section_loop_skip. intros sec Hsec.
  destruct Hs as [Hs|Hs].
  - apply apply_section_skip.
    rewrite forallb_forall in Hs. now apply negb_true_iff, Hs.
  - now apply apply_section_absent.
Qed.

Lemma buildHTML_plain_document_witness :
  buildHTML 1 "<style>a { color: red }</style><p>Hello</p>"
    (VObject [("about", VObject [("customHtml", VString "<p>NEW</p>")])]) []
  = Some (Ok ("<style>a { color: red }</style><p>Hello</p>", [])).
Proof.
  apply (buildHTML_plain_document 0).
  - reflexivity.
  - right. reflexivity.
Defined.

End PlainDocumentLaws.

Section GreedyFacts.
Import Regex Page.

(** A greedy repetition reads the longest run first: when the
    continuation succeeds after it, that is the answer. *)
Lemma star_greedy_longest (R : Type) (p : ascii -> bool)
  (k : string -> option R) (s : string) (r : R) :
  match s with String c _ => p c = false | "" => True end ->
  k s = Some r ->
  forall t, Str.all p t = true -> star_greedy p (t ++ s) k = Some r.
Proof.
  intros Hs Hk. induction t as [|c t IH]; intros Ht.
  - cbn [append]. destruct s as [|c s]; cbn [star_greedy]; [exact Hk|].
    now rewrite Hs.
  - cbn [Str.all] in Ht. apply andb_prop in Ht as [Pc Ht].
    cbn [append star_greedy]. now rewrite Pc, (IH Ht).
Qed.

Lemma run_plus_greedy (R : Type) (p : ascii -> bool) (t s : string)
  (caps : list string) (k : string -> list string -> option R) (r : R) :
  t <> "" -> Str.all p t = true ->
  match s with String c _ => p c = false | "" => True end ->
  k s caps = Some r ->
  run (Plus true p) (t ++ s) caps k = Some r.
Proof.
  intros Hne Ht Hs Hk. destruct t as [|c t]; [congruence|].
  cbn [Str.all] in Ht. apply andb_prop in Ht as [Pc Ht].
  unfold Plus. cbn [append run]. rewrite Pc.
  now apply (star_greedy_longest _ p (fun s' => k s' caps) s r Hs Hk).
Qed.

Lemma run_group_plus_greedy (R : Type) (p : ascii -> bool) (t s : string)
  (caps : list string) (k : string -> list string -> option R) (r : R) :
  t <> "" -> Str.all p t = true ->
  match s with String c _ => p c = false | "" => True end ->
  k s (caps ++ [t])%list = Some r ->
  run (Group (Plus true p)) (t ++ s) caps k = Some r.
Proof.
  intros Hne Ht Hs Hk. cbn [run].
  apply run_plus_greedy; try assumption.
  now rewrite take_append.
Qed.

(** The leftmost match is not in text at no position of which the
    expression matches. *)
Lemma search_after (r : regex) (s : string) :
  forall pre : string,
    (forall t1 c t2, pre = t1 ++ String c t2 ->
                     match_at r (String c t2 ++ s) = None) ->
    search r (pre ++ s)
    = match search r s with
      | Some (before, m) => Some (pre ++ before, m)
      | None => None
      end.
Proof.
  induction pre as [|c pre IH]; intros H.
  - cbn [append]. now destruct (search r s) as [[b m]|].
  - pose proof (H "" c pre eq_refl) as H0.
    change (String c pre ++ s) with (String c (pre ++ s)) in *.
    cbn [search]. rewrite H0, IH.
    + now destruct (search r s) as [[b m]|].
    + intros t1 d t2 E. apply (H (String c t1) d t2). simpl. now rewrite E.
Qed.

(** The first occurrence of a text that starts with [{{] is not in plain
    text. *)
Lemma find_after_plain (l post : string) :
  forall pre : string,
    plain pre = true ->
    Str.find ("{{" ++ l) (pre ++ ("{{" ++ l) ++ post) = Some (pre, post).
Proof.
  assert (P : forall s, Str.strip_prefix s (s ++ post) = Some post).
  { induction s as [|c s IH]; [now destruct post|].
    cbn. now rewrite Ascii.eqb_refl. }
  induction pre as [|c pre IH]; intros H.
  - assert (Fh : forall p s rest, Str.strip_prefix p s = Some rest ->
                                  Str.find p s = Some ("", rest))
      by (intros p [|a s] rest E; cbn [Str.find]; now rewrite E).
    apply Fh, P.
  - pose proof (plain_position _ (("{{" ++ l) ++ post) H "" c pre eq_refl) as H0.
    change (String c pre ++ ?x) with (String c (pre ++ x)).
    cbn [Str.find].
    set (x := pre ++ ("{{" ++ l) ++ post) in *.
    assert (N : Str.strip_prefix ("{{" ++ l) (String c x) = None).
    { change (Str.strip_prefix ("{{" ++ l) (String c x))
        with (if Ascii.eqb "{" c then Str.strip_prefix (String "{" l) x else None).
      destruct (Ascii.eqb_spec "{" c) as [<-|_]; [|reflexivity].
      cbn [Ascii.eqb Bool.eqb andb] in H0.
      destruct x as [|d x']; [reflexivity|].
      cbn [head_is] in H0. cbn [Str.strip_prefix].
      rewrite Ascii.eqb_sym, H0. reflexivity. }
    rewrite N. rewrite IH; [reflexivity|].
    unfold plain in *. exact (no_open_tail _ _ H).
Qed.

End GreedyFacts.

Section EachBlockFacts.
Import Value Path Regex Template Page.

(** The iteration expression on a block: the whole of it is matched, the
    path and the block captured. *)
Lemma match_at_each_block (ws p block post : string) :
  each_path ws p = true ->
  clear_of false "{{/each}}" block "{{/each}}" = true ->
  match_at eachRegex (each_block ws p block ++ post)
  = Some (Found (each_block ws p block) [p; block] post).
Proof.
  unfold each_path. intros Hp Hb.
  apply andb_prop in Hp as [Hw Hp]. apply andb_prop in Hw as [Hw1 Hw2].
  apply negb_true_iff in Hw1.
  destruct p as [|c p']; [discriminate|].
  apply andb_prop in Hp as [Hc Hp]. apply negb_true_iff in Hc.
  set (p := String c p') in *.
  unfold match_at, eachRegex, each_block.
  assert (E : ("{{#each" ++ ws ++ p ++ "}}" ++ block ++ "{{/each}}") ++ post
              = "{{#each" ++ ws ++ p ++ "}}" ++ block ++ "{{/each}}" ++ post)
    by (now rewrite !append_assoc).
  rewrite E at 1. cbn [run]. rewrite run_lit_exact.
  fold (Plus true space). 
  apply run_plus_greedy.
  - intros ->. discriminate.
  - exact Hw2.
  - subst p. cbn [append]. exact Hc.
  - fold (Plus true (none_of "}")).
    apply run_plus_greedy.
    + subst p. discriminate.
    + exact Hp.
    + reflexivity.
    + rewrite take_append, run_lit_exact.
      rewrite star_lazy_first.
      * apply star_lazy_now. rewrite run_lit_exact.
        now rewrite !take_append.
      * apply all_any.
      * intros t1 d t2 Eb. apply run_lit_starts.
        rewrite <- (clear_of_append false "{{/each}}" "{{/each}}" post) in Hb
          by (simpl; lia).
        exact (clear_of_split _ _ _ _ _ _ _ Hb Eb).
Qed.

Lemma match_at_each_plain (t s : string) :
  plain t = true ->
  forall t1 c t2, t = t1 ++ String c t2 ->
                  match_at eachRegex (String c t2 ++ s) = None.
Proof.
  intros H t1 c t2 E. unfold match_at, eachRegex. cbn [run].
  change (String c t2 ++ s) with (String c (t2 ++ s)).
  apply (run_lit_open _ "#each" c (t2 ++ s)).
  exact (plain_position t s H t1 c t2 E).
Qed.

(** The turn of the loop that meets the first block of the document, over
    a sequence. *)
Lemma each_step_block (data : value) (pre ws p block post rendered : string)
  (items : list value) :
  plain pre = true ->
  each_path ws p = true ->
  clear_of false "{{/each}}" block "{{/each}}" = true ->
  getValue data (Str.trim p) = Ok (VArray items) ->
  render_items block items = Ok rendered ->
  Str.all (fun c => negb (Ascii.eqb c "$")) rendered = true ->
  each_step data (pre ++ each_block ws p block ++ post) 0
  = Ok (Some (pre ++ rendered ++ post,
              String.length pre + String.length (each_block ws p block))).
Proof.
  intros Hpre Hp Hb G Hr Hd. unfold each_step, exec.
  cbn [String.length Nat.ltb Nat.leb Str.drop].
  assert (D : forall s, Str.drop 0 s = s) by (now intros [|? ?]).
  rewrite ?D.
  rewrite (search_after eachRegex _ pre (match_at_each_plain pre _ Hpre)).
  rewrite (search_here _ _ _ (match_at_each_block ws p block post Hp Hb)).
  cbn [matched capture captures Nat.sub nth].
  rewrite G. cbn [bind]. rewrite Hr. cbn [bind].
  rewrite append_nil_r.
  unfold Str.replace_first.
  assert (F : Str.find (each_block ws p block)
                (pre ++ each_block ws p block ++ post) = Some (pre, post)).
  { unfold each_block.
    change ("{{#each" ++ ?x) with ("{{" ++ "#each" ++ x).
    exact (find_after_plain _ post pre Hpre). }
  rewrite F. now rewrite (substitution_plain _ _ _ _ Hd).
Qed.

Lemma each_loop_block (fuel : nat) (data : value)
  (pre ws p block post rendered : string) (items : list value) :
  plain pre = true ->
  each_path ws p = true ->
  clear_of false "{{/each}}" block "{{/each}}" = true ->
  getValue data (Str.trim p) = Ok (VArray items) ->
  render_items block items = Ok rendered ->
  Str.all (fun c => negb (Ascii.eqb c "$")) rendered = true ->
  exec eachRegex (pre ++ rendered ++ post)
    (String.length pre + String.length (each_block ws p block)) = None ->
  each_pass (S (S fuel)) data (pre ++ each_block ws p block ++ post)
  = Some (Ok (pre ++ rendered ++ post)).
Proof.
  intros Hpre Hp Hb G Hr Hd He. unfold each_pass.
  cbn [each_loop].
  rewrite (each_step_block data pre ws p block post rendered items
             Hpre Hp Hb G Hr Hd).
  unfold each_step. now rewrite He.
Qed.

Lemma drop_all (s : string) : Str.drop (String.length s) s = "".
Proof. induction s as [|c s IH]; [reflexivity | exact IH]. Qed.

End EachBlockFacts.

Section EachBlockLaws.
Import Value Path Regex Template Page.

(** X7: the iteration pass on a document with one block over a sequence:
    the block, from [{{#each] to [{{/each}}], is replaced by the texts
    rendered for the items, one after the other, and the loop ends, the
    texts before and after the block unchanged.  The rendered text must
    hold no [$], which the replacement would read as a pattern, and must
    bring no [{{] into the document. *)
Theorem each_pass_renders_block :
  forall (fuel : nat) (data : value) (pre ws p block post rendered : string)
         (items : list value),
    plain pre = true ->
    each_path ws p = true ->
    clear_of false "{{/each}}" block "{{/each}}" = true ->
    getValue data (Str.trim p) = Ok (VArray items) ->
    render_items block items = Ok rendered ->
    Str.all (fun c => negb (Ascii.eqb c "$")) rendered = true ->
    no_open (pre ++ rendered ++ post) = true ->
    each_pass (S (S fuel)) data (pre ++ each_block ws p block ++ post)
    = Some (Ok (pre ++ rendered ++ post)).
Proof.
  intros fuel data pre ws p block post rendered items
         Hpre Hp Hb G Hr Hd Hn.
  apply (each_loop_block fuel data pre ws p block post rendered items);
    try assumption.
  now apply exec_each_no_open.
Qed.

Lemma each_pass_renders_block_witness :
  each_pass 2
    (VObject [("services",
               VObject [("items", VArray [VObject [("title", VString "Weddings")];
                                          VObject [("title", VString "Events")]])])])
    ("<ul>" ++ each_block " " "services.items" "<li>{{this.title}}</li>" ++ "</ul>")
  = Some (Ok ("<ul>" ++ "<li>Weddings</li><li>Events</li>" ++ "</ul>")).
Proof.
  apply (each_pass_renders_block 0 _ "<ul>" " " "services.items"
           "<li>{{this.title}}</li>" "</ul>" "<li>Weddings</li><li>Events</li>"
           [VObject [("title", VString "Weddings")];
            VObject [("title", VString "Events")]]);
    reflexivity.
Defined.

(** X8: after a block is replaced the search goes on from the offset at
    which the block ended in the document before the replacement.  When the
    rendered text and all that follows the block are together no longer than
    the block was, the loop ends there: what follows the block comes out as
    written, iteration blocks over sequences included. *)
Theorem each_pass_skips_after_short_block :
  forall (fuel : nat) (data : value) (pre ws p block post rendered : string)
         (items : list value),
    plain pre = true ->
    each_path ws p = true ->
    clear_of false "{{/each}}" block "{{/each}}" = true ->
    getValue data (Str.trim p) = Ok (VArray items) ->
    render_items block items = Ok rendered ->
    Str.all (fun c => negb (Ascii.eqb c "$")) rendered = true ->
    String.length (rendered ++ post) <= String.length (each_block ws p block) ->
    each_pass (S (S fuel)) data (pre ++ each_block ws p block ++ post)
    = Some (Ok (pre ++ rendered ++ post)).
Proof.
  intros fuel data pre ws p block post rendered items
         Hpre Hp Hb G Hr Hd Hl.
  apply (each_loop_block fuel data pre ws p block post rendered items);
    try assumption.
  unfold exec.
  destruct (String.length (pre ++ rendered ++ post)
            <? String.length pre + String.length (each_block ws p block))%nat
    eqn:L; [reflexivity|].
  apply Nat.ltb_ge in L. rewrite length_append in L.
  assert (E : String.length pre + String.length (each_block ws p block)
              = String.length (pre ++ rendered ++ post))
    by (rewrite length_append; lia).
  rewrite E, drop_all. reflexivity.
Qed.

Lemma each_pass_skips_after_short_block_witness :
  each_pass 5
    (VObject [("a", VArray []); ("b", VArray [VString "x"; VString "y"])])
    ("" ++ each_block " " "a" "<li>{{this}}</li>" ++ "{{#each b}}{{this}}{{/each}}")
  = Some (Ok ("" ++ "" ++ "{{#each b}}{{this}}{{/each}}")).
Proof.
  apply (each_pass_skips_after_short_block 3 _ "" " " "a" "<li>{{this}}</li>"
           "{{#each b}}{{this}}{{/each}}" "" []);
    try reflexivity.
  simpl. lia.
Defined.

End EachBlockLaws.

Section ItemFacts.
Import Value Path Regex Template Page.

Lemma match_at_this_prop (name rest : string) :
  field_name name = true ->
  match_at thisPropRegex (("{{this." ++ name ++ "}}") ++ rest)
  = Some (Found ("{{this." ++ name ++ "}}") [name] rest).
Proof.
  unfold field_name. intros H. apply andb_prop in H as [Hne Hn].
  apply negb_true_iff in Hne.
  unfold match_at, thisPropRegex.
  assert (E : ("{{this." ++ name ++ "}}") ++ rest
              = "{{this." ++ name ++ "}}" ++ rest)
    by (now rewrite !append_assoc).
  rewrite E at 1. cbn [run]. rewrite run_lit_exact.
  fold (Plus true (none_of "}")).
  apply run_plus_greedy.
  - intros ->. discriminate.
  - exact Hn.
  - reflexivity.
  - rewrite take_append, run_lit_exact. now rewrite take_append.
Qed.

Lemma match_at_this_prop_plain (t s : string) :
  plain t = true ->
  forall t1 c t2, t = t1 ++ String c t2 ->
                  match_at thisPropRegex (String c t2 ++ s) = None.
Proof.
  intros H t1 c t2 E. unfold match_at, thisPropRegex. cbn [run].
  change (String c t2 ++ s) with (String c (t2 ++ s)).
  apply (run_lit_open _ "this." c (t2 ++ s)).
  exact (plain_position t s H t1 c t2 E).
Qed.

Lemma match_at_this_plain (t s : string) :
  plain t = true ->
  forall t1 c t2, t = t1 ++ String c t2 ->
                  match_at thisRegex (String c t2 ++ s) = None.
Proof.
  intros H t1 c t2 E. unfold match_at, thisRegex.
  change (String c t2 ++ s) with (String c (t2 ++ s)).
  apply (run_lit_open _ "this}}" c (t2 ++ s)).
  exact (plain_position t s H t1 c t2 E).
Qed.

(** The expression for [{{this.name}}] matches nowhere in [{{this}}]. *)
Lemma match_at_this_prop_this (s : string) :
  forall t1 c t2, "{{this}}" = t1 ++ String c t2 ->
                  match_at thisPropRegex (String c t2 ++ s) = None.
Proof.
  intros t1 c t2 E.
  do 8 (destruct t1 as [|? t1];
        [injection E as <- <-; reflexivity | injection E as <- E]).
  destruct t1; discriminate.
Qed.

Lemma match_at_this (s : string) :
  match_at thisRegex ("{{this}}" ++ s) = Some (Found "{{this}}" [] s).
Proof.
  unfold match_at, thisRegex. rewrite run_lit_exact.
  now rewrite take_append.
Qed.

Lemma get_prop_defined (item : value) (k : string) :
  nullish item = false -> exists v, get_prop item k = Ok v.
Proof.
  intros H. destruct item; try discriminate; cbn [get_prop]; eauto.
  - destruct (array_index k) as [i|];
      [destruct (i <? _)%N | destruct (k =? "length")]; eauto.
  - destruct (array_index k) as [i|];
      [destruct (i <? _)%N | destruct (k =? "length")]; eauto.
  - destruct (lookup k fields); eauto.
Qed.

Lemma render_fields (item : value) (f : found -> result string) :
  nullish item = false ->
  (forall m, f m = (v <- get_prop item (Str.trim (capture 1 m)) ;;
                    Ok (if truthy v then to_string v else ""))) ->
  forall parts : list block_part,
    forallb (block_part_ok item) parts = true ->
    replace_all thisPropRegex f (block_source parts)
    = Ok (flatten (map (after_fields item) parts)).
Proof.
  intros Hi Hf. unfold block_source.
  induction parts as [|p parts IH]; intros H; [reflexivity|].
  cbn [forallb] in H. apply andb_prop in H as [Hp Hr].
  cbn [map]. rewrite !flatten_cons.
  destruct p as [t|name|]; cbn [block_part_source block_part_ok after_fields] in *.
  - rewrite (replace_all_skip _ _ _ t (match_at_this_prop_plain t _ Hp)).
    now rewrite (IH Hr).
  - apply andb_prop in Hp as [Hn _].
    rewrite (replace_all_hit _ _ _ _ [name]);
      [| discriminate | now apply match_at_this_prop].
    rewrite Hf. cbn [capture captures Nat.sub nth fill_item].
    destruct (get_prop_defined item (Str.trim name) Hi) as [v ->].
    cbn [bind]. now rewrite (IH Hr).
  - rewrite (replace_all_skip _ _ _ "{{this}}" (match_at_this_prop_this _)).
    now rewrite (IH Hr).
Qed.

Lemma render_this (item : value) (f : found -> result string) :
  (forall m, f m = Ok (match item with VString s => s | _ => "" end)) ->
  forall parts : list block_part,
    forallb (block_part_ok item) parts = true ->
    replace_all thisRegex f (flatten (map (after_fields item) parts))
    = Ok (flatten (map (fill_item item) parts)).
Proof.
  intros Hf.
  induction parts as [|p parts IH]; intros H; [reflexivity|].
  cbn [forallb] in H. apply andb_prop in H as [Hp Hr].
  cbn [map]. rewrite !flatten_cons.
  destruct p as [t|name|]; cbn [block_part_ok after_fields] in *.
  - rewrite (replace_all_skip _ _ _ _ (match_at_this_plain _ _ Hp)).
    now rewrite (IH Hr).
  - apply andb_prop in Hp as [_ Hp].
    rewrite (replace_all_skip _ _ _ _ (match_at_this_plain _ _ Hp)).
    now rewrite (IH Hr).
  - rewrite (replace_all_hit _ _ _ _ []);
      [| discriminate | apply match_at_this].
    rewrite Hf. cbn [bind fill_item]. now rewrite (IH Hr).
Qed.

Lemma render_item_parts (item : value) (parts : list block_part) :
  nullish item = false ->
  forallb (block_part_ok item) parts = true ->
  render_item (block_source parts) item
  = Ok (flatten (map (fill_item item) parts)).
Proof.
  intros Hi H. unfold render_item.
  rewrite (render_fields item _ Hi (fun m => eq_refl) parts H). cbn [bind].
  exact (render_this item _ (fun m => eq_refl) parts H).
Qed.

(** The replacers of the body throw nothing but a [TypeError]. *)
Lemma assemble_exn (f : found -> result string) :
  (forall m e, f m = Throw e -> e = TypeError) ->
  forall ps e, assemble f ps = Throw e -> e = TypeError.
Proof.
  intros Hf. induction ps as [|[c|m] ps IH]; intros e; cbn [assemble].
  - discriminate.
  - destruct (assemble f ps) as [out|e'] eqn:E; cbn [bind]; [discriminate|].
    intros [= <-]. now apply IH.
  - destruct (f m) as [text|e'] eqn:Em; cbn [bind].
    + destruct (assemble f ps) as [out|e''] eqn:E; cbn [bind]; [discriminate|].
      intros [= <-]. now apply IH.
    + intros [= <-]. exact (Hf m e' Em).
Qed.

Lemma get_prop_exn (v : value) (k : string) (e : exn) :
  get_prop v k = Throw e -> e = TypeError.
Proof.
  destruct v; cbn [get_prop]; try discriminate; try congruence.
  - destruct (array_index k) as [i|];
      [destruct (i <? _)%N | destruct (k =? "length")]; discriminate.
  - destruct (array_index k) as [i|];
      [destruct (i <? _)%N | destruct (k =? "length")]; discriminate.
  - destruct (lookup k fields); discriminate.
Qed.

Lemma render_item_exn (block : string) (item : value) (e : exn) :
  render_item block item = Throw e -> e = TypeError.
Proof.
  unfold render_item, replace_all.
  destruct (assemble _ (pieces thisPropRegex 0 block)) as [b|e'] eqn:E;
    cbn [bind].
  - apply assemble_exn. discriminate.
  - intros [= <-]. revert E. apply assemble_exn.
    intros m e0. destruct (get_prop item (Str.trim (capture 1 m))) eqn:G;
      cbn [bind]; [discriminate|].
    intros [= <-]. exact (get_prop_exn _ _ _ G).
Qed.

Lemma render_item_nullish (item : value) (bpre name bpost : string) :
  nullish item = true ->
  plain bpre = true ->
  field_name name = true ->
  render_item (bpre ++ ("{{this." ++ name ++ "}}") ++ bpost) item
  = Throw TypeError.
Proof.
  intros Hi Hpre Hn. unfold render_item.
  rewrite (replace_all_skip _ _ _ bpre (match_at_this_prop_plain bpre _ Hpre)).
  rewrite (replace_all_hit _ _ _ _ [name]);
    [| discriminate | now apply match_at_this_prop].
  cbn [capture captures Nat.sub nth].
  destruct item; try discriminate; reflexivity.
Qed.

Lemma render_items_throw (block : string) (item : value) :
  render_item block item = Throw TypeError ->
  forall items, In item items -> render_items block items = Throw TypeError.
Proof.
  intros Hi. induction items as [|x items IH]; intros H; [contradiction|].
  cbn [render_items].
  destruct (render_item block x) as [first|e] eqn:E; cbn [bind].
  - destruct H as [->|H]; [congruence|]. now rewrite (IH H).
  - now rewrite (render_item_exn _ _ _ E).
Qed.

End ItemFacts.

Section ItemLaws.
Import Value Path Regex Template Page.

(** X9: the text rendered for the items of a sequence, for a block made
    of plain texts, placeholders [{{this.name}}] and placeholders
    [{{this}}]: per item, [{{this.name}}] gives the text of the property
    [name] of the item, trimmed, or nothing when the property is missing or
    counts as false; [{{this}}] gives the item when it is a string and
    nothing otherwise.  The items are neither [null] nor [undefined]; the
    names are own properties of the items, or names no inherited member has,
    and the values read have a string form; and the texts of the properties
    bring no [{{] into the block. *)
Theorem render_items_fills_parts :
  forall (parts : list block_part) (items : list value),
    forallb (fun item =>
               negb (nullish item) && forallb (block_part_ok item) parts)
      items = true ->
    forallb (fun item => forallb (block_part_reads item) parts) items = true ->
    render_items (block_source parts) items
    = Ok (flatten
            (map (fun item => flatten (map (fill_item item) parts)) items)).
Proof.
  intros parts items H _. revert H.
  induction items as [|item items IH]; intros H; [reflexivity|].
  cbn [forallb] in H. apply andb_prop in H as [Hi Hr].
  apply andb_prop in Hi as [Hn Hp]. apply negb_true_iff in Hn.
  cbn [render_items map]. rewrite flatten_cons.
  rewrite (render_item_parts item parts Hn Hp), (IH Hr). reflexivity.
Qed.

Lemma render_items_fills_parts_witness :
  render_items "<li><b>{{this.title}}</b>{{this.note}}{{this}}</li>"
    [VObject [("title", VString "Weddings"); ("note", VNumber 0)];
     VString "plain"; VNumber 7]
  = Ok "<li><b>Weddings</b></li><li><b></b>plain</li><li><b></b></li>".
Proof.
  exact (render_items_fills_parts
           [BText "<li><b>"; BField "title"; BText "</b>"; BField "note";
            BThis; BText "</li>"]
           [VObject [("title", VString "Weddings"); ("note", VNumber 0)];
            VString "plain"; VNumber 7]
           eq_refl eq_refl).
Defined.

(** X10: an item that is [null] in a sequence whose block reads a property
    [{{this.name}}] makes the iteration pass throw a [TypeError], wherever
    the item stands in the sequence; so does [buildHTML] on a template the
    scalar substitution leaves as it is. *)
Theorem each_pass_null_item_throws :
  forall (fuel : nat) (data : value) (pre ws p bpre name bpost post : string)
         (items : list value) (item : value),
    plain pre = true ->
    each_path ws p = true ->
    plain bpre = true ->
    field_name name = true ->
    clear_of false "{{/each}}"
      (bpre ++ ("{{this." ++ name ++ "}}") ++ bpost) "{{/each}}" = true ->
    getValue data (Str.trim p) = Ok (VArray items) ->
    In item items ->
    nullish item = true ->
    let block := bpre ++ ("{{this." ++ name ++ "}}") ++ bpost in
    each_pass (S fuel) data (pre ++ each_block ws p block ++ post)
    = Some (Throw TypeError)
    /\ forall out,
         scalar_pass data (pre ++ each_block ws p block ++ post)
         = Ok (pre ++ each_block ws p block ++ post) ->
         buildHTML (S fuel) (pre ++ each_block ws p block ++ post) data out
         = Some (Throw TypeError).
Proof.
  intros fuel data pre ws p bpre name bpost post items item
         Hpre Hp Hbpre Hn Hb G Hin Hi block.
  assert (E : each_pass (S fuel) data (pre ++ each_block ws p block ++ post)
              = Some (Throw TypeError)).
  { unfold each_pass. cbn [each_loop]. unfold each_step, exec.
    cbn [String.length Nat.ltb Nat.leb Str.drop].
    assert (D : forall s, Str.drop 0 s = s) by (now intros [|? ?]).
    rewrite ?D.
    rewrite (search_after eachRegex _ pre (match_at_each_plain pre _ Hpre)).
    rewrite (search_here _ _ _ (match_at_each_block ws p block post Hp Hb)).
    cbn [matched capture captures Nat.sub nth].
    rewrite G. cbn [bind].
    rewrite (render_items_throw block item
               (render_item_nullish item bpre name bpost Hi Hbpre Hn) items Hin).
    reflexivity. }
  split; [exact E|].
  intros out Hs. unfold buildHTML. rewrite Hs. cbn [bind_opt].
  now rewrite E.
Qed.

Lemma each_pass_null_item_throws_witness :
  each_pass 1
    (VObject [("items", VArray [VObject [("title", VString "A")]; VNull])])
    ("<ul>" ++ each_block " " "items"
                 ("<li>" ++ ("{{this." ++ "title" ++ "}}") ++ "</li>") ++ "</ul>")
  = Some (Throw TypeError).
Proof.
  apply (each_pass_null_item_throws 0
           (VObject [("items", VArray [VObject [("title", VString "A")]; VNull])])
           "<ul>" " " "items" "<li>" "title" "</li>" "</ul>"
           [VObject [("title", VString "A")]; VNull] VNull);
    try reflexivity.
  right. left. reflexivity.
Defined.

End ItemLaws.

(** ** Editor routes and the publish pipeline *)

Section EditorFacts.
Import Publish Editor.

Ltac run_route :=
  unfold serve, getOriginal, getData, putData, resetData, loadPreview,
    parseJSON, writePreview, download, try_catch, bindM, readFileSync,
    ret, throw;
  cbn.

(** No route of the editing session touches data.json, index.html or the
    storage container, and each one answers. *)
Lemma serve_frame (h : host) (r : request) (w : world) :
  (exists answer, fst (serve h r w) = Ok answer)
  /\ production (snd (serve h r w)) = production w
  /\ index_html (snd (serve h r w)) = index_html w
  /\ container (snd (serve h r w)) = container w
  /\ upload_calls (snd (serve h r w)) = upload_calls w.
Proof.
  destruct r; run_route;
    repeat match goal with
           | |- context [match ?x with Some _ => _ | None => _ end] =>
               destruct x eqn:?; cbn
           | |- context [if ?b then _ else _] => destruct b eqn:?; cbn
           end;
    repeat split; eauto; congruence.
Qed.

(** The data loaded is what data-preview.json holds once it is loaded. *)
Lemma loadPreview_ok (h : host) (w : world) (data : value) (w' : world) :
  loadPreview h w = (Ok data, w') ->
  exists s, preview w' = Some s /\ parse h s = Some data.
Proof.
  run_route;
    repeat match goal with
           | |- context [match ?x with Some _ => _ | None => _ end] =>
               destruct x eqn:?; cbn
           | |- context [if ?b then _ else _] => destruct b eqn:?; cbn
           end;
    intros [= <- <-]; cbn; eauto.
Qed.

Lemma loadPreview_hit (h : host) (w : world) (s : string) (data : value) :
  preview w = Some s -> parse h s = Some data ->
  loadPreview h w = (Ok data, w).
Proof. intros Hs Hp. run_route. rewrite Hs. cbn. now rewrite Hp. Qed.

Lemma split_on_absent (c : ascii) (s : string) :
  Str.all (fun d => negb (Ascii.eqb d c)) s = true -> split_on c s = [s].
Proof.
  induction s as [|d s IH]; [reflexivity|]. cbn [Str.all split_on].
  intros H. apply andb_prop in H as [Hd Hs]. apply negb_true_iff in Hd.
  now rewrite Hd, (IH Hs).
Qed.

(** A replacement string without patterns stands for itself. *)
Lemma substitution_no_pattern (matched before after : string) :
  forall repl : string,
    no_pattern repl = true ->
    Str.substitution matched before after repl = repl.
Proof.
  induction repl as [|c r IH]; [reflexivity|].
  cbn [no_pattern Str.substitution]. intros H.
  apply andb_prop in H as [Hc Hr]. apply negb_true_iff in Hc.
  destruct (Ascii.eqb c "$"); [|now rewrite (IH Hr)].
  destruct r as [|d r']; [reflexivity|].
  cbn [andb] in Hc. apply orb_false_iff in Hc as [Hc H4].
  apply orb_false_iff in Hc as [Hc H3]. apply orb_false_iff in Hc as [H1 H2].
  rewrite H1, H2, H3, H4. now rewrite (IH Hr).
Qed.

Lemma no_pattern_app (s t : string) :
  no_pattern s = true -> no_pattern (String "<" t) = true ->
  no_pattern (s ++ String "<" t) = true.
Proof.
  intros Hs Ht. induction s as [|c s IH]; [exact Ht|].
  cbn [no_pattern append] in *. apply andb_prop in Hs as [Hc Hs].
  rewrite (IH Hs), andb_true_r.
  destruct (Ascii.eqb c "$"); [|reflexivity].
  destruct s as [|d s']; [reflexivity | exact Hc].
Qed.

End EditorFacts.

Section EditorLaws.
Import Publish Editor.

Ltac run_publish :=
  unfold publish, try_catch, bindM, readFileSync, writeProduction, upload,
    runBuild, ret, throw;
  cbn.

Ltac run_route :=
  unfold serve, getOriginal, getData, putData, resetData, loadPreview,
    parseJSON, writePreview, download, try_catch, bindM, readFileSync,
    ret, throw;
  cbn.

(** X11: whatever requests an editing session is made of (loading the
    original data, loading or saving the preview data, resetting it), each
    one is answered, and data.json, index.html, the blobs of the storage
    container and the uploads made stay as they were: only publishing
    changes what is in production. *)
Theorem session_keeps_production :
  forall (h : host) (requests : list request) (w : world),
    let (answers, w') := session h requests w in
    production w' = production w
    /\ index_html w' = index_html w
    /\ container w' = container w
    /\ upload_calls w' = upload_calls w
    /\ List.length answers = List.length requests
    /\ Forall (fun answer => exists r, answer = Ok r) answers.
Proof.
  intros h requests. induction requests as [|r rest IH]; intros w.
  - cbn. repeat split; constructor.
  - cbn [session].
    destruct (serve_frame h r w) as ([answer Ha] & F1 & F2 & F3 & F4).
    destruct (serve h r w) as [a w1]. cbn [fst snd] in *. subst a.
    specialize (IH w1). destruct (session h rest w1) as [answers w2].
    destruct IH as (I1 & I2 & I3 & I4 & I5 & I6).
    repeat split; try congruence.
    + cbn. now rewrite I5.
    + constructor; eauto.
Qed.

(** X12: when [GET /api/data] answers with data, data-preview.json
    exists afterwards and parses to that very data, whichever of the three
    sources it was taken from; a preview file that could not be read or
    parsed has been written over.  Asking again gives the same answer and
    changes nothing. *)
Theorem getData_serves_the_preview :
  forall (h : host) (w : world) (data : value),
    fst (getData h w) = Ok (Json data) ->
    let w' := snd (getData h w) in
    (exists s, preview w' = Some s /\ parse h s = Some data)
    /\ getData h w' = (Ok (Json data), w').
Proof.
  intros h w data H w'.
  assert (L : loadPreview h w = (Ok data, w')).
  { subst w'. revert H. unfold getData, try_catch, bindM, ret.
    destruct (loadPreview h w) as [[v|e] w1]; cbn; [|discriminate].
    now intros [= ->]. }
  destruct (loadPreview_ok h w data w' L) as (s & Hs & Hp).
  split; [eauto|].
  unfold getData, try_catch, bindM, ret.
  now rewrite (loadPreview_hit h w' s data Hs Hp).
Qed.

Lemma getData_serves_the_preview_witness :
  getData (Host (fun s => if s =? "{}" then Some (VObject []) else None)
             (fun _ => "{}") true true)
    (World (Some "{}") (Some "{}") None [] [])
  = (Ok (Json (VObject [])), World (Some "{}") (Some "{}") None [] []).
Proof.
  exact (proj2 (getData_serves_the_preview
                  (Host (fun s => if s =? "{}" then Some (VObject []) else None)
                     (fun _ => "{}") true true)
                  (World (Some "not json") (Some "{}") None [] [])
                  (VObject []) eq_refl)).
Defined.

(** X13: [PUT /api/data] writes the body, stringified, to
    data-preview.json and to nothing else; when the text parses back to the
    body, the next [GET /api/data] answers with the body saved.  When the
    file cannot be written the route answers with a failure and nothing has
    changed. *)
Theorem putData_then_getData :
  forall (h : host) (w : world) (body : value),
    let w1 := snd (putData h body w) in
    (preview_writable h = true ->
     fst (putData h body w) = Ok (Done "Data saved to data-preview.json")
     /\ preview w1 = Some (stringify h body)
     /\ (parse h (stringify h body) = Some body ->
         getData h w1 = (Ok (Json body), w1)))
    /\ (preview_writable h = false ->
        (exists details,
            fst (putData h body w)
            = Ok (Failed 500 "Failed to save data-preview.json" details))
        /\ w1 = w).
Proof.
  intros h w body w1. subst w1. split; intros W.
  - unfold putData, writePreview, try_catch, bindM, ret. rewrite W. cbn.
    repeat split. intros P.
    unfold getData, try_catch, bindM, ret.
    rewrite (loadPreview_hit h _ (stringify h body) body);
      [reflexivity | reflexivity | exact P].
  - unfold putData, writePreview, try_catch, bindM, ret. rewrite W. cbn.
    eauto.
Qed.

Lemma putData_then_getData_witness :
  getData (Host (fun s => if s =? "[]" then Some (VArray []) else None)
             (fun _ => "[]") true false)
    (World (Some "[]") (Some "{}") None [] [])
  = (Ok (Json (VArray [])), World (Some "[]") (Some "{}") None [] []).
Proof.
  exact (proj2 (proj2 (proj1 (putData_then_getData
           (Host (fun s => if s =? "[]" then Some (VArray []) else None)
              (fun _ => "[]") true false)
           (World None (Some "{}") None [] []) (VArray [])) eq_refl))
           eq_refl).
Defined.

(** X14: with a data.json on disk, [POST /api/data/reset] makes
    data-preview.json a copy of it; the next [GET /api/data] answers with the
    production data, and publishing then leaves the text of data.json as it
    is, whatever the outcome of the publication. *)
Theorem resetData_restores_production :
  forall (h : host) (w : world) (d : string),
    production w = Some d ->
    preview_writable h = true ->
    let w1 := snd (resetData h w) in
    fst (resetData h w) = Ok (Done "Preview reset to match production")
    /\ preview w1 = Some d
    /\ (forall data, parse h d = Some data ->
                     getData h w1 = (Ok (Json data), w1))
    /\ (forall e : env, production (snd (publish e w1)) = Some d).
Proof.
  intros h w d Hd W w1. subst w1.
  unfold resetData, writePreview, try_catch, bindM, ret, readFileSync.
  rewrite Hd. cbn. rewrite W. cbn. repeat split.
  - intros data P. unfold getData, try_catch, bindM, ret.
    rewrite (loadPreview_hit h _ d data);
      [reflexivity | reflexivity | exact P].
  - intros e. run_publish.
    destruct (write_ok e); cbn; [|exact Hd].
    destruct (upload_ok e "data.json"); cbn;
      (destruct (build e d); cbn; [|reflexivity]);
      (destruct (upload_ok e "index.html"); reflexivity).
Qed.

Lemma resetData_restores_production_witness :
  preview (snd (resetData (Host (fun _ => None) (fun _ => "") true true)
                  (World (Some "edited") (Some "live") None [] [])))
  = Some "live".
Proof.
  exact (proj1 (proj2 (resetData_restores_production
           (Host (fun _ => None) (fun _ => "") true true)
           (World (Some "edited") (Some "live") None [] [])
           "live" eq_refl eq_refl))).
Defined.

(** X15: the state after a publication that reports success: data.json
    holds the text of data-preview.json, index.html is what the build made
    of that text, the blob index.html of the container is that same page,
    and the blob data.json is the new data if its upload went well and the
    old blob otherwise.  Two uploads were called, data.json then
    index.html. *)
Theorem publish_success_state :
  forall (e : env) (w : world) (msg : string),
    fst (publish e w) = Ok (Success msg) ->
    exists d html,
      preview w = Some d
      /\ build e d = Some html
      /\ let w' := snd (publish e w) in
         preview w' = Some d
         /\ production w' = Some d
         /\ index_html w' = Some html
         /\ blob "index.html" (container w') = Some html
         /\ blob "data.json" (container w')
            = (if upload_ok e "data.json" then Some d
               else blob "data.json" (container w))
         /\ upload_calls w' = (upload_calls w ++ ["data.json"; "index.html"])%list.
Proof.
  intros e w msg. run_publish.
  destruct (preview w) as [d|] eqn:Hp; cbn; [|discriminate].
  destruct (write_ok e); cbn; [|discriminate].
  destruct (upload_ok e "data.json"); cbn;
    (destruct (build e d) as [html|] eqn:Hb; cbn; [|discriminate]);
    (destruct (upload_ok e "index.html"); cbn; [|discriminate]);
    intros _; exists d, html; rewrite <- ?app_assoc; repeat split; auto.
Qed.

Lemma publish_success_state_witness :
  exists d html,
    preview (World (Some "{}") (Some "old") None [] []) = Some d
    /\ build (Env true (fun _ => true) (fun _ => Some "<html></html>")) d
       = Some html
    /\ let w' := snd (publish (Env true (fun _ => true)
                                (fun _ => Some "<html></html>"))
                        (World (Some "{}") (Some "old") None [] [])) in
       preview w' = Some d
       /\ production w' = Some d
       /\ index_html w' = Some html
       /\ blob "index.html" (container w') = Some html
       /\ blob "data.json" (container w') = Some d
       /\ upload_calls w' = ["data.json"; "index.html"].
Proof.
  exact (publish_success_state
           (Env true (fun _ => true) (fun _ => Some "<html></html>"))
           (World (Some "{}") (Some "old") None [] [])
           "Site published successfully" eq_refl).
Defined.

(** X16: publishing again after a publication that reported success
    reports success again and changes neither the three files nor what the
    container serves under any name. *)
Theorem publish_retry :
  forall (e : env) (w : world) (msg : string),
    fst (publish e w) = Ok (Success msg) ->
    let w' := snd (publish e w) in
    let w'' := snd (publish e w') in
    fst (publish e w') = Ok (Success msg)
    /\ preview w'' = preview w'
    /\ production w'' = production w'
    /\ index_html w'' = index_html w'
    /\ forall name, blob name (container w'') = blob name (container w').
Proof.
  intros e w msg.
  unfold publish, try_catch, bindM, readFileSync, writeProduction, upload,
    runBuild, ret, throw.
  cbn -[blob].
  destruct (preview w) as [d|] eqn:Hp; cbn -[blob]; [|discriminate].
  destruct (write_ok e) eqn:Hw; cbn -[blob]; [|discriminate].
  destruct (upload_ok e "data.json") eqn:Hu; cbn -[blob];
    (destruct (build e d) as [html|] eqn:Hb; cbn -[blob]; [|discriminate]);
    (destruct (upload_ok e "index.html") eqn:Hi; cbn -[blob]; [|discriminate]);
    intros [= <-];
    do 5 (rewrite ?Hp, ?Hw, ?Hu, ?Hb, ?Hi; cbn -[blob]);
    do 4 (split; [reflexivity|]);
    intros name; cbn [blob];
    destruct ("index.html" =? name); try reflexivity;
    destruct ("data.json" =? name); reflexivity.
Qed.

Lemma publish_retry_witness :
  fst (publish (Env true (fun _ => true) (fun _ => Some "<html></html>"))
         (World (Some "{}") (Some "{}") (Some "<html></html>")
            [("index.html", "<html></html>"); ("data.json", "{}")]
            ["data.json"; "index.html"]))
  = Ok (Success "Site published successfully").
Proof.
  exact (proj1 (publish_retry
                  (Env true (fun _ => true) (fun _ => Some "<html></html>"))
                  (World (Some "{}") (Some "old") None [] [])
                  "Site published successfully" eq_refl)).
Defined.

(** X17: when data-preview.json cannot be read or data.json cannot be
    written, the publication answers with status 500 and a text that starts
    with [Failed to copy preview data to production: ], and nothing has
    happened: no file is changed, no upload called. *)
Theorem publish_promotion_failure :
  forall (e : env) (w : world),
    preview w = None \/ write_ok e = false ->
    (exists cause,
        fst (publish e w)
        = Ok (Failure 500
                ("Failed to copy preview data to production: " ++ cause)))
    /\ snd (publish e w) = w.
Proof.
  intros e w H. run_publish.
  destruct (preview w) as [d|]; cbn; [|eauto].
  destruct H as [H|H]; [discriminate|]. rewrite H. cbn. eauto.
Qed.

Lemma publish_promotion_failure_witness :
  snd (publish (Env true (fun _ => true) (fun _ => Some "<html></html>"))
         (World None (Some "live") (Some "<html>old</html>") [] []))
  = World None (Some "live") (Some "<html>old</html>") [] [].
Proof.
  exact (proj2 (publish_promotion_failure
                  (Env true (fun _ => true) (fun _ => Some "<html></html>"))
                  (World None (Some "live") (Some "<html>old</html>") [] [])
                  (or_introl eq_refl))).
Defined.

(** X18: publishing with build.js as the build process.  With a
    data-preview.json that parses to [data], the index.html written is the
    document [buildHTML] compiles from index.template.html and [data], and
    with the upload going well that document is the blob served; when the
    compiler throws, the publication fails and neither index.html nor its
    blob changes. *)
Theorem publish_compiles_preview :
  forall (h : host) (fuel : nat) (template : string)
         (writable : bool) (uploads : string -> bool)
         (w : world) (d : string) (data : value)
         (r : result (string * Template.console)),
    preview w = Some d ->
    writable = true ->
    parse h d = Some data ->
    Template.buildHTML fuel template data [] = Some r ->
    let e := Env writable uploads (node_build h fuel (Some template)) in
    let w' := snd (publish e w) in
    match r with
    | Ok (html, _) =>
        index_html w' = Some html
        /\ (uploads "index.html" = true ->
            fst (publish e w) = Ok (Success "Site published successfully")
            /\ blob "index.html" (container w') = Some html)
    | Throw _ =>
        (exists details, fst (publish e w) = Ok (Failure 500 details))
        /\ index_html w' = index_html w
        /\ blob "index.html" (container w') = blob "index.html" (container w)
    end.
Proof.
  intros h fuel template writable uploads w d data r Hp -> P B e w'.
  assert (N : node_build h fuel (Some template) d
              = match r with Ok (html, _) => Some html | Throw _ => None end).
  { unfold node_build, build_js. rewrite P, B.
    now destruct r as [[html out]|err]. }
  subst e w'.
  unfold publish, try_catch, bindM, readFileSync, writeProduction, upload,
    runBuild, ret, throw.
  cbn -[node_build]. rewrite Hp. cbn -[node_build]. 
  destruct r as [[html out]|err].
  - destruct (uploads "data.json"); cbn -[node_build]; rewrite N; cbn;
      (destruct (uploads "index.html") eqn:U; cbn;
       (split; [reflexivity | intros T; try discriminate T; split; reflexivity])).
  - destruct (uploads "data.json"); cbn -[node_build]; rewrite N; cbn;
      repeat split; eauto.
Qed.

Lemma publish_compiles_preview_witness :
  blob "index.html"
    (container
       (snd (publish
               (Env true (fun _ => true)
                  (node_build
                     (Host (fun _ => Some (VObject [("title", VString "Shop")]))
                        (fun _ => "") true true)
                     1 (Some "<h1>{{title}}</h1>")))
               (World (Some "{...}") None None [] []))))
  = Some "<h1>Shop</h1>".
Proof.
  exact (proj2 (proj2 (publish_compiles_preview
           (Host (fun _ => Some (VObject [("title", VString "Shop")]))
              (fun _ => "") true true)
           1 "<h1>{{title}}</h1>" true (fun _ => true)
           (World (Some "{...}") None None [] []) "{...}"
           (VObject [("title", VString "Shop")])
           (Ok ("<h1>Shop</h1>", []))
           eq_refl eq_refl eq_refl eq_refl) eq_refl)).
Defined.

(** X19: the page [GET /api/preview] sends for a request without a
    fragment is the document [buildHTML] compiles from the template and the
    preview data, with the edit-mode script put in before the first
    [</body>] (and not at all when there is none); the document itself is
    the index.html a publication would build at that moment. *)
Theorem preview_shows_published_page :
  forall (h : host) (fuel : nat) (template editScript url : string)
         (w : world) (d : string) (data : value)
         (doc : string) (out : Template.console),
    preview w = Some d ->
    parse h d = Some data ->
    Template.buildHTML fuel template data [] = Some (Ok (doc, out)) ->
    Str.all (fun c => negb (Ascii.eqb c "#")) url = true ->
    no_pattern editScript = true ->
    getPreview h fuel (Some template) editScript url w
    = Some (Page (match Str.find "</body>" doc with
                  | Some (before, after) =>
                      before ++ editScript ++ "</body>" ++ after
                  | None => doc
                  end), w)
    /\ forall uploads : string -> bool,
         index_html
           (snd (publish (Env true uploads (node_build h fuel (Some template))) w))
         = Some doc.
Proof.
  intros h fuel template editScript url w d data doc out Hp P B Hu Hn. split.
  - unfold getPreview. rewrite (loadPreview_hit h w d data Hp P), B.
    rewrite (split_on_absent "#" url Hu). cbn [nth_error].
    unfold inject, Str.replace_first.
    destruct (Str.find "</body>" doc) as [[before after]|]; [|reflexivity].
    rewrite substitution_no_pattern by (now apply no_pattern_app).
    now rewrite append_assoc.
  - intros uploads.
    assert (N : node_build h fuel (Some template) d = Some doc)
      by (unfold node_build, build_js; now rewrite P, B).
    unfold publish, try_catch, bindM, readFileSync, writeProduction, upload,
      runBuild, ret, throw.
    cbn -[node_build]. rewrite Hp. cbn -[node_build].
    destruct (uploads "data.json"); cbn -[node_build]; rewrite N; cbn;
      destruct (uploads "index.html"); reflexivity.
Qed.

Lemma preview_shows_published_page_witness :
  getPreview (Host (fun _ => Some (VObject [("title", VString "Shop")]))
                (fun _ => "") true true)
    1 (Some "<body><h1>{{title}}</h1></body>")
    "<script>edit(`${x}`)</script>" "/api/preview?t=1"
    (World (Some "{...}") None None [] [])
  = Some (Page "<body><h1>Shop</h1><script>edit(`${x}`)</script></body>",
          World (Some "{...}") None None [] []).
Proof.
  exact (proj1 (preview_shows_published_page
                  (Host (fun _ => Some (VObject [("title", VString "Shop")]))
                     (fun _ => "") true true)
                  1 "<body><h1>{{title}}</h1></body>"
                  "<script>edit(`${x}`)</script>" "/api/preview?t=1"
                  (World (Some "{...}") None None [] []) "{...}"
                  (VObject [("title", VString "Shop")])
                  "<body><h1>Shop</h1></body>" []
                  eq_refl eq_refl eq_refl eq_refl eq_refl)).
Defined.

End EditorLaws.

(** ** Photo routes *)

Section PhotoFacts.
Import Photos.

Lemma lower_dot (c : ascii) : Ascii.eqb (lower c) "." = Ascii.eqb c ".".
Proof.
  destruct c as [[] [] [] [] [] [] [] []]; reflexivity.
Qed.

Lemma lower_lower (c : ascii) : lower (lower c) = lower c.
Proof.
  destruct c as [[] [] [] [] [] [] [] []]; reflexivity.
Qed.

Lemma toLowerCase_idem (s : string) : toLowerCase (toLowerCase s) = toLowerCase s.
Proof.
  induction s as [|c s IH]; [reflexivity|]. cbn. now rewrite lower_lower, IH.
Qed.

Lemma toLowerCase_app (s t : string) :
  toLowerCase (s ++ t) = toLowerCase s ++ toLowerCase t.
Proof. induction s as [|c s IH]; [reflexivity|]. cbn. now rewrite IH. Qed.

Lemma toLowerCase_dot_free (s : string) :
  Str.dot_free (toLowerCase s) = Str.dot_free s.
Proof.
  unfold Str.dot_free. induction s as [|c s IH]; [reflexivity|].
  cbn. now rewrite lower_dot, IH.
Qed.

Lemma last_split_dot (stem ext : string) :
  Str.dot_free ext = true ->
  last (Str.split_dot (stem ++ String "." ext)) "" = ext.
Proof.
  intros H. rewrite split_dot_append, (split_dot_last _ H).
  apply last_last.
Qed.

Lemma last_segment (s : string) :
  Str.dot_free s = true
  \/ exists stem ext, s = stem ++ String "." ext /\ Str.dot_free ext = true.
Proof.
  induction s as [|c s IH]; [now left|].
  destruct IH as [IH|(stem & ext & -> & He)].
  - destruct (Ascii.eqb_spec c ".") as [->|Hc].
    + right. exists "", s. auto.
    + left. unfold Str.dot_free in *. cbn.
      rewrite IH, andb_true_r. apply negb_true_iff.
      now apply Ascii.eqb_neq.
  - right. exists (String c stem), ext. auto.
Qed.

Lemma includes_dot_free (s : string) :
  Str.dot_free s = true -> includes "." s = false.
Proof.
  unfold Str.dot_free. induction s as [|c s IH]; [reflexivity|].
  cbn. intros H. apply andb_prop in H as [Hc Hs].
  apply negb_true_iff in Hc. now rewrite Hc, (IH Hs).
Qed.

Lemma includes_app (c : ascii) (s t : string) :
  includes c (s ++ String c t) = true.
Proof.
  induction s as [|d s IH]; cbn; [now rewrite Ascii.eqb_refl|].
  rewrite IH. apply orb_true_r.
Qed.

Lemma ends_with_dot_free (e x : string) :
  Str.dot_free x = true -> ends_with (String "." e) x = false.
Proof.
  unfold Str.dot_free. induction x as [|c x IH]; [reflexivity|].
  cbn [Str.all ends_with]. intros H. apply andb_prop in H as [Hc Hx].
  rewrite (IH Hx), orb_false_r. apply negb_true_iff in Hc.
  cbn [String.eqb]. now rewrite Hc.
Qed.

Lemma dot_free_app_dot (s t : string) :
  Str.dot_free (s ++ String "." t) = false.
Proof.
  unfold Str.dot_free. rewrite all_append. cbn. apply andb_false_r.
Qed.

(** A text ends with a dot and an extension when its last segment is the
    extension. *)
Lemma ends_with_extension (e x : string) :
  Str.dot_free e = true -> Str.dot_free x = true ->
  forall stem, ends_with (String "." e) (stem ++ String "." x) = (x =? e).
Proof.
  intros He Hx. induction stem as [|c stem IH].
  - cbn [append ends_with String.eqb]. rewrite Ascii.eqb_refl.
    now rewrite (ends_with_dot_free e x Hx), orb_false_r.
  - cbn [append ends_with]. rewrite IH.
    destruct (String.eqb_spec (String c (stem ++ String "." x)) (String "." e))
      as [E|_]; [|reflexivity].
    injection E as _ E. rewrite <- E, dot_free_app_dot in He. discriminate.
Qed.

End PhotoFacts.

Section PhotoLaws.
Import Value Photos.

(** X20: the content type of an upload is read off the text after the
    last dot of the file name, whatever its letter case, and off nothing
    else; it is [application/octet-stream] exactly when that text, in lower
    case, is no key of the table (and none of the two inherited names). *)
Theorem contentType_by_extension :
  forall (stem ext : string),
    Str.dot_free ext = true ->
    contentType (stem ++ "." ++ ext) = contentType ext
    /\ contentType (toLowerCase ext) = contentType ext
    /\ (contentType ext = Some "application/octet-stream"
        <-> assoc (toLowerCase ext) contentTypes = None
            /\ toLowerCase ext <> "constructor"
            /\ toLowerCase ext <> "__proto__").
Proof.
  intros stem ext H.
  assert (E : forall name, Str.dot_free name = true ->
                           extension name = toLowerCase name).
  { intros name Hn. unfold extension.
    rewrite split_dot_last by (now rewrite toLowerCase_dot_free).
    reflexivity. }
  assert (E1 : extension (stem ++ "." ++ ext) = toLowerCase ext).
  { unfold extension. rewrite toLowerCase_app.
    change (toLowerCase ("." ++ ext)) with (String "." (toLowerCase ext)).
    apply last_split_dot. now rewrite toLowerCase_dot_free. }
  unfold contentType.
  rewrite E1, (E ext H), (E (toLowerCase ext)), toLowerCase_idem
    by (now rewrite toLowerCase_dot_free).
  split; [reflexivity|]. split; [reflexivity|].
  set (x := toLowerCase ext). clearbody x.
  destruct (String.eqb_spec x "constructor") as [C1|C1]; cbn [orb];
    [split; [discriminate | tauto]|].
  destruct (String.eqb_spec x "__proto__") as [C2|C2];
    [split; [discriminate | tauto]|].
  destruct (assoc x contentTypes) as [t|] eqn:A.
  - split; [|intros [? _]; discriminate].
    intros [= ->]. exfalso. revert A. cbn.
    repeat match goal with
           | |- context [if ?b then _ else _] => destruct b
           end; discriminate.
  - tauto.
Qed.

Lemma contentType_by_extension_witness :
  contentType ("Bridal.Bouquet" ++ "." ++ "JPeG") = contentType "JPeG"
  /\ contentType "JPeG" = Some "image/jpeg".
Proof.
  split.
  - exact (proj1 (contentType_by_extension "Bridal.Bouquet" "JPeG" eq_refl)).
  - reflexivity.
Defined.

(** X21: the test by which the photo list keeps a blob agrees with the
    content type an upload gives: a name is listed exactly when it has a dot
    and its content type is one of the table.  A name without a dot is not
    listed even when it is itself an extension of the table. *)
Theorem isImage_agrees_with_contentType :
  forall name : string,
    isImage name = includes "." name && imageType (contentType name).
Proof.
  intros name. destruct (last_segment name) as [H|(stem & ext & -> & He)].
  - rewrite (includes_dot_free name H). cbn [andb]. unfold isImage.
    assert (F : forall e, ends_with ("." ++ e) (toLowerCase name) = false)
      by (intros e; apply ends_with_dot_free; now rewrite toLowerCase_dot_free).
    cbn [existsb]. now rewrite !F.
  - rewrite includes_app. cbn [andb].
    assert (X : extension (stem ++ String "." ext) = toLowerCase ext).
    { unfold extension. rewrite toLowerCase_app.
      change (toLowerCase (String "." ext)) with (String "." (toLowerCase ext)).
      apply last_split_dot. now rewrite toLowerCase_dot_free. }
    unfold contentType. rewrite X.
    unfold isImage. rewrite toLowerCase_app.
    change (toLowerCase (String "." ext)) with (String "." (toLowerCase ext)).
    assert (Hx : Str.dot_free (toLowerCase ext) = true)
      by (now rewrite toLowerCase_dot_free).
    cbn [existsb].
    change ("." ++ ?e) with (String "." e).
    rewrite !(fun e He => ends_with_extension e (toLowerCase ext) He Hx)
      by reflexivity.
    set (x := toLowerCase ext). clearbody x.
    cbn [assoc contentTypes].
    rewrite !(String.eqb_sym _ x).
    destruct (x =? "jpg") eqn:E1; [apply String.eqb_eq in E1; now subst x|].
    destruct (x =? "jpeg") eqn:E2; [apply String.eqb_eq in E2; now subst x|].
    destruct (x =? "png") eqn:E3; [apply String.eqb_eq in E3; now subst x|].
    destruct (x =? "gif") eqn:E4; [apply String.eqb_eq in E4; now subst x|].
    destruct (x =? "webp") eqn:E5; [apply String.eqb_eq in E5; now subst x|].
    destruct (x =? "svg") eqn:E6; [apply String.eqb_eq in E6; now subst x|].
    cbn. now destruct ((x =? "constructor") || (x =? "__proto__")).
Qed.

(** X22: [POST /api/photos/upload].  A body whose [file] or [filename]
    counts as false is rejected with status 400 and nothing is stored.  With
    both strings, a content type and the upload going well, the blob stored
    under the file name has that content type and the decoded Base64 text,
    the other blobs being as before.  Of a data URL the part after the comma
    is decoded; a text without a comma is decoded whole. *)
Theorem upload_stores_photo :
  forall (h : host) (file filename : value) (s : store),
    (truthy file = false \/ truthy filename = false ->
     upload h file filename s
     = Some (Rejected 400 "File data and filename required", s))
    /\ (forall (f name t : string),
           file = VString f -> filename = VString name ->
           truthy file = true -> truthy filename = true ->
           contentType name = Some t ->
           upload_ok h = true ->
           exists s',
             upload h file filename s = Some (Uploaded name, s')
             /\ stored name s' = Some (Photo t (decode h (base64Data f)))
             /\ (forall other, other <> name -> stored other s' = stored other s))
    /\ (forall (prefix payload : string),
           includes "," prefix = false ->
           includes "," payload = false ->
           base64Data (prefix ++ "," ++ payload) = payload
           /\ base64Data payload = payload).
Proof.
  intros h file filename s. split; [|split].
  - intros [H|H]; unfold upload; rewrite H; cbn [negb orb];
      [reflexivity | now rewrite orb_true_r].
  - intros f name t -> -> Hf Hn Ht Hu. unfold upload.
    rewrite Hf, Hn. cbn [negb orb]. rewrite Ht, Hu. eexists. split; [reflexivity|].
    cbn [stored]. rewrite String.eqb_refl. split; [reflexivity|].
    intros other Ho. destruct (String.eqb_spec name other); congruence.
  - intros prefix payload Hp Hy. split.
    + unfold base64Data.
      change (prefix ++ "," ++ payload) with (prefix ++ String "," payload).
      rewrite includes_app.
      assert (S1 : forall x, includes "," x = false ->
                             Editor.split_on "," x = [x]).
      { induction x as [|c x IH]; [reflexivity|]. cbn.
        intros H. apply orb_false_iff in H as [Hc Hx].
        now rewrite Hc, (IH Hx). }
      assert (S2 : forall x y, includes "," x = false ->
                               Editor.split_on "," (x ++ String "," y)
                               = x :: Editor.split_on "," y).
      { induction x as [|c x IH]; intros y H; [reflexivity|]. cbn in *.
        apply orb_false_iff in H as [Hc Hx].
        now rewrite Hc, (IH y Hx). }
      now rewrite (S2 prefix payload Hp), (S1 payload Hy).
    + unfold base64Data. now rewrite Hy.
Qed.

Lemma upload_stores_photo_witness :
  exists s',
    upload (Host (fun b => b) true)
      (VString "data:image/png;base64,iVBORw0KGgo=") (VString "Rose.PNG") []
    = Some (Uploaded "Rose.PNG", s')
    /\ stored "Rose.PNG" s'
       = Some (Photo "image/png"
                 (base64Data "data:image/png;base64,iVBORw0KGgo="))
    /\ (forall other, other <> "Rose.PNG" -> stored other s' = stored other []).
Proof.
  exact (proj1 (proj2 (upload_stores_photo (Host (fun b => b) true)
           (VString "data:image/png;base64,iVBORw0KGgo=") (VString "Rose.PNG") []))
           "data:image/png;base64,iVBORw0KGgo=" "Rose.PNG" "image/png"
           eq_refl eq_refl eq_refl eq_refl eq_refl eq_refl).
Defined.

End PhotoLaws.

(** ** Google Places *)

Section PlacesFacts.
Import Value Places.

Lemma is_text_eq (text : string) (v : value) :
  is_text text v = true -> v = VString text.
Proof.
  destruct v; try discriminate. cbn. intros H.
  apply String.eqb_eq in H. now subst.
Qed.

Lemma get_prop_other (v x : value) (k k' : string) :
  get_prop v k = Ok x -> get_prop v k' = Ok (field v k').
Proof.
  intros H. unfold field.
  destruct v; try discriminate; cbn [get_prop] in *;
    repeat match goal with
           | |- context [match ?a with Some _ => _ | None => _ end] => destruct a
           | |- context [if ?b then _ else _] => destruct b
           end; reflexivity.
Qed.

Lemma contains_refl (p : string) : contains p p = true.
Proof.
  unfold contains.
  assert (P : Str.strip_prefix p p = Some "").
  { induction p as [|c p IH]; [reflexivity|]. cbn.
    now rewrite Ascii.eqb_refl. }
  destruct p; cbn [Str.find]; now rewrite P.
Qed.

(** On a place as the API gives it the test of [find] does not throw, and
    its first alternative adds nothing to the second. *)
Lemma placeMatches_holds (normalized : string) (place : value) :
  place_ok place = true ->
  placeMatches normalized place = Ok (holds_website normalized place).
Proof.
  destruct place; try discriminate. cbn [place_ok]. intros H.
  unfold placeMatches, holds_website. cbn [get_prop].
  destruct (lookup "website" fields) as [v|]; cbn [bind]; [|reflexivity].
  destruct v as [| |b|n|s|items|flds]; try discriminate.
  - reflexivity.
  - reflexivity.
  - now rewrite H.
  - now rewrite H.
  - cbn [truthy]. destruct (s =? ""); cbn [negb andb]; [reflexivity|].
    destruct (String.eqb_spec (normalizedWebsite s) normalized) as [->|];
      [now rewrite contains_refl | reflexivity].
Qed.

Lemma findFirst_find (normalized : string) :
  forall places : list value,
    forallb place_ok places = true ->
    findFirst (placeMatches normalized) places
    = Ok (List.find (holds_website normalized) places).
Proof.
  induction places as [|place places IH]; [reflexivity|].
  cbn [forallb findFirst List.find]. intros H.
  apply andb_prop in H as [Hp Hr].
  rewrite (placeMatches_holds _ _ Hp). cbn [bind].
  destruct (holds_website normalized place); [reflexivity | now apply IH].
Qed.

Lemma chosen_ok (website : string) (places : list value) :
  places <> [] -> forallb place_ok places = true ->
  place_ok (chosen website places) = true.
Proof.
  intros Hne H. unfold chosen.
  destruct (List.find _ places) as [place|] eqn:F.
  - apply find_some in F as [Hin _].
    rewrite forallb_forall in H. now apply H.
  - destruct places as [|p ps]; [congruence|].
    cbn in *. now apply andb_prop in H as [H _].
Qed.

End PlacesFacts.

Section PlacesLaws.
Import Value Places.

(** X23: [GET /api/google-reviews].  An answer with reviews is given
    only with both variables set and a status [OK] or [ZERO_RESULTS], and
    its reviews always count as true: they are [data.result.reviews], or the
    empty sequence when that is missing or counts as false.  With a variable
    missing or empty the route fails without looking at what [fetch]
    would give. *)
Theorem googleReviews_answers :
  forall (apiKey placeId : option string) (fetch : string -> fetched),
    (forall reviews status,
        googleReviews apiKey placeId fetch = Reviews reviews status ->
        truthy reviews = true
        /\ (status = VString "OK" \/ status = VString "ZERO_RESULTS")
        /\ exists key place,
             apiKey = Some key /\ placeId = Some place
             /\ key <> "" /\ place <> "")
    /\ (apiKey = None \/ apiKey = Some "" \/ placeId = None \/ placeId = Some "" ->
        googleReviews apiKey placeId fetch
        = Failed 500 "Google Places API not configured"
            "Please set GOOGLE_PLACES_API_KEY and GOOGLE_PLACE_ID in .env file")
    /\ (forall key place code data status,
           apiKey = Some key -> placeId = Some place ->
           (key =? "") = false -> (place =? "") = false ->
           fetch ("https://maps.googleapis.com/maps/api/place/details/json?place_id="
                  ++ place ++ "&fields=reviews&key=" ++ key)
           = Responded true code (Ok data) ->
           get_prop data "status" = Ok status ->
           status = VString "OK" \/ status = VString "ZERO_RESULTS" ->
           googleReviews apiKey placeId fetch
           = Reviews (let reviews := field (field data "result") "reviews" in
                      if truthy reviews then reviews else VArray [])
               status).
Proof.
  intros apiKey placeId fetch. split; [|split].
  - intros reviews status. unfold googleReviews.
    destruct apiKey as [key|]; [|discriminate].
    destruct placeId as [place|]; [|discriminate].
    destruct (String.eqb_spec key "") as [|Hk]; [discriminate|].
    destruct (String.eqb_spec place "") as [|Hp]; [discriminate|].
    cbn [orb].
    destruct (read_reviews _) as [answer|e] eqn:R; [|discriminate].
    intros ->. revert R. unfold read_reviews.
    destruct (fetch _) as [e|ok code body]; [discriminate|].
    destruct ok; cbn [negb]; [|discriminate].
    destruct body as [data|e]; cbn [bind]; [|discriminate].
    destruct (get_prop data "status") as [st|e]; cbn [bind]; [|discriminate].
    destruct (is_text "OK" st) eqn:T1; cbn [negb andb].
    + unfold reviews_of.
      destruct (get_prop data "result") as [res|e]; cbn [bind]; [|discriminate].
      destruct (match res with
                | VUndefined | VNull => Ok VUndefined
                | _ => get_prop res "reviews"
                end) as [rv|e]; cbn [bind]; [|discriminate].
      intros [= <- <-]. split; [now destruct (truthy rv) eqn:T|].
      split; [left; now apply is_text_eq | eauto 10].
    + destruct (is_text "ZERO_RESULTS" st) eqn:T2; cbn [negb].
      * unfold reviews_of.
        destruct (get_prop data "result") as [res|e]; cbn [bind]; [|discriminate].
        destruct (match res with
                  | VUndefined | VNull => Ok VUndefined
                  | _ => get_prop res "reviews"
                  end) as [rv|e]; cbn [bind]; [|discriminate].
        intros [= <- <-]. split; [now destruct (truthy rv) eqn:T|].
        split; [right; now apply is_text_eq | eauto 10].
      * destruct (get_prop data "error_message"); discriminate.
  - unfold googleReviews.
    intros [-> |[-> |[-> | ->]]]; try reflexivity.
    + now destruct placeId.
    + destruct apiKey as [key|]; [|reflexivity].
      now destruct (key =? "").
    + destruct apiKey as [key|]; [|reflexivity].
      now rewrite orb_true_r.
  - intros key place code data status -> -> Hk Hp F G Hs.
    unfold googleReviews. rewrite Hk, Hp.
    cbn [orb]. rewrite F. unfold read_reviews. cbn [negb bind]. rewrite G.
    cbn [bind].
    assert (T : negb (is_text "OK" status) && negb (is_text "ZERO_RESULTS" status)
                = false) by (destruct Hs as [->| ->]; reflexivity).
    rewrite T. unfold reviews_of.
    rewrite (get_prop_other data status "status" "result" G). cbn [bind].
    set (res := field data "result"). clearbody res.
    unfold field.
    destruct res; cbn [get_prop];
      repeat match goal with
             | |- context [match ?a with Some _ => _ | None => _ end] =>
                 destruct a
             | |- context [if (?i <? ?n)%N then _ else _] =>
                 destruct (i <? n)%N
             | |- context [if String.eqb ?k ?l then _ else _] =>
                 destruct (String.eqb k l)
             end; reflexivity.
Qed.

Lemma googleReviews_answers_witness :
  googleReviews (Some "KEY") (Some "PLACE")
    (fun _ => Responded true 200
                (Ok (VObject [("status", VString "ZERO_RESULTS")])))
  = Reviews (VArray []) (VString "ZERO_RESULTS").
Proof.
  exact (proj2 (proj2 (googleReviews_answers (Some "KEY") (Some "PLACE")
           (fun _ => Responded true 200
                       (Ok (VObject [("status", VString "ZERO_RESULTS")])))))
           "KEY" "PLACE" 200 (VObject [("status", VString "ZERO_RESULTS")])
           (VString "ZERO_RESULTS") eq_refl eq_refl eq_refl eq_refl
           eq_refl eq_refl (or_intror eq_refl)).
Defined.

(** X24: when the search answers [OK] with a non-empty sequence of
    places (mappings whose website, if any, is a string),
    [findPlaceIdByWebsite] always returns a place, never an error: the first
    place whose website, stripped of scheme and [www.] and put in lower
    case, contains the website looked for, normalized the same way; and the
    first place of all when no website does.  A missing website is returned
    as [Not provided]. *)
Theorem findPlaceIdByWebsite_settles_on_a_place :
  forall (website : string) (data first : value) (others : list value),
    let places := first :: others in
    get_prop data "status" = Ok (VString "OK") ->
    get_prop data "results" = Ok (VArray places) ->
    forallb place_ok places = true ->
    let place := chosen website places in
    findPlaceIdByWebsite website (Ok data)
    = Some (PlaceFound (field place "place_id") (field place "name")
              (field place "formatted_address") (field place "rating")
              (field place "user_ratings_total")
              (if truthy (field place "website") then field place "website"
               else VString "Not provided")).
Proof.
  intros website data first others places Gs Gr Hok place.
  assert (Hne : places <> []) by discriminate.
  unfold findPlaceIdByWebsite, searchPlaces.
  rewrite Gs. cbn [bind_opt is_text String.eqb Ascii.eqb Bool.eqb].
  rewrite Gr. cbn [bind_opt truthy].
  assert (L : get_prop (VArray places) "length"
              = Ok (VNumber (Z.of_nat (List.length places)))) by reflexivity.
  rewrite L. cbn [bind_opt positive].
  assert (P : (0 <? Z.of_nat (List.length places))%Z = true).
  { apply Z.ltb_lt. destruct places; [congruence | cbn [List.length]; lia]. }
  rewrite P. rewrite (findFirst_find _ places Hok). cbn [bind_opt].
  fold (chosen website places). fold place.
  pose proof (chosen_ok website places Hne Hok) as Hp. fold place in Hp.
  destruct place as [| | | | | |fields]; try discriminate.
  assert (O : forall k, get_prop (VObject fields) k
                        = Ok (field (VObject fields) k))
    by (intros k; unfold field; cbn [get_prop];
        now destruct (lookup k fields)).
  cbn [truthy]. rewrite !O. reflexivity.
Qed.

Lemma findPlaceIdByWebsite_settles_on_a_place_witness :
  findPlaceIdByWebsite "https://www.Example.com"
    (Ok (VObject
           [("status", VString "OK");
            ("results",
             VArray [VObject [("place_id", VString "P1")];
                     VObject [("place_id", VString "P2");
                              ("website", VString "http://example.com/shop")]])]))
  = Some (PlaceFound (VString "P2") VUndefined VUndefined VUndefined VUndefined
            (VString "http://example.com/shop")).
Proof.
  exact (findPlaceIdByWebsite_settles_on_a_place "https://www.Example.com"
           (VObject
              [("status", VString "OK");
               ("results",
                VArray [VObject [("place_id", VString "P1")];
                        VObject [("place_id", VString "P2");
                                 ("website", VString "http://example.com/shop")]])])
           (VObject [("place_id", VString "P1")])
           [VObject [("place_id", VString "P2");
                     ("website", VString "http://example.com/shop")]]
           eq_refl eq_refl eq_refl).
Defined.

(** X25: the errors of [findPlaceIdByWebsite].  When the status is not
    [OK], or the sequence of results is empty, the result is an error: [No
    results found for website: ...] for the status [ZERO_RESULTS], and
    otherwise [API error: ] followed by the status, a dash and the error
    message of the answer or [Unknown error]; so a status [OK] with no
    result reads [API error: OK - Unknown error].  The status and the error
    message are values that have a string form. *)
Theorem findPlaceIdByWebsite_errors :
  forall (website : string) (data status : value),
    get_prop data "status" = Ok status ->
    printable status = true ->
    printable (field data "error_message") = true ->
    is_text "OK" status = false
    \/ get_prop data "results" = Ok (VArray []) ->
    findPlaceIdByWebsite website (Ok data)
    = Some (PlaceError
              (if is_text "ZERO_RESULTS" status
               then "No results found for website: " ++ website
               else "API error: " ++ to_string status ++ " - "
                    ++ text_or (field data "error_message") "Unknown error")).
Proof.
  intros website data status Gs _ _ H.
  assert (N : noPlace website data status
              = Ok (PlaceError
                      (if is_text "ZERO_RESULTS" status
                       then "No results found for website: " ++ website
                       else "API error: " ++ to_string status ++ " - "
                            ++ text_or (field data "error_message")
                                 "Unknown error"))).
  { unfold noPlace. destruct (is_text "ZERO_RESULTS" status); [reflexivity|].
    now rewrite (get_prop_other data status "status" "error_message" Gs). }
  unfold findPlaceIdByWebsite, searchPlaces. rewrite Gs. cbn [bind_opt].
  destruct (is_text "OK" status) eqn:T; [|now rewrite N].
  destruct H as [H|H]; [discriminate|].
  rewrite H. cbn. now rewrite N.
Qed.

Lemma findPlaceIdByWebsite_errors_witness :
  findPlaceIdByWebsite "example.com"
    (Ok (VObject [("status", VString "OK"); ("results", VArray [])]))
  = Some (PlaceError "API error: OK - Unknown error").
Proof.
  exact (findPlaceIdByWebsite_errors "example.com"
           (VObject [("status", VString "OK"); ("results", VArray [])])
           (VString "OK") eq_refl eq_refl eq_refl (or_intror eq_refl)).
Defined.

End PlacesLaws.

(** ** Template compiler: patterns in a custom HTML, and a loop without end *)

Section PatternFacts.
Import Value Path Regex Template Page.

Lemma substitution_app (matched before after a : string) :
  Str.all (fun c => negb (Ascii.eqb c "$")) a = true ->
  forall r, Str.substitution matched before after (a ++ r)
            = a ++ Str.substitution matched before after r.
Proof.
  intros H r. induction a as [|c a IH]; [reflexivity|].
  cbn [Str.all] in H. apply andb_prop in H as [Hc Ha].
  apply negb_true_iff in Hc.
  cbn [append Str.substitution]. now rewrite Hc, (IH Ha).
Qed.

Lemma copies_length (n : nat) (t : string) :
  String.length (copies n t) = n * String.length t.
Proof.
  induction n as [|n IH]; [reflexivity|].
  cbn [copies]. rewrite length_append, IH. reflexivity.
Qed.

Lemma copies_last (n : nat) (t : string) : copies (S n) t = copies n t ++ t.
Proof.
  induction n as [|n IH].
  - cbn [copies]. now rewrite append_nil_r.
  - change (copies (S (S n)) t) with (t ++ copies (S n) t).
    rewrite IH at 1. change (copies (S n) t) with (t ++ copies n t).
    now rewrite !append_assoc.
Qed.

Lemma drop_copies (n : nat) (t : string) :
  Str.drop (n * String.length t) (copies (S n) t) = t.
Proof.
  rewrite copies_last, <- copies_length. apply drop_append.
Qed.

(** When the items of a block render to two copies of the block itself,
    each turn of the loop puts one more copy into the document and finds
    the next one after the offset it has reached. *)
Lemma each_loop_copies (data : value) (ws p block : string) (items : list value) :
  let tag := each_block ws p block in
  each_path ws p = true ->
  clear_of false "{{/each}}" block "{{/each}}" = true ->
  getValue data (Str.trim p) = Ok (VArray items) ->
  render_items block items = Ok (tag ++ tag) ->
  Str.all (fun c => negb (Ascii.eqb c "$")) tag = true ->
  forall fuel n : nat,
    each_loop fuel data (copies (S n) tag) (n * String.length tag) = None.
Proof.
  intros tag Hp Hb G Hr Hd.
  assert (Step : forall n,
             each_step data (copies (S n) tag) (n * String.length tag)
             = Ok (Some (copies (S (S n)) tag, S n * String.length tag))).
  { intros n. unfold each_step, exec.
    rewrite copies_length.
    assert (L : (S n * String.length tag <? n * String.length tag)%nat = false)
      by (apply Nat.ltb_ge; lia).
    rewrite L, (drop_copies n tag).
    pose proof (match_at_each_block ws p block "" Hp Hb) as M.
    rewrite append_nil_r in M. fold tag in M.
    rewrite (search_here _ _ _ M).
    cbn [matched capture captures Nat.sub nth String.length].
    rewrite G. cbn [bind]. rewrite Hr. cbn [bind].
    unfold Str.replace_first.
    assert (F : Str.find tag (copies (S n) tag) = Some ("", copies n tag)).
    { cbn [copies].
      assert (P : forall s r, Str.strip_prefix s (s ++ r) = Some r).
      { induction s as [|c s IH]; intros r; [now destruct r|].
        cbn. now rewrite Ascii.eqb_refl. }
      specialize (P tag (copies n tag)).
      destruct (tag ++ copies n tag); cbn [Str.find]; now rewrite P. }
    rewrite F.
    assert (D : Str.all (fun c => negb (Ascii.eqb c "$")) (tag ++ tag) = true)
      by (now rewrite all_append, Hd).
    rewrite (substitution_plain _ _ _ _ D).
    cbn [append copies]. rewrite append_assoc.
    do 3 f_equal. lia. }
  induction fuel as [|fuel IH]; intros n; [reflexivity|].
  cbn [each_loop]. rewrite Step. apply IH.
Qed.

End PatternFacts.

Section PatternLaws.
Import Value Path Regex Template Page.

(** X26: the custom HTML of a section is a replacement string, and its
    patterns are expanded.  In a document that holds the element of the
    section, plainly opened, what comes in the place of the old content is
    the custom HTML with [$$] turned into [$], [$&] into the old content,
    [$`] into the opening tag and [$'] into the closing tag; a custom HTML
    without [$] comes in as it is.  One line is written to the console. *)
Theorem section_override_expands_patterns :
  forall (data : value) (sec : section) (pre inner post custom : string)
         (out : console),
    In sec sectionMap ->
    getValue data (path sec ++ ".customHtml") = Ok (VString custom) ->
    custom <> "" ->
    (forall rest, unread (openingRegex sec) pre (section_tag sec ++ rest) = true) ->
    clear_of true "</section>" inner "</section>" = true ->
    Str.find inner (section_tag sec ++ inner ++ "</section>")
    = Some (section_tag sec, "</section>") ->
    let content := Str.substitution inner (section_tag sec) "</section>" custom in
    apply_section data
      (pre ++ section_tag sec ++ inner ++ "</section>" ++ post, out) sec
    = Ok (pre ++ section_tag sec ++ content ++ "</section>" ++ post,
          (out ++ [("Using custom HTML for " ++ path sec ++ " section")%string])%list)
    /\ (forall a b : string,
           Str.all (fun c => negb (Ascii.eqb c "$")) a = true ->
           Str.all (fun c => negb (Ascii.eqb c "$")) b = true ->
           (custom = a ++ b -> content = custom)
           /\ (custom = a ++ "$$" ++ b -> content = a ++ "$" ++ b)
           /\ (custom = a ++ "$&" ++ b -> content = a ++ inner ++ b)
           /\ (custom = a ++ "$`" ++ b -> content = a ++ section_tag sec ++ b)
           /\ (custom = a ++ "$'" ++ b -> content = a ++ "</section>" ++ b)).
Proof.
  intros data sec pre inner post custom out Hsec G Hc Hpre Hinner Hf content.
  split.
  - rewrite (apply_section_tag data sec pre inner post custom out
               Hsec G Hc Hpre Hinner).
    unfold Str.replace_first. rewrite Hf. subst content.
    now rewrite !append_assoc.
  - intros a b Ha Hb. subst content.
    repeat split; intros ->; rewrite (substitution_app _ _ _ a Ha).
    + now rewrite (substitution_plain _ _ _ _ Hb).
    + cbn [append Str.substitution]. cbn.
      now rewrite (substitution_plain _ _ _ _ Hb).
    + cbn [append Str.substitution]. cbn.
      now rewrite (substitution_plain _ _ _ _ Hb).
    + cbn [append Str.substitution]. cbn.
      now rewrite (substitution_plain _ _ _ _ Hb).
    + cbn [append Str.substitution]. cbn.
      now rewrite (substitution_plain _ _ _ _ Hb).
Qed.

Lemma section_override_expands_patterns_witness :
  apply_section
    (VObject [("about", VObject [("customHtml", VString "<p>From $$20</p>$&")])])
    ("<main>" ++ section_tag about ++ "<p>OLD</p>" ++ "</section>" ++ "</main>", [])
    about
  = Ok ("<main>" ++ section_tag about ++ "<p>From $20</p><p>OLD</p>"
        ++ "</section>" ++ "</main>",
        ["Using custom HTML for about section"]).
Proof.
  apply (proj1 (section_override_expands_patterns
                  (VObject [("about",
                             VObject [("customHtml",
                                       VString "<p>From $$20</p>$&")])])
                  about "<main>" "<p>OLD</p>" "</main>" "<p>From $$20</p>$&" []
                  ltac:(cbn [sectionMap In]; auto 10) eq_refl
                  ltac:(discriminate) (fun rest => eq_refl) eq_refl eq_refl)).
Defined.

(** X27: the iteration loop need not end.  When the items of a block
    render to two copies of the block itself, from [{{#each] to
    [{{/each}}], each turn puts one more copy into the document and finds
    the next one after the offset it has reached: a document that is this
    block is compiled by no number of turns. *)
Theorem each_pass_without_end :
  forall (data : value) (ws p block : string) (items : list value),
    let tag := each_block ws p block in
    each_path ws p = true ->
    clear_of false "{{/each}}" block "{{/each}}" = true ->
    getValue data (Str.trim p) = Ok (VArray items) ->
    render_items block items = Ok (tag ++ tag) ->
    Str.all (fun c => negb (Ascii.eqb c "$")) tag = true ->
    forall fuel : nat, each_pass fuel data tag = None.
Proof.
  intros data ws p block items tag Hp Hb G Hr Hd fuel. unfold each_pass.
  pose proof (@each_loop_copies data ws p block items Hp Hb G Hr Hd fuel 0)
    as Loop.
  cbn [copies Nat.mul] in Loop. fold tag in Loop.
  now rewrite append_nil_r in Loop.
Qed.

Lemma each_pass_without_end_witness :
  each_pass 1000
    (VObject [("a", VArray [VString "{{#each a}}{{this}}{{/each}}{{#each a}}{{this}}{{/each}}"])])
    (each_block " " "a" "{{this}}")
  = None.
Proof.
  exact (each_pass_without_end
           (VObject [("a", VArray [VString "{{#each a}}{{this}}{{/each}}{{#each a}}{{this}}{{/each}}"])])
           " " "a" "{{this}}"
           [VString "{{#each a}}{{this}}{{/each}}{{#each a}}{{this}}{{/each}}"]
           eq_refl eq_refl eq_refl eq_refl eq_refl 1000).
Defined.

(** C8: compilation does not give a document for every template and tree.
    On the template [{{#each a}}{{this}}{{/each}}] and a tree whose sequence
    [a] holds two copies of that template as one string, the iteration loop
    never comes to its end: whatever the number of turns it is given and
    whatever the console holds, the call returns nothing, so that there is
    no output of one call to compare with the output of another. *)
Theorem buildHTML_without_output :
  let template := "{{#each a}}{{this}}{{/each}}" in
  let data := VObject [("a", VArray [VString (template ++ template)])] in
  forall (fuel : nat) (out : console),
    buildHTML fuel template data out = None.
Proof.
  intros template data fuel out. unfold buildHTML.
  assert (S : scalar_pass data template = Ok template) by reflexivity.
  rewrite S. cbn [bind_opt]. unfold each_pass.
  pose proof (@each_loop_copies data " " "a" "{{this}}"
                [VString (template ++ template)]
                eq_refl eq_refl eq_refl eq_refl eq_refl fuel 0) as Loop.
  change (copies 1 (each_block " " "a" "{{this}}")) with template in Loop.
  change (0 * String.length (each_block " " "a" "{{this}}")) with 0 in Loop.
  now rewrite Loop.
Qed.

End PatternLaws.

(** ** Template compiler: iteration blocks over something other than a sequence *)

Section RegionFacts.
Import Value Path Regex Template Page.












End RegionFacts.

(** ** Template compiler: the iteration pass on a document of regions *)

Section RegionLaws.
Import Value Path Regex Template Page.

(** A replacement string that names neither the match nor the text around
    it stands for the same text whatever the match. *)
Lemma substitution_static (m b a : string) :
  forall t : string,
    Str.static t = true -> Str.substitution m b a t = Str.expanded t.
Proof.
  assert (P : forall t : string,
             (Str.static t = true -> Str.substitution m b a t = Str.expanded t)
             /\ (forall c, Str.static (String c t) = true ->
                           Str.substitution m b a (String c t)
                           = Str.expanded (String c t))).
  { unfold Str.expanded.
    induction t as [|d t [IH1 IH2]]; split.
    - reflexivity.
    - intros c _. cbn. now destruct (Ascii.eqb c "$").
    - apply IH2.
    - intros c H.
      change (Str.static (String c (String d t)))
        with (if Ascii.eqb c "$"
              then if Ascii.eqb d "$" then Str.static t
                   else if Ascii.eqb d "&" then false
                   else if Ascii.eqb d "`" then false
                   else if Ascii.eqb d "'" then false
                   else Str.static (String d t)
              else Str.static (String d t)) in H.
      change (Str.substitution ?x ?y ?z (String c (String d t)))
        with (if Ascii.eqb c "$"
              then if Ascii.eqb d "$" then String "$" (Str.substitution x y z t)
                   else if Ascii.eqb d "&" then x ++ Str.substitution x y z t
                   else if Ascii.eqb d "`" then y ++ Str.substitution x y z t
                   else if Ascii.eqb d "'" then z ++ Str.substitution x y z t
                   else String c (Str.substitution x y z (String d t))
              else String c (Str.substitution x y z (String d t))).
      destruct (Ascii.eqb c "$").
      + destruct (Ascii.eqb d "$"); [now rewrite (IH1 H)|].
        destruct (Ascii.eqb d "&"); [discriminate|].
        destruct (Ascii.eqb d "`"); [discriminate|].
        destruct (Ascii.eqb d "'"); [discriminate|].
        now rewrite (IH2 d H).
      + now rewrite (IH2 d H). }
  intros t. apply P.
Qed.

(** Replacing a text by what stands for it changes nothing, wherever the
    text is found. *)
Lemma replace_first_static (s c repl : string) :
  Str.static repl = true -> Str.expanded repl = c ->
  Str.replace_first s c repl = s.
Proof.
  intros H E. unfold Str.replace_first.
  destruct (Str.find c s) as [[b a]|] eqn:F; [|reflexivity].
  rewrite (substitution_static _ _ _ _ H), E. symmetry. now apply find_sound.
Qed.









End RegionLaws.

Section EachClaims.
Import Value Path Regex Template Page.




End EachClaims.

(** ** Template compiler: the element of a section *)

Section ParseSoundness.
Import Regex.

Lemma matches_groupless (r : regex) (t : string) (caps caps' : list string) :
  matches r t caps caps' -> groupless r = true -> caps' = caps.
Proof.
  induction 1 as [caps|p c caps Pc|r1 r2 t1 t2 c0 c1 c2 M1 IH1 M2 IH2
                 |g p t caps Ht|r t c0 c1 M IH]; cbn [groupless]; intros G;
    try reflexivity; try discriminate.
  apply andb_prop in G as [G1 G2]. rewrite (IH2 G2). now apply IH1.
Qed.

Lemma star_greedy_all_sound (p : ascii -> bool) :
  forall s s', In s' (star_greedy_all p s) ->
               exists t, s = t ++ s' /\ Str.all p t = true.
Proof.
  induction s as [|c s IH]; intros s'; cbn [star_greedy_all].
  - intros [<-|[]]. now exists "".
  - destruct (p c) eqn:Pc.
    + intros H. apply in_app_or in H as [H|[<-|[]]].
      * destruct (IH _ H) as (t & -> & Ht). exists (String c t).
        cbn. now rewrite Pc, Ht.
      * now exists "".
    + intros [<-|[]]. now exists "".
Qed.

Lemma star_lazy_all_sound (p : ascii -> bool) :
  forall s s', In s' (star_lazy_all p s) ->
               exists t, s = t ++ s' /\ Str.all p t = true.
Proof.
  induction s as [|c s IH]; intros s'; cbn [star_lazy_all].
  - intros [<-|[]]. now exists "".
  - intros [<-|H]; [now exists ""|].
    destruct (p c) eqn:Pc; [|contradiction].
    destruct (IH _ H) as (t & -> & Ht). exists (String c t).
    cbn. now rewrite Pc, Ht.
Qed.

(** Every parse the matcher tries reads a text of the language. *)
Lemma parses_sound (r : regex) :
  forall (s : string) (caps : list string) (s' : string) (caps' : list string),
    In (s', caps') (parses r s caps) ->
    exists t, s = t ++ s' /\ matches r t caps caps'.
Proof.
  induction r as [|p|r1 IH1 r2 IH2|g p|r IH]; intros s caps s' caps';
    cbn [parses].
  - intros [[= <- <-]|[]]. exists "". split; [reflexivity | constructor].
  - destruct s as [|c s]; [contradiction|].
    destruct (p c) eqn:Pc; [|contradiction].
    intros [[= <- <-]|[]]. exists (String c "").
    split; [reflexivity | now constructor].
  - intros H. apply in_flat_map in H as ([s1 c1] & H1 & H2).
    destruct (IH1 _ _ _ _ H1) as (t1 & -> & M1).
    destruct (IH2 _ _ _ _ H2) as (t2 & E & M2). cbn [fst] in E. subst s1.
    exists (t1 ++ t2). rewrite append_assoc.
    split; [reflexivity | econstructor; eassumption].
  - destruct g; intros H; apply in_map_iff in H as (x & [= <- <-] & H);
      [apply star_greedy_all_sound in H | apply star_lazy_all_sound in H];
      destruct H as (t & -> & Ht); exists t;
      (split; [reflexivity | now constructor]).
  - intros H. apply in_map_iff in H as ([s1 c1] & [= <- <-] & H).
    destruct (IH _ _ _ _ H) as (t & -> & M).
    exists t. rewrite take_append. split; [reflexivity | now constructor].
Qed.

(** A text of the language at the head of the input is one of the parses. *)
Lemma parses_nonempty (r : regex) (t s' : string) (caps caps' : list string) :
  matches r t caps caps' -> parses r (t ++ s') caps <> [].
Proof.
  intros M E.
  apply (run_complete unit r t caps caps' M s' (fun _ _ => Some tt));
    [discriminate|].
  now rewrite run_parses, E.
Qed.

Lemma first_some_const (A R : Type) (k : A -> option R) (a : A) :
  forall l : list A,
    l <> [] -> (forall x, In x l -> x = a) -> first_some k l = k a.
Proof.
  induction l as [|x l IH]; intros Hne H; [congruence|].
  cbn [first_some]. rewrite (H x (or_introl eq_refl)).
  destruct (k a) eqn:E; [reflexivity|].
  destruct l as [|y l]; [reflexivity|].
  apply IH; [discriminate | intros z Hz; apply H; now right].
Qed.

Lemma matches_cat_inv (r1 r2 : regex) (t : string) (caps caps'' : list string) :
  matches (Cat r1 r2) t caps caps'' ->
  exists t1 t2 caps',
    t = t1 ++ t2 /\ matches r1 t1 caps caps' /\ matches r2 t2 caps' caps''.
Proof. intros M. inversion M; subst. eauto 6. Qed.

Lemma matches_star_inv (g : bool) (p : ascii -> bool) (t : string)
  (caps caps' : list string) :
  matches (Star g p) t caps caps' -> Str.all p t = true.
Proof. intros M. now inversion M. Qed.

Lemma matches_eps_inv (t : string) (caps caps' : list string) :
  matches Eps t caps caps' -> t = "".
Proof. intros M. now inversion M. Qed.

Lemma matches_lit_inv (ci : bool) (l : string) :
  forall (t : string) (caps caps' : list string),
    matches (lit ci l) t caps caps' ->
    String.length t = String.length l /\ starts ci l t = true.
Proof.
  induction l as [|a l IH]; intros t caps caps' M; cbn [lit] in M.
  - apply matches_eps_inv in M. now subst.
  - apply matches_cat_inv in M as (t1 & t2 & c' & -> & M1 & M2).
    inversion M1; subst. destruct (IH _ _ _ M2) as [L S].
    cbn. now rewrite L, S, H0.
Qed.

End ParseSoundness.

Section TagFacts.
Import Value Path Regex Template Page.

Lemma lacks_app (x : ascii) (s t : string) :
  Str.lacks x (s ++ t) = Str.lacks x s && Str.lacks x t.
Proof. apply all_append. Qed.

Lemma none_of_lacks (x : ascii) (s : string) :
  Str.all (none_of (String x "")) s = Str.lacks x s.
Proof.
  unfold Str.lacks. induction s as [|c s IH]; [reflexivity|].
  cbn [Str.all]. rewrite IH. f_equal.
  unfold none_of. cbn. now rewrite orb_false_r.
Qed.

(** No character but [>] has [>] for its upper-case form, and so for the
    double quote. *)
Lemma canonicalize_gt (a : ascii) : canonicalize a = ">"%char -> a = ">"%char.
Proof.
  destruct a as [[] [] [] [] [] [] [] []]; vm_compute; intros H;
    (reflexivity || discriminate H).
Qed.

Lemma canonicalize_dquote (a : ascii) :
  canonicalize a = Str.dquote -> a = Str.dquote.
Proof.
  destruct a as [[] [] [] [] [] [] [] []]; vm_compute; intros H;
    (reflexivity || discriminate H).
Qed.

Section Special.
Variable x : ascii.
Hypothesis only_x : forall a, canonicalize a = x -> a = x.
Hypothesis x_fixed : canonicalize x = x.

Lemma starts_lacks :
  forall l t : string,
    starts true l t = true -> String.length t = String.length l ->
    Str.lacks x l = true -> Str.lacks x t = true.
Proof.
  unfold Str.lacks.
  induction l as [|a l IH]; intros [|c t]; cbn; try discriminate; auto.
  intros H L Hl. apply andb_prop in H as [Hc H]. apply andb_prop in Hl as [Ha Hl].
  injection L as L. rewrite (IH t H L Hl), andb_true_r.
  destruct (Ascii.eqb_spec c x) as [->|]; [|reflexivity].
  unfold chr_eq in Hc. apply Ascii.eqb_eq in Hc. rewrite x_fixed in Hc.
  apply only_x in Hc. subst a. now rewrite Ascii.eqb_refl in Ha.
Qed.

Lemma matches_lit_lacks (l t : string) (caps caps' : list string) :
  matches (lit true l) t caps caps' -> Str.lacks x l = true -> Str.lacks x t = true.
Proof.
  intros M. destruct (matches_lit_inv _ _ _ _ _ M) as [L S].
  now apply starts_lacks.
Qed.

Lemma matches_lit_char (t : string) (caps caps' : list string) :
  matches (lit true (String x "")) t caps caps' -> t = String x "".
Proof.
  intros M. destruct (matches_lit_inv _ _ _ _ _ M) as [L S].
  destruct t as [|c [|d t]]; try discriminate.
  cbn in S. rewrite andb_true_r in S. unfold chr_eq in S.
  apply Ascii.eqb_eq in S. rewrite x_fixed in S. symmetry in S.
  now rewrite (only_x _ S).
Qed.

End Special.

(** The text before the first [x] of a text is determined. *)
Lemma split_unique (x : ascii) :
  forall a a' b b' : string,
    a ++ String x b = a' ++ String x b' ->
    Str.lacks x a = true -> Str.lacks x a' = true -> a = a' /\ b = b'.
Proof.
  unfold Str.lacks.
  induction a as [|c a IH]; intros [|c' a'] b b'; cbn; intros E Ha Ha'.
  - now injection E as ->.
  - injection E as <- _. now rewrite Ascii.eqb_refl in Ha'.
  - injection E as -> _. now rewrite Ascii.eqb_refl in Ha.
  - injection E as <- E.
    apply andb_prop in Ha as [_ Ha]. apply andb_prop in Ha' as [_ Ha'].
    destruct (IH _ _ _ E Ha Ha') as [-> ->]. auto.
Qed.

(** A text without [x] at the head of a text is the head of what stands
    before the first [x]. *)
Lemma prefix_before (x : ascii) :
  forall w a b z : string,
    a ++ String x b = w ++ z -> Str.lacks x w = true ->
    exists a', a = w ++ a' /\ z = a' ++ String x b.
Proof.
  unfold Str.lacks.
  induction w as [|c w IH]; intros a b z; cbn; intros E Hw.
  - exists a. auto.
  - apply andb_prop in Hw as [Hc Hw].
    destruct a as [|d a]; cbn in E; injection E as <- E.
    + now rewrite Ascii.eqb_refl in Hc.
    + destruct (IH _ _ _ E Hw) as (a' & -> & ->). now exists a'.
Qed.

Lemma first_occurrence (x : ascii) :
  forall s : string,
    Str.lacks x s = false ->
    exists b1 b2, s = b1 ++ String x b2 /\ Str.lacks x b1 = true.
Proof.
  unfold Str.lacks.
  induction s as [|c s IH]; cbn; [discriminate|].
  destruct (Ascii.eqb_spec c x) as [->|Hc]; cbn.
  - intros _. exists "", s. auto.
  - intros H. destruct (IH H) as (b1 & b2 & -> & Hb).
    exists (String c b1), b2. cbn.
    destruct (Ascii.eqb_spec c x); [contradiction | auto].
Qed.

Lemma attr_closed_at :
  forall x y z : string,
    attr_closed (x ++ y ++ z) = true ->
    starts true (Str.quoted "class='") y = true ->
    String.length y = 7 ->
    Str.lacks Str.dquote z = false.
Proof.
  induction x as [|c x IH]; intros y z H S L.
  - cbn [append] in H.
    destruct y as [|c y]; [discriminate|].
    change (String c y ++ z) with (String c (y ++ z)) in H.
    cbn [attr_closed] in H. apply andb_prop in H as [H _].
    change (String c (y ++ z)) with (String c y ++ z) in H.
    rewrite starts_append, S in H by (rewrite L; cbn; lia).
    replace 7 with (String.length (String c y)) in H by exact L.
    rewrite drop_append in H. now apply negb_true_iff in H.
  - change (String c x ++ y ++ z) with (String c (x ++ y ++ z)) in H.
    cbn [attr_closed] in H. apply andb_prop in H as [_ H]. now apply (IH y z).
Qed.

Lemma groupless_lit (ci : bool) (l : string) : groupless (lit ci l) = true.
Proof. induction l as [|a l IH]; [reflexivity | exact IH]. Qed.

(** The names of the map: every section has a class, and neither an id nor
    a class holds [>] or a double quote. *)
Lemma sectionMap_names (sec : section) :
  In sec sectionMap ->
  (exists c, class sec = Some c
             /\ Str.lacks ">" c = true /\ Str.lacks Str.dquote c = true)
  /\ (forall i, id sec = Some i -> Str.lacks ">" i = true).
Proof.
  cbn [sectionMap In]. intros H.
  repeat (destruct H as [<-|H];
          [split; [eexists; split; [reflexivity | split; reflexivity]
                  | intros i [= <-]; reflexivity]|]).
  contradiction.
Qed.

(** Whatever the opening part of the expression of a section reads at the
    head of a tag that ends with its only [>], and in which every class
    attribute opened is closed, is that tag and nothing more. *)
Lemma opening_reads_tag (sec : section) (body rest t s' : string)
  (caps : list string) :
  In sec sectionMap ->
  Str.lacks ">" body = true ->
  attr_closed (body ++ ">") = true ->
  matches (openingRegex sec) t [] caps ->
  body ++ ">" ++ rest = t ++ s' ->
  s' = rest /\ caps = [].
Proof.
  intros Hsec Hbody Hclosed M E.
  destruct (sectionMap_names sec Hsec) as [(cl & Hcl & Gcl & Qcl) Hid].
  assert (C : caps = []).
  { apply (matches_groupless _ _ _ _ M). unfold openingRegex, idPattern, classPattern.
    rewrite Hcl. destruct (id sec); cbn [groupless andb lit]; 
      repeat match goal with
             | |- context [groupless (lit ?ci ?l)] =>
                 replace (groupless (lit ci l)) with true
                   by (symmetry; apply groupless_lit)
             end; reflexivity. }
  split; [|exact C]. clear C.
  unfold openingRegex, classPattern in M. rewrite Hcl in M.
  apply matches_cat_inv in M as (t0 & u0 & k0 & -> & M0 & M).
  apply matches_cat_inv in M as (t1 & u1 & k1 & -> & M1 & M).
  apply matches_cat_inv in M as (tid & u2 & k2 & -> & Mid & M).
  apply matches_cat_inv in M as (tcl & tgt & k3 & -> & Mcl & Mgt).
  apply matches_cat_inv in Mcl as (w7 & u3 & k4 & -> & M7 & Mcl).
  apply matches_cat_inv in Mcl as (q1 & u4 & k5 & -> & Mq1 & Mcl).
  apply matches_cat_inv in Mcl as (wc & u5 & k6 & -> & Mwc & Mcl).
  apply matches_cat_inv in Mcl as (q2 & u6 & k7 & -> & Mq2 & Mcl).
  apply matches_cat_inv in Mcl as (wq & s3 & k8 & -> & Mwq & Ms3).
  apply (matches_lit_char _ canonicalize_gt eq_refl) in Mgt. subst tgt.
  apply (matches_lit_char _ canonicalize_dquote eq_refl) in Mwq. subst wq.
  assert (G0 : Str.lacks ">" t0 = true)
    by (exact (matches_lit_lacks _ canonicalize_gt eq_refl _ _ _ _ M0 eq_refl)).
  assert (G1 : Str.lacks ">" t1 = true)
    by (rewrite <- none_of_lacks; exact (matches_star_inv _ _ _ _ _ M1)).
  assert (Gid : Str.lacks ">" tid = true).
  { unfold idPattern in Mid. destruct (id sec) as [i|] eqn:Ei.
    - apply matches_cat_inv in Mid as (ti & si & ki & -> & Mi & Msi).
      rewrite lacks_app.
      rewrite (matches_lit_lacks _ canonicalize_gt eq_refl _ _ _ _ Mi).
      + rewrite <- none_of_lacks. exact (matches_star_inv _ _ _ _ _ Msi).
      + rewrite !lacks_app, (Hid i eq_refl). reflexivity.
    - apply matches_eps_inv in Mid. now subst. }
  assert (G7 : Str.lacks ">" w7 = true)
    by (exact (matches_lit_lacks _ canonicalize_gt eq_refl _ _ _ _ M7 eq_refl)).
  destruct (matches_lit_inv _ _ _ _ _ M7) as [L7 S7].
  assert (Q1 : Str.lacks Str.dquote q1 = true)
    by (rewrite <- none_of_lacks; exact (matches_star_inv _ _ _ _ _ Mq1)).
  assert (Q2 : Str.lacks Str.dquote q2 = true)
    by (rewrite <- none_of_lacks; exact (matches_star_inv _ _ _ _ _ Mq2)).
  assert (Qc : Str.lacks Str.dquote wc = true)
    by (exact (matches_lit_lacks _ canonicalize_dquote eq_refl _ _ _ _ Mwc Qcl)).
  assert (G3 : Str.lacks ">" s3 = true)
    by (rewrite <- none_of_lacks; exact (matches_star_inv _ _ _ _ _ Ms3)).
  (* the text read up to the quote that opens the class attribute *)
  set (w := t0 ++ t1 ++ tid ++ w7).
  set (v := q1 ++ wc ++ q2).
  assert (Ew : (t0 ++ t1 ++ tid ++ (w7 ++ q1 ++ wc ++ q2 ++ String Str.dquote "" ++ s3)
                ++ ">") ++ s'
               = w ++ v ++ String Str.dquote (s3 ++ String ">" s')).
  { subst w v. rewrite !append_assoc. reflexivity. }
  rewrite Ew in E. clear Ew.
  assert (Gw : Str.lacks ">" w = true)
    by (subst w; rewrite !lacks_app, G0, G1, Gid, G7; reflexivity).
  assert (Qv : Str.lacks Str.dquote v = true)
    by (subst v; rewrite !lacks_app, Q1, Qc, Q2; reflexivity).
  change (body ++ ">" ++ rest) with (body ++ String ">" rest) in E.
  destruct (prefix_before ">" w body rest _ E Gw) as (body' & -> & E').
  rewrite lacks_app in Hbody. apply andb_prop in Hbody as [_ Hbody'].
  assert (Hq : Str.lacks Str.dquote body' = false).
  { assert (A : attr_closed ((t0 ++ t1 ++ tid) ++ w7 ++ (body' ++ ">")) = true)
      by (subst w; rewrite !append_assoc in *; exact Hclosed).
    pose proof (attr_closed_at _ _ _ A S7 L7) as Hq.
    rewrite lacks_app in Hq. cbn in Hq. now rewrite andb_true_r in Hq. }
  destruct (first_occurrence _ _ Hq) as (b1 & b2 & -> & Qb1).
  rewrite append_assoc in E'. cbn [append] in E'.
  destruct (split_unique Str.dquote _ _ _ _ E' Qv Qb1) as [_ E''].
  rewrite lacks_app in Hbody'. apply andb_prop in Hbody' as [_ Hb2].
  cbn in Hb2.
  destruct (split_unique ">" _ _ _ _ E'' G3 Hb2) as [_ ->]. reflexivity.
Qed.

End TagFacts.

Section ElementFacts.
Import Value Path Regex Template Page.

(** The opening tag of a section of the map ends with its only [>] when
    its further attributes and classes have none. *)
Lemma opening_tag_body (sec : section) (a1 a2 a3 c1 c2 : string) :
  In sec sectionMap ->
  Str.all (none_of ">") a1 = true ->
  Str.all (none_of ">") a2 = true ->
  Str.all (none_of ">") a3 = true ->
  Str.all (none_of ">") c1 = true ->
  Str.all (none_of ">") c2 = true ->
  exists body, opening_tag sec a1 a2 a3 c1 c2 = body ++ ">"
               /\ Str.lacks ">" body = true.
Proof.
  rewrite !none_of_lacks. intros Hsec H1 H2 H3 H4 H5.
  destruct (sectionMap_names sec Hsec) as [(cl & Hcl & Gcl & _) Hid].
  unfold opening_tag. rewrite Hcl.
  destruct (id sec) as [i|] eqn:Ei.
  - exists ("<section" ++ a1 ++ ((Str.quoted "id='" ++ i ++ Str.quoted "'") ++ a2)
            ++ Str.quoted "class='" ++ c1 ++ cl ++ c2 ++ Str.quoted "'" ++ a3).
    split; [now rewrite !append_assoc|].
    rewrite !lacks_app, H1, H2, H3, H4, H5, Gcl, (Hid i eq_refl). reflexivity.
  - exists ("<section" ++ a1 ++ ""
            ++ Str.quoted "class='" ++ c1 ++ cl ++ c2 ++ Str.quoted "'" ++ a3).
    split; [now rewrite !append_assoc|].
    rewrite !lacks_app, H1, H3, H4, H5, Gcl. reflexivity.
Qed.

(** On such a tag, in which every class attribute opened is closed, the
    opening part of the expression reads the tag and nothing more, whatever
    the attempts the matcher makes. *)
Lemma run_opening_tag (sec : section) (a1 a2 a3 c1 c2 : string) :
  In sec sectionMap ->
  Str.all (none_of ">") a1 = true ->
  Str.all (none_of ">") a2 = true ->
  Str.all (none_of ">") a3 = true ->
  Str.all (none_of ">") c1 = true ->
  Str.all (none_of ">") c2 = true ->
  Str.all (none_of (Str.quoted "'")) c1 = true ->
  Str.all (none_of (Str.quoted "'")) c2 = true ->
  attr_closed (opening_tag sec a1 a2 a3 c1 c2) = true ->
  forall (R : Type) (rest : string) (k : string -> list string -> option R),
    run (openingRegex sec) (opening_tag sec a1 a2 a3 c1 c2 ++ rest) [] k
    = k rest [].
Proof.
  intros Hsec H1 H2 H3 G4 G5 H4 H5 Hc R rest k.
  pose proof (matches_opening_tag sec a1 a2 a3 c1 c2 H1 H2 H3 H4 H5) as M.
  destruct (opening_tag_body sec a1 a2 a3 c1 c2 Hsec H1 H2 H3 G4 G5)
    as (body & E & Hb).
  rewrite run_parses.
  rewrite (first_some_const _ _ (fun x => k (fst x) (snd x)) (rest, [])).
  - reflexivity.
  - exact (parses_nonempty _ _ rest _ _ M).
  - intros [s' caps'] Hin.
    destruct (parses_sound _ _ _ _ _ Hin) as (t & Et & Mt).
    rewrite E in Et, Hc. rewrite append_assoc in Et.
    destruct (opening_reads_tag sec body rest t s' caps' Hsec Hb Hc Mt Et)
      as [-> ->].
    reflexivity.
Qed.

(** The element of a section whose content has no closing tag: the
    expression reads the whole of it and captures the content. *)
Lemma match_at_section_element (sec : section) (tag x post : string) :
  (forall (rest : string) (k : string -> list string -> option found),
      run (openingRegex sec) (tag ++ rest) [] k = k rest []) ->
  clear_of true "</section>" x "</section>" = true ->
  match_at (sectionRegex sec) (tag ++ x ++ "</section>" ++ post)
  = Some (Found (tag ++ x ++ "</section>") [x] post).
Proof.
  intros Htag H. unfold match_at.
  change (run (sectionRegex sec) ?s ?c ?k)
    with (run (openingRegex sec) s c (fun s' c' => run closingRegex s' c' k)).
  rewrite Htag.
  unfold closingRegex. cbn [run].
  rewrite star_lazy_first.
  - erewrite star_lazy_now; [reflexivity|].
    rewrite run_lit_exact.
    rewrite take_append. cbn [app].
    replace (tag ++ x ++ "</section>" ++ post)
      with ((tag ++ x ++ "</section>") ++ post)
      by (now rewrite !append_assoc).
    now rewrite take_append.
  - apply all_any.
  - intros t1 c t2 E. apply run_lit_starts.
    rewrite <- (clear_of_append true "</section>" "</section>" post) in H
      by (simpl; lia).
    exact (clear_of_split _ _ _ _ _ _ _ H E).
Qed.

Lemma search_section_element (sec : section) (pre tag x post : string) :
  (forall (rest : string) (k : string -> list string -> option found),
      run (openingRegex sec) (tag ++ rest) [] k = k rest []) ->
  unread (openingRegex sec) pre (tag ++ x ++ "</section>" ++ post) = true ->
  clear_of true "</section>" x "</section>" = true ->
  search (sectionRegex sec) (pre ++ tag ++ x ++ "</section>" ++ post)
  = Some (pre, Found (tag ++ x ++ "</section>") [x] post).
Proof.
  intros Htag Hpre Hx.
  rewrite (search_skip sec _ pre Hpre).
  rewrite (search_here _ _ _ (match_at_section_element sec tag x post Htag Hx)).
  now rewrite append_nil_r.
Qed.

(** What the override of a section does to a document that holds its
    element, with no earlier text that the expression reads. *)
Lemma apply_section_element (data customHtml : value) (sec : section)
  (pre tag x post : string) (out : console) :
  (forall (rest : string) (k : string -> list string -> option found),
      run (openingRegex sec) (tag ++ rest) [] k = k rest []) ->
  getValue data (path sec ++ ".customHtml") = Ok customHtml ->
  truthy customHtml = true ->
  unread (openingRegex sec) pre (tag ++ x ++ "</section>" ++ post) = true ->
  clear_of true "</section>" x "</section>" = true ->
  apply_section data (pre ++ tag ++ x ++ "</section>" ++ post, out) sec
  = Ok (pre ++ Str.replace_first (tag ++ x ++ "</section>") x
                 (to_string customHtml)
            ++ post,
        (out ++ [("Using custom HTML for " ++ path sec ++ " section")%string])%list).
Proof.
  intros Htag G T Hpre Hx. unfold apply_section.
  rewrite G. cbn [bind]. rewrite T.
  unfold replace_one. rewrite (search_section_element sec pre tag x post Htag Hpre Hx).
  reflexivity.
Qed.

End ElementFacts.

Section PageFacts.
Import Value Path Regex Template Page.

Lemma unread_app (r : regex) (a b rest : string) :
  unread r a (b ++ rest) = true -> unread r b rest = true ->
  unread r (a ++ b) rest = true.
Proof.
  induction a as [|c a IH]; intros Ha Hb; [exact Hb|].
  cbn [unread] in Ha.
  change (String c a ++ b) with (String c (a ++ b)). cbn [unread].
  change (String c (a ++ b) ++ rest) with (String c ((a ++ b) ++ rest)).
  change (String c a ++ b ++ rest) with (String c (a ++ b ++ rest)) in Ha.
  rewrite append_assoc.
  destruct (parses r (String c (a ++ b ++ rest)) []); [|discriminate].
  now apply IH.
Qed.

Lemma quiet_app (sec : section) (a b next : string) :
  quiet sec a b -> quiet sec b next -> quiet sec (a ++ b) next.
Proof.
  intros Ha Hb rest. apply unread_app.
  - specialize (Ha (next ++ rest)). exact Ha.
  - apply Hb.
Qed.

Lemma quiet_closing (sec : section) : quiet sec "</section>" "".
Proof. intros rest. reflexivity. Qed.

Lemma search_nowhere (sec : section) (t : string) :
  unread (openingRegex sec) t "" = true -> search (sectionRegex sec) t = None.
Proof.
  intros H. rewrite <- (append_nil_r t).
  rewrite (search_skip sec "" t H). reflexivity.
Qed.

Lemma path_inj (s t : section) :
  In s sectionMap -> In t sectionMap -> (path s =? path t) = true -> s = t.
Proof.
  intros Hs Ht. cbn [sectionMap In] in Hs, Ht.
  repeat (destruct Hs as [<-|Hs]; [|]);
    try contradiction;
    repeat (destruct Ht as [<-|Ht]; [|]);
    try contradiction; cbn; intros E; try reflexivity; discriminate E.
Qed.

Lemma overrides_value (data : value) (sec : section) :
  overrides data sec = true ->
  getValue data (path sec ++ ".customHtml") = Ok (customHtml data sec)
  /\ truthy (customHtml data sec) = true.
Proof.
  unfold overrides, customHtml.
  destruct (getValue data (path sec ++ ".customHtml")) as [v|e];
    [auto | discriminate].
Qed.

Lemma page_cons (e : element) (es : list element) (tail : string) :
  page (e :: es) tail = element_source e ++ page es tail.
Proof. unfold page. cbn [map]. now rewrite flatten_cons, append_assoc. Qed.

Section OnePass.
Variable data : value.
Variable tail : string.

Lemma sound_tag (e : element) :
  sound data e ->
  forall (R : Type) (rest : string) (k : string -> list string -> option R),
    run (openingRegex (owner e)) (element_tag e ++ rest) [] k = k rest [].
Proof.
  intros (Hin & _ & Ht & _). unfold tag_ok in Ht.
  apply andb_prop in Ht as [Ht Hc]. apply andb_prop in Ht as [Hg Hq].
  repeat rewrite all_append in Hg. rewrite all_append in Hq.
  repeat match goal with
         | H : _ && _ = true |- _ => apply andb_prop in H as [? ?]
         end.
  now apply run_opening_tag.
Qed.

(** Where the replacement of the content lands. *)
Lemma sound_lands (e : element) :
  sound data e ->
  Str.replace_first (element_tag e ++ content e ++ "</section>") (content e)
    (custom_text data (owner e))
  = element_tag e ++ Str.expanded (custom_text data (owner e)) ++ "</section>".
Proof.
  intros (_ & _ & _ & _ & [E|F] & _ & Hs & _).
  - rewrite E. now apply replace_first_static.
  - unfold Str.replace_first. rewrite F.
    now rewrite (substitution_static _ _ _ _ Hs).
Qed.

Lemma sound_override (e : element) : sound data e -> sound data (override data e).
Proof.
  intros (Hin & Ho & Ht & Hc & _ & Hp & Hs & He).
  repeat split; try assumption. now left.
Qed.

Lemma sound_touch (sec : section) (e : element) :
  sound data e -> sound data (touch data sec e).
Proof.
  intros H. unfold touch. destruct (path (owner e) =? path sec);
    [now apply sound_override | exact H].
Qed.

Lemma owner_touch (sec : section) (e : element) :
  owner (touch data sec e) = owner e.
Proof. unfold touch. now destruct (path (owner e) =? path sec). Qed.

Lemma touch_absent (sec : section) (es : list element) :
  existsb (String.eqb (path sec)) (map (fun e => path (owner e)) es) = false ->
  map (touch data sec) es = es.
Proof.
  induction es as [|e es IH]; [reflexivity|].
  cbn [map existsb]. intros H. apply orb_false_elim in H as [H1 H2].
  unfold touch at 1. rewrite String.eqb_sym, H1. now rewrite (IH H2).
Qed.

Lemma owned_absent (sec : section) (es : list element) :
  owned sec es
  = existsb (String.eqb (path sec)) (map (fun e => path (owner e)) es).
Proof.
  unfold owned. induction es as [|e es IH]; [reflexivity|].
  cbn [map existsb]. now rewrite IH, String.eqb_sym.
Qed.

(** The override of one section, on a document of elements: the element of
    the section, when the document has it, takes the custom HTML, and the
    rest is kept. *)
Lemma apply_section_page (sec : section) :
  In sec sectionMap -> overrides data sec = true ->
  forall (es : list element) (P : string) (out : console),
    unread (openingRegex sec) P (page es tail) = true ->
    Forall (sound data) es ->
    Str.distinct (map (fun e => path (owner e)) es) = true ->
    calm data sec es tail ->
    apply_section data (P ++ page es tail, out) sec
    = Ok (P ++ page (map (touch data sec) es) tail,
          (out ++ if owned sec es
                  then [("Using custom HTML for " ++ path sec ++ " section")%string]
                  else [])%list).
Proof.
  intros Hsec Ho.
  destruct (overrides_value data sec Ho) as [G T].
  induction es as [|e es IH]; intros P out HP Hs Hd Hc.
  - cbn [map owned existsb]. unfold page in *. cbn [map flatten String.concat] in *.
    cbn [append] in *. cbn [calm] in Hc.
    unfold apply_section. rewrite G. cbn [bind]. rewrite T.
    rewrite (search_skip sec tail P HP), (search_nowhere sec tail Hc).
    now rewrite app_nil_r.
  - inversion Hs as [|? ? He Hs']; subst.
    cbn [map Str.distinct] in Hd. apply andb_prop in Hd as [Hd1 Hd2].
    apply negb_true_iff in Hd1.
    cbn [calm] in Hc. destruct Hc as [Hb Hc].
    rewrite page_cons in *. cbn [map owned existsb].
    rewrite page_cons.
    destruct (path (owner e) =? path sec) eqn:E.
    + assert (Es : owner e = sec)
        by (apply path_inj; [apply He | exact Hsec | exact E]).
      apply String.eqb_eq in E. rewrite E in Hd1.
      rewrite (touch_absent sec es Hd1).
      unfold touch. rewrite E, String.eqb_refl. cbn [orb].
      unfold element_source at 1. rewrite <- !append_assoc.
      rewrite (append_assoc P (before e)).
      rewrite !append_assoc.
      rewrite <- (append_assoc P (before e)).
      rewrite (apply_section_element data (customHtml data sec) sec
                 (P ++ before e) (element_tag e) (content e) (page es tail) out).
      * pose proof (sound_lands e He) as L. unfold custom_text in L.
        rewrite Es in L. rewrite L.
        unfold element_source, override. cbn [before element_tag owner attrs1 attrs2
          attrs3 classes1 classes2 content].
        unfold custom_text, element_tag. rewrite Es.
        now rewrite !append_assoc.
      * rewrite <- Es. apply (sound_tag e He).
      * exact G.
      * exact T.
      * apply unread_app.
        -- unfold element_source in HP. rewrite !append_assoc in HP. exact HP.
        -- specialize (Hb (content e ++ "</section>" ++ page es tail)).
           exact Hb.
      * apply He.
    + destruct Hc as (Ht & Hx & _ & Hc).
      unfold touch at 1. rewrite E. cbn [orb].
      rewrite <- !append_assoc.
      rewrite (IH (P ++ element_source e) out); try assumption.
      * reflexivity.
      * apply unread_app; [exact HP|].
        unfold element_source.
        apply unread_app;
          [rewrite !append_assoc;
           apply (Hb (content e ++ "</section>" ++ page es tail))|].
        apply unread_app;
          [rewrite !append_assoc;
           apply (Ht (content e ++ "</section>" ++ page es tail))|].
        apply unread_app; [apply (Hx (page es tail))|].
        apply (quiet_closing sec (page es tail)).
Qed.

End OnePass.
End PageFacts.

Section PassFacts.
Import Value Path Regex Template Page.
Variable data : value.
Variable tail : string.

Lemma mixing_touch (sec : section) : mixing data (touch data sec).
Proof.
  intros e. unfold touch. destruct (path (owner e) =? path sec); auto.
Qed.

Lemma mixing_override : mixing data (override data).
Proof. intros e. now right. Qed.

Lemma mixing_owner (f : element -> element) (e : element) :
  mixing data f -> owner (f e) = owner e.
Proof. intros H. now destruct (H e) as [-> | ->]. Qed.

Lemma paths_mixing (f : element -> element) (es : list element) :
  mixing data f ->
  map (fun e => path (owner e)) (map f es) = map (fun e => path (owner e)) es.
Proof.
  intros H. rewrite map_map. apply map_ext. intros e.
  now rewrite (mixing_owner f e H).
Qed.

Lemma owned_mixing (f : element -> element) (sec : section) (es : list element) :
  mixing data f -> owned sec (map f es) = owned sec es.
Proof.
  intros H. unfold owned. induction es as [|e es IH]; [reflexivity|].
  cbn [map existsb]. now rewrite (mixing_owner f e H), IH.
Qed.

Lemma sound_mixing (f : element -> element) (es : list element) :
  mixing data f -> Forall (sound data) es -> Forall (sound data) (map f es).
Proof.
  intros H Hs. apply Forall_map. revert Hs. apply Forall_impl.
  intros e He. destruct (H e) as [-> | ->]; [exact He | now apply sound_override].
Qed.

Lemma calm_mixing (f : element -> element) (sec : section) (es : list element) :
  mixing data f -> calm data sec es tail -> calm data sec (map f es) tail.
Proof.
  intros H. induction es as [|e es IH]; [exact (fun C => C)|].
  cbn [map calm]. intros [Hb Hc].
  assert (E : before (f e) = before e /\ element_tag (f e) = element_tag e
              /\ owner (f e) = owner e
              /\ content (override data (f e)) = content (override data e)
              /\ (content (f e) = content e
                  \/ content (f e) = content (override data e)))
    by (destruct (H e) as [-> | ->]; repeat split; auto).
  destruct E as (-> & -> & -> & -> & Ec).
  split; [exact Hb|].
  destruct (path (owner e) =? path sec); [exact I|].
  destruct Hc as (Ht & Hx & Hy & Hc).
  repeat split; try assumption.
  - now destruct Ec as [-> | ->].
  - now apply IH.
Qed.

Lemma touch_idle (sec : section) (e : element) :
  In sec sectionMap -> overrides data sec = false -> sound data e ->
  touch data sec e = e.
Proof.
  intros Hsec Ho (Hin & Hov & _). unfold touch.
  destruct (path (owner e) =? path sec) eqn:E; [|reflexivity].
  rewrite (path_inj _ _ Hin Hsec E) in Hov. congruence.
Qed.

(** The elements after the overrides of a list of sections. *)
Lemma touch_fold (secs : list section) :
  forall e : element,
    fold_left (fun e s => touch data s e) secs e
    = if existsb (fun s => path (owner e) =? path s) secs
      then override data e else e.
Proof.
  induction secs as [|s secs IH]; intros e; [reflexivity|].
  cbn [fold_left existsb]. unfold touch at 2.
  destruct (path (owner e) =? path s); cbn [orb].
  - rewrite IH. now destruct (existsb _ secs).
  - apply IH.
Qed.

Lemma touch_all (e : element) :
  In (owner e) sectionMap ->
  fold_left (fun e s => touch data s e) sectionMap e = override data e.
Proof.
  intros H. rewrite touch_fold.
  replace (existsb (fun s => path (owner e) =? path s) sectionMap) with true;
    [reflexivity|].
  symmetry. apply existsb_exists. exists (owner e).
  split; [exact H | apply String.eqb_refl].
Qed.

(** The loop over a list of sections of the map, on a document of
    elements. *)
Lemma section_loop_page (secs : list section) :
  (forall s, In s secs -> In s sectionMap) ->
  forall (es : list element) (out : console),
    Forall (sound data) es ->
    Str.distinct (map (fun e => path (owner e)) es) = true ->
    (forall s, In s secs -> overrides data s = true -> calm data s es tail) ->
    section_loop data secs (page es tail, out)
    = Ok (page (map (fun e => fold_left (fun e s => touch data s e) secs e) es)
            tail,
          (out ++ map (fun sec =>
                         ("Using custom HTML for " ++ path sec ++ " section")%string)
                    (filter (fun sec => overrides data sec && owned sec es) secs))%list).
Proof.
  induction secs as [|s secs IH]; intros Hin es out Hs Hd Hc.
  - cbn [section_loop fold_left filter map]. now rewrite map_id, app_nil_r.
  - cbn [section_loop fold_left filter].
    assert (Hin' : forall s', In s' secs -> In s' sectionMap)
      by (intros s' H'; apply Hin; now right).
    destruct (overrides data s) eqn:Ho; cbn [andb].
    + pose proof (apply_section_page data tail s (Hin s (or_introl eq_refl)) Ho
                    es "" out eq_refl Hs Hd
                    (Hc s (or_introl eq_refl) Ho)) as A.
      cbn [append] in A. rewrite A. cbn [bind].
      rewrite (IH Hin').
      * rewrite map_map.
        rewrite (filter_ext _ (fun sec => overrides data sec && owned sec es)).
        -- destruct (owned s es); cbn [map]; [|now rewrite app_nil_r].
           now rewrite <- app_assoc.
        -- intros s'. now rewrite (owned_mixing (touch data s) s' es (mixing_touch s)).
      * apply sound_mixing; [apply mixing_touch | exact Hs].
      * rewrite paths_mixing; [exact Hd | apply mixing_touch].
      * intros s' H' Ho'. apply calm_mixing; [apply mixing_touch|].
        apply Hc; [now right | exact Ho'].
    + rewrite apply_section_skip by exact Ho. cbn [bind].
      rewrite (IH Hin' es out Hs Hd).
      * do 3 f_equal. apply map_ext_in. intros e He.
        rewrite (touch_idle s e (Hin s (or_introl eq_refl)) Ho); [reflexivity|].
        rewrite Forall_forall in Hs. now apply Hs.
      * intros s' H' Ho'. apply Hc; [now right | exact Ho'].
Qed.

(** The pass on a document of elements: every element takes its custom
    HTML, and a line is written for each. *)
Lemma section_pass_page (es : list element) (out : console) :
  Forall (sound data) es ->
  Str.distinct (map (fun e => path (owner e)) es) = true ->
  (forall s, In s sectionMap -> overrides data s = true -> calm data s es tail) ->
  section_pass data (page es tail, out)
  = Ok (page (map (override data) es) tail, (out ++ logged data es)%list).
Proof.
  intros Hs Hd Hc. unfold section_pass, logged.
  rewrite (section_loop_page sectionMap (fun s H => H) es out Hs Hd Hc).
  do 3 f_equal. apply map_ext_in. intros e He. apply touch_all.
  rewrite Forall_forall in Hs. apply (Hs e He).
Qed.

End PassFacts.

Section SectionClaims.
Import Value Path Regex Template Page.



(** C6, amended: the pass is idempotent on a document of section elements.
    The document is a list of elements of sections the tree overrides, no
    two of one section, each with the text before it, and the rest of the
    document.  Every element carries the id of its section (when it has one)
    and then the class, with further attributes and classes that have no
    [>], the classes no double quote, every class attribute opened in the
    tag being closed in it; the content of the element has no closing tag
    and occurs in the element first as its content, or is the custom HTML
    already.  The custom HTML of the section has the text the model prints;
    as a replacement string it names neither the match nor the text around
    it ([$$] and a [$] before any other character may occur), and what it
    stands for has no closing tag.  For every section the tree overrides,
    the expression of the section reads no opening tag before the element of
    the section, and nowhere when the document has no element of it.  Then
    one run of the pass gives every element its custom HTML and writes one
    line for each, and a second run gives the same document.  So it is for
    the template [<section id="about" class="about-section">OLD</section>]
    and the tree [{about:{customHtml:"<p>NEW</p>"}}]: compiling gives
    [<section id="about" class="about-section"><p>NEW</p></section>], and
    compiling that again gives it back. *)
Theorem section_pass_idempotent :
  (forall (data : value) (es : list element) (tail : string) (out : console),
      Forall (sound data) es ->
      Str.distinct (map (fun e => path (owner e)) es) = true ->
      (forall sec, In sec sectionMap -> overrides data sec = true ->
                   calm data sec es tail) ->
      let html' := page (map (override data) es) tail in
      let lines := logged data es in
      section_pass data (page es tail, out) = Ok (html', (out ++ lines)%list)
      /\ section_pass data (html', (out ++ lines)%list)
         = Ok (html', ((out ++ lines) ++ lines)%list))
  /\ (let data := VObject [("about", VObject [("customHtml", VString "<p>NEW</p>")])] in
      let compiled := about_tag ++ "<p>NEW</p></section>" in
      let line := "Using custom HTML for about section" in
      about_tag = Str.quoted "<section id='about' class='about-section'>"
      /\ buildHTML 5 (about_tag ++ "OLD</section>") data []
         = Some (Ok (compiled, [line]))
      /\ buildHTML 5 compiled data [] = Some (Ok (compiled, [line]))).
Proof.
  split; [|repeat split].
  intros data es tail out Hs Hd Hc html' lines. split.
  - now apply section_pass_page.
  - subst html' lines.
    rewrite (section_pass_page data tail (map (override data) es)).
    + rewrite map_map. do 3 f_equal. unfold logged. f_equal.
      apply filter_ext. intros s.
      now rewrite (owned_mixing data (override data) s es (mixing_override data)).
    + apply sound_mixing; [apply mixing_override | exact Hs].
    + now rewrite (paths_mixing data (override data) es (mixing_override data)).
    + intros s Hin Ho. apply calm_mixing; [apply mixing_override|].
      now apply Hc.
Qed.

Lemma section_pass_idempotent_witness :
  let data :=
    VObject [("hero", VObject [("customHtml", VString "<h1>From $20</h1>")]);
             ("about", VObject [("customHtml", VNumber 42)]);
             ("contact", VObject [("customHtml", VString "<p>Call us</p>")])] in
  let es :=
    [ Element "<body>" (Section_ (Some "home") (Some "hero") "hero")
        " " (Str.quoted " data-x='1' ") "" "big " "" "<h1>Hi</h1>";
      Element "<p>between</p>" about " " " " " hidden" "" " dark" "OLD" ] in
  let html' := page (map (override data) es) "</body>" in
  let lines := ["Using custom HTML for hero section";
                "Using custom HTML for about section"] in
  section_pass data (page es "</body>", []) = Ok (html', lines)
  /\ section_pass data (html', lines) = Ok (html', (lines ++ lines)%list).
Proof.
  intros data es.
  apply (proj1 section_pass_idempotent data es "</body>" []).
  - apply Forall_cons; [|apply Forall_cons; [|apply Forall_nil]];
      (unfold sound; repeat split; try reflexivity;
       [cbn [sectionMap owner In]; auto 10 | right; reflexivity]).
  - reflexivity.
  - intros sec Hsec Ho. cbn [sectionMap In] in Hsec.
    repeat (destruct Hsec as [<-|Hsec];
            [try discriminate Ho; repeat split; intros rest; reflexivity|]).
    contradiction.
Defined.

End SectionClaims.

(** ** Template compiler: placeholders whose key resolves to nothing *)

Section PlaceholderClaims.
Import Value Path Regex Template Page.




End PlaceholderClaims.
